(** * Format King: the format-detection and parsing pipeline of [app.js]

    A shallow embedding of the class [FormatKing] (src/app.js, first class of
    the file) and the properties its specification states about it.

    Conventions.
    - A JavaScript string is the list of its UTF-16 code units ([jsstring]);
      a code unit is an [N].  [js "..."] turns a literal of this file (UTF-8)
      into code units, so that patterns read as they do in the source.
    - A JavaScript number that the code computes with ([detectDelimiter]'s
      scores, [parseFloat]'s results, the fixed-width threshold) is an IEEE
      binary64 value: Rocq's primitive [float].  Lengths and indices are [nat].
    - [this] is the record [State]; a method that assigns to fields of [this]
      returns the new [State], and what it does to the page (toasts, the table
      selector, the file-name label, rendering) is returned as a list of
      [Effect]s.
    - The values read from the page ([pasteInput.value] and the like) are the
      record [Page]. *)

From Stdlib Require Import ZArith NArith List Bool Lia Floats Uint63.
From Stdlib Require Ascii String.
Import String.StringSyntax.
From stdpp Require Import base list gmap.
Import ListNotations.

(** ** Strings *)

Module JS.

Abbreviation char := N (only parsing).
Abbreviation jsstring := (list N) (only parsing).

Fixpoint bytes_of (s : String.string) : list N :=
  match s with
  | String.EmptyString => []
  | String.String a r => Ascii.N_of_ascii a :: bytes_of r
  end.

(** UTF-8 bytes to UTF-16 code units (a 4-byte sequence gives a surrogate
    pair). *)
Fixpoint utf16_of_utf8 (bs : list N) : jsstring :=
  match bs with
  | [] => []
  | b1 :: r1 =>
    if (b1 <? 0x80)%N then b1 :: utf16_of_utf8 r1
    else match r1 with
    | [] => []
    | b2 :: r2 =>
      if (b1 <? 0xE0)%N then
        N.lor (N.shiftl (N.land b1 0x1F) 6) (N.land b2 0x3F) :: utf16_of_utf8 r2
      else match r2 with
      | [] => []
      | b3 :: r3 =>
        if (b1 <? 0xF0)%N then
          N.lor (N.shiftl (N.land b1 0x0F) 12)
            (N.lor (N.shiftl (N.land b2 0x3F) 6) (N.land b3 0x3F))
          :: utf16_of_utf8 r3
        else match r3 with
        | [] => []
        | b4 :: r4 =>
          let cp := N.lor (N.shiftl (N.land b1 0x07) 18)
                     (N.lor (N.shiftl (N.land b2 0x3F) 12)
                       (N.lor (N.shiftl (N.land b3 0x3F) 6) (N.land b4 0x3F))) in
          let v := (cp - 0x10000)%N in
          (0xD800 + N.shiftr v 10)%N :: (0xDC00 + N.land v 0x3FF)%N
          :: utf16_of_utf8 r4
        end
      end
    end
  end.

Definition js (s : String.string) : jsstring := utf16_of_utf8 (bytes_of s).
Arguments js s%_string_scope.

Definition QUOTE : char := 34%N.
Definition COMMA : char := 44%N.
Definition LF : char := 10%N.
Definition CR : char := 13%N.
Definition SPACE : char := 32%N.
Definition TAB : char := 9%N.
Definition SEMICOLON : char := 59%N.
Definition PIPE : char := 124%N.

(** [a === b] on strings. *)
Definition str_eqb (a b : jsstring) : bool := bool_decide (a = b).

(** WhiteSpace and LineTerminator code units: what [trim] strips and what
    [\s] matches. *)
Definition isWhiteSpace (c : char) : bool :=
  ((9 <=? c) && (c <=? 13) || (c =? 32) || (c =? 0xA0) || (c =? 0x1680)
   || (0x2000 <=? c) && (c <=? 0x200A) || (c =? 0x2028) || (c =? 0x2029)
   || (c =? 0x202F) || (c =? 0x205F) || (c =? 0x3000) || (c =? 0xFEFF))%N.

(** LineTerminator code units: what [.] does not match and where [^] and [$]
    match under the [m] flag. *)
Definition isLineTerminator (c : char) : bool :=
  ((c =? 10) || (c =? 13) || (c =? 0x2028) || (c =? 0x2029))%N.

Fixpoint trimStart (s : jsstring) : jsstring :=
  match s with
  | c :: r => if isWhiteSpace c then trimStart r else s
  | [] => []
  end.

Definition trimEnd (s : jsstring) : jsstring := rev (trimStart (rev s)).

Definition trim (s : jsstring) : jsstring := trimEnd (trimStart s).

(** [s.split(sep)] for a separator of one code unit. *)
Fixpoint split (sep : char) (s : jsstring) : list jsstring :=
  match s with
  | [] => [[]]
  | c :: r =>
    if (c =? sep)%N then [] :: split sep r
    else match split sep r with
         | w :: ws => (c :: w) :: ws
         | [] => [[c]]
         end
  end.

(** [parts.join(sep)]. *)
Fixpoint join (sep : jsstring) (parts : list jsstring) : jsstring :=
  match parts with
  | [] => []
  | [p] => p
  | p :: ps => p ++ sep ++ join sep ps
  end.

(** [s.includes(c)] for a string [c] of one code unit. *)
Definition includes (c : char) (s : jsstring) : bool :=
  existsb (N.eqb c) s.

Definition startsWith (c : char) (s : jsstring) : bool :=
  match s with
  | x :: _ => (x =? c)%N
  | [] => false
  end.

Definition endsWith (c : char) (s : jsstring) : bool := startsWith c (rev s).

(** [s.slice(1)] and [s.slice(0, -1)]. *)
Definition slice_from_1 (s : jsstring) : jsstring := drop 1 s.
Definition slice_to_last (s : jsstring) : jsstring := take (length s - 1) s.

(** The decimal digits of a natural number, as [String(n)] and template
    literals print an integer. *)
Fixpoint digits_fuel (fuel n : nat) (acc : jsstring) : jsstring :=
  match fuel with
  | O => acc
  | S f =>
    let acc' := (48 + N.of_nat (n mod 10))%N :: acc in
    if (n / 10 =? 0)%nat then acc' else digits_fuel f (n / 10) acc'
  end.

Definition string_of_nat (n : nat) : jsstring := digits_fuel (S n) n [].

End JS.
Export JS.

(** ** The document model: [this] *)

Abbreviation Row := (list (list N)) (only parsing).

Record Table := mkTable {
  name : jsstring;
  headers : list jsstring;
  data : list Row
}.

Inductive Direction := asc | desc.

(** The fields the constructor initialises. [sortColumn] is [-1] for "none". *)
Record State := mkState {
  st_data : list Row;
  st_headers : list jsstring;
  st_sortColumn : Z;
  st_sortDirection : Direction;
  st_filteredData : list Row;
  st_tables : list Table;
  st_currentTableIndex : Z
}.

Definition initial_state : State :=
  mkState [] [] (-1) asc [] [] 0.

(** What a method does to the page. *)
Inductive Effect :=
| ShowToast (message : list N)
| RenderTable
| ShowTableSelector (options : list N)
| HideTableSelector
| SetTableSelectorValue (value : list N)
| SetFileNameDisplay (textContent : list N).

(** ** Delimited text: [parseCSV] *)

Module CSV.

(** The variables of [parseCSV]'s loop. *)
Record Loop := mkLoop {
  rows : list Row;
  currentRow : Row;
  currentCell : jsstring;
  inQuotes : bool;
  i : nat
}.

(** [currentRow.some(cell => cell !== '')] *)
Definition some_nonempty (r : Row) : bool :=
  existsb (fun cell => negb (str_eqb cell [])) r.

(** [char === delimiter]: [char] is one code unit of the text, [delimiter]
    the string the caller passed. *)
Definition is_delimiter (c : char) (delimiter : jsstring) : bool :=
  str_eqb [c] delimiter.

(** One iteration of the [for] loop, for [i < text.length]; the loop's own
    [i++] is the final increment. *)
Definition body (text delimiter : jsstring) (s : Loop) : Loop :=
  match text !! i s with
  | None => s
  | Some char =>
    let nextChar := text !! (i s + 1)%nat in
    let s' :=
      if inQuotes s then
        if (char =? QUOTE)%N && bool_decide (nextChar = Some QUOTE) then
          mkLoop (rows s) (currentRow s) (currentCell s ++ [QUOTE]) true (i s + 1)
        else if (char =? QUOTE)%N then
          mkLoop (rows s) (currentRow s) (currentCell s) false (i s)
        else
          mkLoop (rows s) (currentRow s) (currentCell s ++ [char]) true (i s)
      else
        if (char =? QUOTE)%N then
          mkLoop (rows s) (currentRow s) (currentCell s) true (i s)
        else if is_delimiter char delimiter then
          mkLoop (rows s) (currentRow s ++ [trim (currentCell s)]) [] false (i s)
        else if (char =? LF)%N
                || (char =? CR)%N && bool_decide (nextChar = Some LF) then
          let currentRow' := currentRow s ++ [trim (currentCell s)] in
          let rows' := if some_nonempty currentRow' then rows s ++ [currentRow']
                       else rows s in
          mkLoop rows' [] [] false (if (char =? CR)%N then i s + 1 else i s)
        else if negb (char =? CR)%N then
          mkLoop (rows s) (currentRow s) (currentCell s ++ [char]) false (i s)
        else s
    in mkLoop (rows s') (currentRow s') (currentCell s') (inQuotes s') (i s' + 1)
  end.

(** [for (let i = 0; i < text.length; i++) body]; every iteration advances [i],
    so [length text] iterations are enough. *)
Fixpoint loop (fuel : nat) (text delimiter : jsstring) (s : Loop) : Loop :=
  match fuel with
  | O => s
  | S fuel' =>
    if (i s <? length text)%nat then loop fuel' text delimiter (body text delimiter s)
    else s
  end.

Definition parseCSV (text delimiter : jsstring) : list Row :=
  let s := loop (length text) text delimiter (mkLoop [] [] [] false 0) in
  if negb (str_eqb (currentCell s) []) || (0 <? length (currentRow s))%nat then
    let currentRow' := currentRow s ++ [trim (currentCell s)] in
    if some_nonempty currentRow' then rows s ++ [currentRow'] else rows s
  else rows s.

End CSV.
Export CSV.

(** ** The two-state machine of the specification

    Written from the specification's words (section 4.2), to be compared with
    [parseCSV]: a configuration is the state ([unquoted] or [quoted]), the
    pending cell, the pending row and the rows kept so far, and the machine
    reads the text one code unit at a time, with the rules in the order the
    specification gives them. *)

Module Machine.

Inductive Mode := unquoted | quoted.

Record Config := mkConfig {
  mode : Mode;
  cell : jsstring;
  row : Row;
  kept : list Row
}.

Definition start : Config := mkConfig unquoted [] [] [].

(** emit one code unit into the pending cell *)
Definition emit (c : char) (m : Config) : Config :=
  mkConfig (mode m) (cell m ++ [c]) (row m) (kept m).

Definition enter_quoted (m : Config) : Config :=
  mkConfig quoted (cell m) (row m) (kept m).

Definition exit_quoted (m : Config) : Config :=
  mkConfig unquoted (cell m) (row m) (kept m).

(** the delimiter ends the current cell, trimmed *)
Definition end_cell (m : Config) : Config :=
  mkConfig (mode m) [] (row m ++ [trim (cell m)]) (kept m).

(** a row is kept only if at least one cell is non-empty *)
Definition keep (r : Row) (rs : list Row) : list Row :=
  if some_nonempty r then rs ++ [r] else rs.

Definition end_row (m : Config) : Config :=
  mkConfig (mode m) [] [] (keep (row m ++ [trim (cell m)]) (kept m)).

Fixpoint run (delimiter : jsstring) (input : jsstring) (m : Config) : Config :=
  match input with
  | [] => m
  | c :: rest =>
    match mode m with
    | unquoted =>
      if (c =? QUOTE)%N then run delimiter rest (enter_quoted m)
      else if is_delimiter c delimiter then run delimiter rest (end_cell m)
      else if (c =? LF)%N then run delimiter rest (end_row m)
      else if (c =? CR)%N then
        match rest with
        | c' :: rest' =>
          if (c' =? LF)%N then run delimiter rest' (end_row m)
          else run delimiter rest m
        | [] => run delimiter rest m
        end
      else run delimiter rest (emit c m)
    | quoted =>
      if (c =? QUOTE)%N then
        match rest with
        | c' :: rest' =>
          if (c' =? QUOTE)%N then run delimiter rest' (emit QUOTE m)
          else run delimiter rest (exit_quoted m)
        | [] => run delimiter rest (exit_quoted m)
        end
      else run delimiter rest (emit c m)
    end
  end.

(** end of input flushes the pending row under the same rule *)
Definition parse (delimiter text : jsstring) : list Row :=
  kept (end_row (run delimiter text start)).

(** [m] with the code units [c] added to its pending cell, unquoted *)
Definition with_cell (m : Config) (c : list N) : Config :=
  mkConfig unquoted (cell m ++ c) (row m) (kept m).

(** The machine configuration that the loop variables of [parseCSV] stand
    for. *)
Definition config_of (s : Loop) : Config :=
  mkConfig (if inQuotes s then quoted else unquoted)
           (currentCell s) (currentRow s) (rows s).

End Machine.

(** ** Export: [dataToCSV] *)

Module CsvExport.

(** [cell.replace] of every quote ([/QUOTE/g]) by two quotes *)
Definition double_quotes (cell : jsstring) : jsstring :=
  flat_map (fun c => if (c =? QUOTE)%N then [QUOTE; QUOTE] else [c]) cell.

(** [cell.includes(COMMA) || cell.includes(QUOTE) || cell.includes(LF)] *)
Definition needs_quotes (cell : jsstring) : bool :=
  includes COMMA cell || includes QUOTE cell || includes LF cell.

Definition escape (cell : jsstring) : jsstring :=
  if needs_quotes cell then [QUOTE] ++ double_quotes cell ++ [QUOTE]
  else cell.

Definition dataToCSV (this : State) : jsstring :=
  let headerRow := join (js ",") (map escape (st_headers this)) in
  let dataRows :=
    map (fun row => join (js ",") (map escape row)) (st_filteredData this) in
  join [LF] (headerRow :: dataRows).

(** A cell that [escape] writes without quotes holds no carriage return. *)
Definition cr_free_unless_quoted (cell : jsstring) : bool :=
  needs_quotes cell || negb (includes CR cell).

End CsvExport.
Export CsvExport.

(** ** The table-set reconciler: [getCommonHeaders], [padRowToHeaders] *)

Module Reconciler.

(** [t.headers.length === firstHeaders.length &&
     t.headers.every((h, i) => h === firstHeaders[i])];
    [firstHeaders[i]] is [undefined], equal to no string, out of range. *)
Definition same_headers (firstHeaders : list (list N)) (t : Table) : bool :=
  (length (headers t) =? length firstHeaders)%nat
  && forallb (fun ih => bool_decide (firstHeaders !! (fst ih) = Some (snd ih)))
             (zip (seq 0 (length (headers t))) (headers t)).

(** The body of the inner [for]: [seen] is the [Set], [allHeaders] the
    array. *)
Definition collect (acc : gset (list N) * list (list N)) (header : list N)
  : gset (list N) * list (list N) :=
  if bool_decide (header ∈ acc.1) then acc
  else ({[header]} ∪ acc.1, acc.2 ++ [header]).

Definition getCommonHeaders (this : State) : list (list N) :=
  match st_tables this with
  | [] => []
  | t0 :: _ =>
    let firstHeaders := headers t0 in
    let allSame := forallb (same_headers firstHeaders) (st_tables this) in
    if allSame then firstHeaders
    else
      (fold_left (fun acc table => fold_left collect (headers table) acc)
                 (st_tables this) (∅, [])).2
  end.

(** [array.indexOf(x)]: the first index of [x], or [-1]. *)
Fixpoint indexOf_from (l : list (list N)) (x : list N) (k : Z) : Z :=
  match l with
  | [] => (-1)%Z
  | y :: l' => if str_eqb y x then k else indexOf_from l' x (k + 1)%Z
  end.

Definition indexOf (l : list (list N)) (x : list N) : Z := indexOf_from l x 0.

(** The callback of [tableHeaders.forEach((header, i) => ...)]. *)
Definition place (commonHeaders : list (list N)) (row : list (list N))
    (result : list (list N)) (ih : nat * list N) : list (list N) :=
  let '(i, header) := ih in
  let commonIndex := indexOf commonHeaders header in
  if negb (commonIndex =? -1)%Z && (i <? length row)%nat then
    match row !! i with
    | Some v => <[Z.to_nat commonIndex := v]> result
    | None => result
    end
  else result.

Definition padRowToHeaders (this : State) (row tableHeaders : list (list N))
  : list (list N) :=
  let commonHeaders := getCommonHeaders this in
  let result := replicate (length commonHeaders) [] in
  fold_left (place commonHeaders row)
            (zip (seq 0 (length tableHeaders)) tableHeaders) result.

(** The result after [forEach] has visited the headers [ths]. *)
Definition padded (common row ths : list (list N)) : list (list N) :=
  fold_left (place common row) (zip (seq 0 (length ths)) ths)
            (replicate (length common) []).

(** "The union of all headers across all tables in first-seen order, with
    duplicates removed", in the specification's words: the first header,
    then the rest without it, and so on. *)
Fixpoint first_seen (l : list (list N)) : list (list N) :=
  match l with
  | [] => []
  | x :: l' => x :: List.filter (fun y => negb (str_eqb y x)) (first_seen l')
  end.

(** [y] is not among the headers collected so far *)
Definition unseen (acc : list (list N)) (y : list N) : bool :=
  negb (bool_decide (y ∈ acc)).
Arguments unseen : simpl never.

Definition union_of_headers (tables : list Table) : list (list N) :=
  first_seen (concat (map headers tables)).

End Reconciler.
Export Reconciler.

(** ** The delimiter detector: [detectDelimiter] *)

Module Detector.

(** A length or a count as a JavaScript number. *)
Definition number (n : nat) : float := of_uint63 (Uint63.of_Z (Z.of_nat n)).

(** [(line.match(new RegExp(d, 'g')) || []).length]: the pattern is the one
    code unit [d] (escaped when it is the pipe). *)
Definition occurrences (d : char) (line : jsstring) : nat :=
  length (List.filter (N.eqb d) line).

Definition delimiters : list char := [COMMA; SEMICOLON; TAB; PIPE].

(** The object [counts] once the first [forEach] has run. *)
Definition counts_of (lines : list (list N)) : gmap N (list nat) :=
  fold_left (fun counts d => <[d := map (occurrences d) lines]> counts)
            delimiters ∅.

(** [avg], [variance] and [score] of the second [forEach]; [Math.pow(x, 2)]
    is the product [x * x]. *)
Definition score (c : list nat) : float :=
  let len := number (length c) in
  let avg := (fold_left (fun a b => a + number b) c 0 / len)%float in
  let variance :=
    (fold_left (fun sum val => sum + (number val - avg) * (number val - avg))
               c 0 / len)%float in
  if (0 <? avg)%float then (avg / (variance + 1))%float else 0%float.

(** The callback of the second [forEach], on the pair
    ([bestDelimiter], [bestScore]). *)
Definition better (counts : gmap N (list nat)) (best : N * float) (d : char)
  : N * float :=
  let score := score (default [] (counts !! d)) in
  if (best.2 <? score)%float then (d, score) else best.

(** The callback again, for any scoring [f] of the candidates. *)
Definition pick (f : N -> float) (best : N * float) (d : N) : N * float :=
  if (best.2 <? f d)%float then (d, f d) else best.

(** What holds of ([bestDelimiter], [bestScore]) once the candidates [seen]
    have been visited. *)
Definition scanned (f : N -> float) (seen : list N) (best : N * float) : Prop :=
  (best = (COMMA, 0%float) /\ forall d, d ∈ seen -> (0 <? f d)%float = false)
  \/ (best.2 = f best.1 /\ (0 <? f best.1)%float = true
      /\ (exists before after, seen = before ++ best.1 :: after
            /\ forall d, d ∈ before -> (f best.1 <=? f d)%float = false)
      /\ forall d, d ∈ seen -> (f best.1 <? f d)%float = false).

(** Everything after [const lines = ...]. *)
Definition best_delimiter (lines : list (list N)) : list N :=
  let counts := counts_of lines in
  [(fold_left (better counts) delimiters (COMMA, 0%float)).1].

Definition detectDelimiter (text : jsstring) : jsstring :=
  let lines := take 5 (split LF (trim text)) in
  best_delimiter lines.

(** The detector as the specification words it: the same scoring over "the
    first 5 non-empty lines" of the text. *)
Definition first_nonempty_lines (text : jsstring) : list (list N) :=
  take 5 (List.filter (fun line => negb (str_eqb (trim line) []))
                      (split LF text)).

Definition detectDelimiter_nonempty (text : jsstring) : jsstring :=
  best_delimiter (first_nonempty_lines text).

End Detector.
Export Detector.

(** ** Numbers in cells: [parseFloat] *)

Module Numbers.

Definition is_digit (c : char) : bool := ((48 <=? c) && (c <=? 57))%N.

(** the longest run of decimal digits at the head, and what follows it *)
Fixpoint span_digits (s : jsstring) : list N * list N :=
  match s with
  | c :: r =>
    if is_digit c then let '(ds, rest) := span_digits r in (c :: ds, rest)
    else ([], s)
  | [] => ([], [])
  end.

(** the value of a run of decimal digits *)
Definition digits_value (ds : list N) : N :=
  fold_left (fun acc c => (10 * acc + (c - 48))%N) ds 0%N.

Fixpoint is_prefix (p s : list N) : bool :=
  match p, s with
  | [], _ => true
  | x :: p', y :: s' => (x =? y)%N && is_prefix p' s'
  | _ :: _, [] => false
  end.

(** The binary64 number nearest to [m * 10^e], ties to even: the quotient of
    two integers, rounded once. *)
Definition decimal_to_float (negative : bool) (m : N) (e : Z) : float :=
  match m with
  | N0 => if negative then (-0)%float else 0%float
  | Npos p =>
    let numerator := (p * Z.to_pos (10 ^ Z.max e 0))%positive in
    let denominator := Z.to_pos (10 ^ Z.max (- e) 0) in
    SF2Prim (SFdiv prec emax (S754_finite negative numerator 0)
                             (S754_finite false denominator 0))
  end.

(** An ExponentPart at the head of [s], if there is one: [e] or [E], an
    optional sign, at least one digit. *)
Definition exponent_part (s : jsstring) : Z :=
  match s with
  | c :: r =>
    if ((c =? 101) || (c =? 69))%N then
      let '(negative, r') :=
        match r with
        | x :: r1 => if (x =? 45)%N then (true, r1)
                     else if (x =? 43)%N then (false, r1) else (false, r)
        | [] => (false, r)
        end in
      let '(ds, _) := span_digits r' in
      match ds with
      | [] => 0%Z
      | _ => if negative then (- Z.of_N (digits_value ds))%Z
             else Z.of_N (digits_value ds)
      end
    else 0%Z
  | [] => 0%Z
  end.

(** [parseFloat(s)]: leading white space is skipped, then the longest prefix
    that is a StrDecimalLiteral is read; [NaN] when there is none. *)
Definition parseFloat (s : jsstring) : float :=
  let t := trimStart s in
  let '(negative, t1) :=
    match t with
    | c :: r => if (c =? 45)%N then (true, r)
                else if (c =? 43)%N then (false, r) else (false, t)
    | [] => (false, t)
    end in
  if is_prefix (js "Infinity") t1 then
    if negative then neg_infinity else infinity
  else
    let '(int_digits, t2) := span_digits t1 in
    let '(frac_digits, t3) :=
      match t2 with
      | c :: r => if (c =? 46)%N then span_digits r else ([], t2)
      | [] => ([], t2)
      end in
    match int_digits ++ frac_digits with
    | [] => nan
    | ds =>
      decimal_to_float negative (digits_value ds)
        (exponent_part t3 - Z.of_nat (length frac_digits))
    end.

(** [isNaN(x)] *)
Definition isNaN (x : float) : bool := PrimFloat.is_nan x.

End Numbers.
Export Numbers.

(** ** Sorting: [sortTable] *)

Module Sorting.

(** [valA < valB] on strings: code unit by code unit. *)
Fixpoint str_ltb (a b : jsstring) : bool :=
  match a, b with
  | _, [] => false
  | [], _ :: _ => true
  | x :: a', y :: b' =>
    if (x <? y)%N then true else if (y <? x)%N then false else str_ltb a' b'
  end.

(** [a[columnIndex] || ''] *)
Definition cell_at (a : list (list N)) (columnIndex : Z) : list N :=
  if (columnIndex <? 0)%Z then []
  else default [] (a !! Z.to_nat columnIndex).

(** [array.sort(compare)] as a stable insertion sort: [x] goes before the
    first element that [compare] puts after it. A result of [compare] that is
    not positive, [NaN] included, leaves the two in the order met. *)
Fixpoint insert_sorted {A} (compare : A -> A -> float) (x : A) (sorted : list A)
  : list A :=
  match sorted with
  | [] => [x]
  | y :: rest =>
    if (0 <? compare y x)%float then x :: sorted
    else y :: insert_sorted compare x rest
  end.

Definition array_sort {A} (compare : A -> A -> float) (l : list A) : list A :=
  fold_left (fun sorted x => insert_sorted compare x sorted) l [].

(** An order in which [sort] may leave the array: [compare] puts no element
    after one that follows it. *)
Fixpoint ordered_by {A} (compare : A -> A -> float) (l : list A) : bool :=
  match l with
  | [] => true
  | x :: rest =>
    forallb (fun y => negb (0 <? compare x y)%float) rest
    && ordered_by compare rest
  end.

Definition toggle (d : Direction) : Direction :=
  match d with asc => desc | desc => asc end.

Section LowerCase.

(** [String.prototype.toLowerCase], the case mapping of the Unicode
    database. *)
Variable toLowerCase : list N -> list N.

(** The comparison function passed to [sort]. *)
Definition compareRows (sortDirection : Direction) (columnIndex : Z)
    (a b : list (list N)) : float :=
  let valA := cell_at a columnIndex in
  let valB := cell_at b columnIndex in
  let numA := parseFloat valA in
  let numB := parseFloat valB in
  if negb (isNaN numA) && negb (isNaN numB) then
    match sortDirection with
    | asc => (numA - numB)%float
    | desc => (numB - numA)%float
    end
  else
    let valA := toLowerCase valA in
    let valB := toLowerCase valB in
    if str_ltb valA valB then
      match sortDirection with asc => (-1)%float | desc => 1%float end
    else if str_ltb valB valA then
      match sortDirection with asc => 1%float | desc => (-1)%float end
    else 0%float.

Definition sortTable (this : State) (columnIndex : Z) : State * list Effect :=
  let '(sortColumn, sortDirection) :=
    if (st_sortColumn this =? columnIndex)%Z
    then (st_sortColumn this, toggle (st_sortDirection this))
    else (columnIndex, asc) in
  (mkState (st_data this) (st_headers this) sortColumn sortDirection
           (array_sort (compareRows sortDirection columnIndex)
                       (st_filteredData this))
           (st_tables this) (st_currentTableIndex this),
   [RenderTable]).

End LowerCase.

(** The case mapping on the code units below 128. *)
Definition ascii_lower (c : char) : char :=
  if ((65 <=? c) && (c <=? 90))%N then (c + 32)%N else c.

Definition is_ascii (c : char) : bool := (c <? 128)%N.

Definition ascii_toLowerCase (s : list N) : list N := map ascii_lower s.

(** the cell of row [a] in column [col] holds code units below 128 only *)
Definition ascii_cell (col : Z) (a : list (list N)) : Prop :=
  forallb is_ascii (cell_at a col) = true.

End Sorting.
Export Sorting.

(** ** Regular expressions

    The patterns of the source, as terms, matched by derivatives.  Only
    [test] is needed of most of them, and whether a match exists does not
    depend on the order in which a backtracking matcher looks for it. *)

Module Regex.

Inductive re :=
| Void
| Eps
| Class (p : N -> bool)
| Seq (a b : re)
| Alt (a b : re)
| Star (a : re).

Fixpoint nullable (r : re) : bool :=
  match r with
  | Void => false
  | Eps => true
  | Class _ => false
  | Seq a b => nullable a && nullable b
  | Alt a b => nullable a || nullable b
  | Star _ => true
  end.

Definition mk_seq (a b : re) : re :=
  match a, b with
  | Void, _ => Void
  | _, Void => Void
  | Eps, _ => b
  | _, Eps => a
  | _, _ => Seq a b
  end.

Definition mk_alt (a b : re) : re :=
  match a, b with
  | Void, _ => b
  | _, Void => a
  | _, _ => Alt a b
  end.

Fixpoint deriv (c : N) (r : re) : re :=
  match r with
  | Void => Void
  | Eps => Void
  | Class p => if p c then Eps else Void
  | Seq a b => mk_alt (mk_seq (deriv c a) b) (if nullable a then deriv c b else Void)
  | Alt a b => mk_alt (deriv c a) (deriv c b)
  | Star a => mk_seq (deriv c a) (Star a)
  end.

(** the whole of [s] matches [r] *)
Fixpoint matches (r : re) (s : list N) : bool :=
  match s with
  | [] => nullable r
  | c :: s' => matches (deriv c r) s'
  end.

(** The strings that a pattern denotes; [matches] decides it (see
    [matches_lang]). *)
Inductive lang : re -> list N -> Prop :=
| lang_eps : lang Eps []
| lang_class (p : N -> bool) (c : N) : p c = true -> lang (Class p) [c]
| lang_seq (a b : re) (s1 s2 : list N) :
    lang a s1 -> lang b s2 -> lang (Seq a b) (s1 ++ s2)
| lang_alt_l (a b : re) (s : list N) : lang a s -> lang (Alt a b) s
| lang_alt_r (a b : re) (s : list N) : lang b s -> lang (Alt a b) s
| lang_star_nil (a : re) : lang (Star a) []
| lang_star_cons (a : re) (s1 s2 : list N) :
    lang a s1 -> lang (Star a) s2 -> lang (Star a) (s1 ++ s2).

(** [x+], [x?], [x{2,}], a literal, a class given by its members *)
Definition one_or_more (a : re) : re := Seq a (Star a).
Definition optional (a : re) : re := Alt Eps a.
Definition two_or_more (a : re) : re := Seq a (Seq a (Star a)).
Definition one_of (members : list N) : re :=
  Class (fun c => existsb (N.eqb c) members).
Definition chr (c : N) : re := Class (N.eqb c).
Fixpoint lit (s : list N) : re :=
  match s with
  | [] => Eps
  | c :: s' => Seq (chr c) (lit s')
  end.
Fixpoint seqs (rs : list re) : re :=
  match rs with
  | [] => Eps
  | [r] => r
  | r :: rs' => Seq r (seqs rs')
  end.

(** [\s], [.], and anything at all *)
Definition ws : re := Class isWhiteSpace.
Definition dot : re := Class (fun c => negb (isLineTerminator c)).
Definition anything : re := Star (Class (fun _ => true)).

(** [$] under the [m] flag, at the end of a pattern: the input ends or a
    line terminator follows. *)
Definition end_of_line : re := Alt Eps (Seq (Class isLineTerminator) anything).

(** every suffix of [s], [s] first *)
Fixpoint suffixes (s : list N) : list (list N) :=
  s :: match s with
       | [] => []
       | _ :: s' => suffixes s'
       end.

(** the suffixes of [s] that start where [^] matches under the [m] flag: at
    the start and after each line terminator *)
Fixpoint after_terminators (s : list N) : list (list N) :=
  match s with
  | [] => []
  | c :: s' =>
    (if isLineTerminator c then [s'] else []) ++ after_terminators s'
  end.

Definition line_starts (s : list N) : list (list N) := s :: after_terminators s.

(** [/^r$/.test(s)] *)
Definition test_whole (r : re) (s : list N) : bool := matches r s.

(** [/^r/.test(s)] *)
Definition test_prefix (r : re) (s : list N) : bool := matches (Seq r anything) s.

(** [/r/.test(s)] *)
Definition test_anywhere (r : re) (s : list N) : bool :=
  existsb (test_prefix r) (suffixes s).

(** [/^r/m.test(s)] *)
Definition test_line_prefix (r : re) (s : list N) : bool :=
  existsb (test_prefix r) (line_starts s).

(** [/^r$/m.test(s)] *)
Definition test_line (r : re) (s : list N) : bool :=
  existsb (matches (Seq r end_of_line)) (line_starts s).

End Regex.
Export Regex.

(** ** Box tables: [isDatabricksFormat], [parseDatabricksFormat],
    [parseSingleAsciiTable] *)

Module BoxTable.

Definition PLUS : char := 43%N.
Definition EQUALS : char := 61%N.
(** the code unit of the box-drawing vertical bar *)
Definition BOX_VERTICAL : char := 9474%N.

Definition isDatabricksFormat (text : jsstring) : bool :=
  let hasBorderLines :=
    test_line_prefix
      (seqs [Star ws; chr PLUS; one_or_more (one_of (js "-+")); chr PLUS]) text in
  let hasDataLines :=
    test_line_prefix (seqs [Star ws; chr PIPE; one_or_more dot; chr PIPE]) text in
  let hasTableHeader :=
    test_line_prefix
      (seqs [one_or_more (chr EQUALS); Star ws; chr LF; Star ws; lit (js "TABLE:")])
      text
    || hasBorderLines in
  let hasUnicodeBorders :=
    test_anywhere (one_of (js "┌┐└┘├┤┬┴┼─│")) text in
  let hasUnicodeDataLines :=
    test_line_prefix
      (seqs [Star ws; chr BOX_VERTICAL; one_or_more dot; chr BOX_VERTICAL])
      text in
  (hasBorderLines && hasDataLines) || hasTableHeader
  || (hasUnicodeBorders && hasUnicodeDataLines).

(** [line.match(/^TABLE:\s*(.+)$/)]: the captured group, when the line
    matches. [\s*] takes all the white space it can and still leave [(.+)] a
    non-empty rest without line terminators. *)
Fixpoint span_ws (s : list N) : list N * list N :=
  match s with
  | c :: r =>
    if isWhiteSpace c then let '(w, rest) := span_ws r in (c :: w, rest)
    else ([], s)
  | [] => ([], [])
  end.

Definition tableNameMatch (line : jsstring) : option (list N) :=
  if is_prefix (js "TABLE:") line then
    let '(w, rest) := span_ws (drop 6 line) in
    match rest with
    | [] =>
      match last w with
      | Some c => if isLineTerminator c then None else Some [c]
      | None => None
      end
    | _ => if existsb isLineTerminator rest then None else Some rest
    end
  else None.

(** [line.replace(/,+$/, '')]: the commas at the end are removed. *)
Fixpoint drop_commas (s : list N) : list N :=
  match s with
  | c :: r => if (c =? COMMA)%N then drop_commas r else s
  | [] => []
  end.

Definition strip_trailing_commas (s : jsstring) : jsstring :=
  rev (drop_commas (rev s)).

(** [/^=+$/], [/^\+[-+]+\+?$/] and the Unicode border pattern on a cleaned
    line *)
Definition isSeparator (cleanLine : jsstring) : bool :=
  test_whole (one_or_more (chr EQUALS)) cleanLine
  || test_whole (seqs [chr PLUS; one_or_more (one_of (js "-+")); optional (chr PLUS)])
                cleanLine
  || test_whole (seqs [one_of (js "┌├└"); one_or_more (one_of (js "─┬┼┴"));
                       optional (one_of (js "┐┤┘"))]) cleanLine.

(** The cells of a data line, when [cleanLine] is one: the leading delimiter
    is removed, a trailing one too, and the rest is split and trimmed. *)
Definition dataCells (cleanLine : jsstring) : option (list (list N)) :=
  let isAsciiDataLine := is_prefix [PIPE] cleanLine in
  let isUnicodeDataLine := is_prefix [BOX_VERTICAL] cleanLine in
  if isAsciiDataLine || isUnicodeDataLine then
    let delimiter := if isUnicodeDataLine then BOX_VERTICAL else PIPE in
    let content := slice_from_1 cleanLine in
    let content := if endsWith delimiter content then slice_to_last content
                   else content in
    Some (map trim (split delimiter content))
  else None.

(** [currentTableName || `Table ${tables.length + 1}`] *)
Definition nameOr (currentTableName : option (list N)) (n : nat) : list N :=
  match currentTableName with
  | Some (c :: s) => c :: s
  | _ => js "Table " ++ string_of_nat n
  end.

(** The variables of [parseDatabricksFormat]'s loop. *)
Record Scan := mkScan {
  tables : list Table;
  currentTableName : option (list N);
  currentRows : list (list (list N));
  inTable : bool;
  headerParsed : bool;
  currentHeaders : list (list N)
}.

(** "save the table in progress, if it has rows and headers" *)
Definition flushTable (s : Scan) : list Table :=
  if (0 <? length (currentRows s))%nat && (0 <? length (currentHeaders s))%nat
  then tables s ++ [mkTable (nameOr (currentTableName s) (length (tables s) + 1))
                            (currentHeaders s) (currentRows s)]
  else tables s.

Definition scanLine (s : Scan) (rawLine : jsstring) : Scan :=
  let line := trim rawLine in
  match tableNameMatch line with
  | Some group =>
    mkScan (flushTable s) (Some (trim group)) [] false false []
  | None =>
    let cleanLine := trim (strip_trailing_commas line) in
    if isSeparator cleanLine then
      mkScan (tables s) (currentTableName s) (currentRows s) true
             (headerParsed s) (currentHeaders s)
    else
      match dataCells cleanLine with
      | Some cells =>
        if negb (headerParsed s) then
          mkScan (tables s) (currentTableName s) (currentRows s) (inTable s)
                 true cells
        else
          mkScan (tables s) (currentTableName s) (currentRows s ++ [cells])
                 (inTable s) (headerParsed s) (currentHeaders s)
      | None => s
      end
  end.

(** The title search of [parseSingleAsciiTable]: the inner loop over the next
    three lines, then the outer loop. *)
Fixpoint titleFollowedByBorder (next : list (list N)) : bool :=
  match next with
  | [] => false
  | l :: rest =>
    let nextLine := trim l in
    if test_prefix (one_of (js "┌+")) nextLine then true
    else if test_prefix (one_of (js "│|")) nextLine then false
    else titleFollowedByBorder rest
  end.

Fixpoint findTitle (lines : list (list N)) : option (list N) :=
  match lines with
  | [] => None
  | l :: rest =>
    let trimmed := trim l in
    if negb (str_eqb trimmed [])
       && negb (test_prefix (one_of (js "┌├└+")) trimmed)
       && negb (test_prefix (one_of (js "│|")) trimmed)
       && negb (test_whole (one_or_more (chr EQUALS)) trimmed)
       && titleFollowedByBorder (take 3 rest)
    then Some trimmed
    else if test_prefix (one_of (js "┌+│|")) trimmed then None
    else findTitle rest
  end.

(** The second loop of [parseSingleAsciiTable], on ([headers], [data],
    [headerParsed]). *)
Definition singleLine (acc : list (list N) * list (list (list N)) * bool)
    (line : jsstring) : list (list N) * list (list (list N)) * bool :=
  let '(headers, data, headerParsed) := acc in
  let trimmed := trim (strip_trailing_commas (trim line)) in
  if test_whole (seqs [chr PLUS; one_or_more (one_of (js "-+")); optional (chr PLUS)]) trimmed
     || test_whole (one_or_more (chr EQUALS)) trimmed
     || test_whole (seqs [one_of (js "┌├└"); one_or_more (one_of (js "─┬┼┴"));
                          optional (one_of (js "┐┤┘"))]) trimmed
  then acc
  else
    match dataCells trimmed with
    | Some cells =>
      if negb headerParsed then (cells, data, true)
      else (headers, data ++ [cells], headerParsed)
    | None => acc
    end.

Definition parseSingleAsciiTable (text : jsstring) : option Table :=
  let lines := split LF text in
  let tableName := findTitle lines in
  let '(headers, data, _) := fold_left singleLine lines ([], [], false) in
  if (0 <? length headers)%nat then
    Some (mkTable (default (js "Table 1") tableName) headers data)
  else None.

Definition parseDatabricksFormat (text : jsstring) : list Table :=
  let lines := split LF text in
  let s := fold_left scanLine lines (mkScan [] None [] false false []) in
  let tables := flushTable s in
  if (length tables =? 0)%nat then
    match parseSingleAsciiTable text with
    | Some singleTable => tables ++ [singleTable]
    | None => tables
    end
  else tables.

End BoxTable.
Export BoxTable.

(** ** Markdown tables: [isMarkdownTable], [parseMarkdownTable] *)

Module Markdown.

Definition COLON : char := 58%N.
Definition DASH : char := 45%N.
Definition STAR : char := 42%N.

(** [:?-{2,}:?] *)
Definition dashes : re :=
  seqs [optional (chr COLON); two_or_more (chr DASH); optional (chr COLON)].

(** The separator row, between [^] and [$]: an optional pipe, a cell of
    dashes, one or more times a pipe and a cell of dashes, an optional pipe;
    white space may surround each cell and end the row. *)
Definition separatorPattern : re :=
  seqs [optional (chr PIPE); Star ws; dashes; Star ws;
        one_or_more (seqs [chr PIPE; Star ws; dashes; Star ws]);
        optional (chr PIPE); Star ws].

(** [text.split('\n').filter(l => l.trim())] *)
Definition nonblank_lines (text : jsstring) : list (list N) :=
  List.filter (fun l => negb (str_eqb (trim l) [])) (split LF text).

Definition isMarkdownTable (text : jsstring) : bool :=
  if negb (test_line separatorPattern text) then false
  else
    let lines := nonblank_lines text in
    let dataLines :=
      List.filter
        (fun l => includes PIPE l
                  && negb (test_whole
                             (one_or_more
                                (Class (fun c => isWhiteSpace c
                                                 || (c =? PIPE)%N || (c =? COLON)%N
                                                 || (c =? STAR)%N || (c =? DASH)%N)))
                             (trim l)))
        lines in
    (1 <=? length dataLines)%nat.

(** The length of the match of [/\n\s*\n/] at the head of [s], if it matches
    there: [\s*] runs to the last line feed of the white space that follows
    the first one. *)
Fixpoint last_line_feed (w : list N) (k : nat) : option nat :=
  match w with
  | [] => None
  | c :: r =>
    match last_line_feed r (S k) with
    | Some j => Some j
    | None => if (c =? LF)%N then Some k else None
    end
  end.

Definition blank_separator (s : list N) : option nat :=
  match s with
  | c :: r =>
    if (c =? LF)%N then
      match last_line_feed (span_ws r).1 0 with
      | Some k => Some (1 + (k + 1))%nat
      | None => None
      end
    else None
  | [] => None
  end.

(** [text.split(/\n\s*\n/)]; each step consumes at least one code unit, so
    [S (length s)] steps are enough. *)
Fixpoint split_blocks (fuel : nat) (s current : list N) : list (list N) :=
  match fuel with
  | O => [current ++ s]
  | S fuel' =>
    match s with
    | [] => [current]
    | c :: r =>
      match blank_separator s with
      | Some k => current :: split_blocks fuel' (drop k s) []
      | None => split_blocks fuel' r (current ++ [c])
      end
    end
  end.

Definition blocks_of (text : jsstring) : list (list N) :=
  split_blocks (S (length text)) text [].

Definition splitRow (line : jsstring) : list (list N) :=
  let s := trim line in
  let s := if startsWith PIPE s then slice_from_1 s else s in
  let s := if endsWith PIPE s then slice_to_last s else s in
  map trim (split PIPE s).

(** [lines.findIndex(p)], [-1] as [None] *)
Fixpoint findIndex {A} (p : A -> bool) (l : list A) (k : nat) : option nat :=
  match l with
  | [] => None
  | x :: r => if p x then Some k else findIndex p r (S k)
  end.

(** The body of [for (const block of blocks)]. *)
Definition parseBlock (tables : list Table) (block : jsstring) : list Table :=
  let lines := nonblank_lines block in
  match findIndex (fun l => test_whole separatorPattern (trim l)) lines 0 with
  | None => tables
  | Some O => tables
  | Some (S above) =>
    let sepIndex := S above in
    let headers := splitRow (default [] (lines !! above)) in
    let data :=
      map splitRow
          (List.filter (includes PIPE) (drop (sepIndex + 1) lines)) in
    if (0 <? length headers)%nat && (0 <? length data)%nat then
      tables ++ [mkTable (js "Table " ++ string_of_nat (length tables + 1))
                         headers data]
    else tables
  end.

Definition parseMarkdownTable (text : jsstring) : list Table :=
  fold_left parseBlock (blocks_of text) [].

End Markdown.
Export Markdown.

(** ** JSON arrays: [isJSONArray], [parseJSONArray] *)

Module Json.

(** What [JSON.parse] returns. The properties of an object are in the order
    of [Object.keys], each key once. *)
#[warnings="-register-all"]
Inductive json :=
| JNull
| JBool (b : bool)
| JNumber (x : float)
| JString (s : list N)
| JArray (items : list json)
| JObject (props : list (list N * json)).

(** The built-in functions that the JSON path calls. [JSON_parse] is [None]
    when [JSON.parse] throws; [inherited h] is the text that [String] or
    [JSON.stringify] gives for [Object.prototype[h]], when that is defined. *)
Record Builtins := mkBuiltins {
  JSON_parse : list N -> option json;
  JSON_stringify : json -> list N;
  String_of_number : float -> list N;
  inherited : list N -> option (list N)
}.

(** [typeof v === 'object' && v !== null && !Array.isArray(v)] *)
Definition isPlainObject (v : json) : bool :=
  match v with
  | JObject _ => true
  | _ => false
  end.

Fixpoint lookup_prop (props : list (list N * json)) (h : list N) : option json :=
  match props with
  | [] => None
  | (k, v) :: rest => if str_eqb k h then Some v else lookup_prop rest h
  end.

Section WithBuiltins.

Variable B : Builtins.

Definition isJSONArray (text : jsstring) : bool :=
  let trimmed := trimStart text in
  if negb (is_prefix (js "[") trimmed) then false
  else
    match JSON_parse B trimmed with
    | Some (JArray (first :: _)) => isPlainObject first
    | _ => false
    end.

(** The cell for header [h] of the object with properties [props]. *)
Definition cellOf (props : list (list N * json)) (h : list N) : list N :=
  match lookup_prop props h with
  | Some JNull => []
  | Some (JArray items) => JSON_stringify B (JArray items)
  | Some (JObject ps) => JSON_stringify B (JObject ps)
  | Some (JString s) => s
  | Some (JBool b) => if b then js "true" else js "false"
  | Some (JNumber x) => String_of_number B x
  | None => default [] (inherited B h)
  end.

Definition parseJSONArray (text : jsstring) : option Table :=
  match JSON_parse B (trimStart text) with
  | Some (JArray arr) =>
    let keySet :=
      fold_left
        (fun acc obj =>
           match obj with
           | JObject props => fold_left collect (map fst props) acc
           | _ => acc
           end)
        arr (∅, []) in
    let headers := keySet.2 in
    let data :=
      flat_map (fun obj =>
                  match obj with
                  | JObject props => [map (cellOf props) headers]
                  | _ => []
                  end) arr in
    Some (mkTable (js "JSON Data") headers data)
  | _ => None
  end.

End WithBuiltins.

End Json.
Export Json.

(** ** Fixed-width tables: [isFixedWidthTable], [parseFixedWidthTable] *)

Module FixedWidth.

(** [Math.max(...lines.map(l => l.length))], for at least one line *)
Definition maxLength (lines : list (list N)) : nat :=
  fold_left Nat.max (map length lines) 0%nat.

(** [/^[\s\-=]+$/] *)
Definition underlineChars : re :=
  one_or_more (Class (fun c => isWhiteSpace c || (c =? DASH)%N || (c =? EQUALS)%N)).

(** The two nested loops that fill [spaceCount]; [missing] is what stands for
    a code unit beyond the end of the line. *)
Definition countSpaces (maxLen : nat) (missing : option N)
    (contentLines : list (list N)) : list nat :=
  fold_left
    (fun spaceCount line =>
       fold_left
         (fun spaceCount i =>
            let ch := match line !! i with Some c => Some c | None => missing end in
            if bool_decide (ch = Some SPACE)
            then <[i := S (default 0%nat (spaceCount !! i))]> spaceCount
            else spaceCount)
         (seq 0 maxLen) spaceCount)
    contentLines (replicate maxLen 0%nat).

(** [contentLines.length * 0.8] *)
Definition thresholdOf (contentLines : list (list N)) : float :=
  (number (length contentLines) * 0x1.999999999999ap-1)%float.

Definition isFixedWidthTable (text : jsstring) : bool :=
  let lines := nonblank_lines text in
  if (length lines <? 3)%nat then false
  else
    let maxLen := maxLength lines in
    if (maxLen <? 5)%nat then false
    else
      let contentLines :=
        List.filter (fun l => negb (test_whole underlineChars l)) lines in
      if (length contentLines <? 2)%nat then false
      else
        let spaceCount := countSpaces maxLen (Some SPACE) contentLines in
        let threshold := thresholdOf contentLines in
        let '(boundaries, _, _) :=
          fold_left
            (fun '(boundaries, inGap, gapWidth) count =>
               if (threshold <=? number count)%float then
                 let gapWidth := S gapWidth in
                 if (2 <=? gapWidth)%nat && negb inGap
                 then (S boundaries, true, gapWidth)
                 else (boundaries, inGap, gapWidth)
               else (boundaries, false, 0%nat))
            spaceCount (0%nat, false, 0%nat) in
        (1 <=? boundaries)%nat.

(** [l.padEnd(maxLen)] *)
Definition padEnd (maxLen : nat) (l : jsstring) : jsstring :=
  l ++ replicate (maxLen - length l) SPACE.

(** [isUnderline] *)
Definition isUnderline (l : jsstring) : bool :=
  test_whole underlineChars l
  && test_anywhere
       (two_or_more (Class (fun c => (c =? DASH)%N || (c =? EQUALS)%N))) l.

(** The loop that finds the cuts, on ([cuts], [inGap], [gapStart]). *)
Definition findCuts (threshold : float) (spaceCount : list nat) : list nat :=
  (fold_left
     (fun '(cuts, inGap, gapStart) ic =>
        let '(i, count) := ic in
        if (threshold <=? number count)%float then
          if negb inGap then (cuts, true, i) else (cuts, inGap, gapStart)
        else
          if inGap then
            let gapWidth := (i - gapStart)%nat in
            if (2 <=? gapWidth)%nat
            then (cuts ++ [((gapStart + i) / 2)%nat], false, gapStart)
            else (cuts, false, gapStart)
          else (cuts, inGap, gapStart))
     (zip (seq 0 (length spaceCount)) spaceCount)
     ([], false, 0%nat)).1.1.

(** [sliceLine] *)
Definition sliceLine (cuts : list nat) (line : jsstring) : list (list N) :=
  let '(cells, prev) :=
    fold_left
      (fun '(cells, prev) cut =>
         (cells ++ [trim (take (cut - prev) (drop prev line))], cut))
      cuts ([], 0%nat) in
  cells ++ [trim (drop prev line)].

Definition parseFixedWidthTable (text : jsstring) : option Table :=
  let lines := nonblank_lines text in
  if (length lines <? 2)%nat then None
  else
    let maxLen := maxLength lines in
    let padded := map (padEnd maxLen) lines in
    let contentLines := List.filter (fun l => negb (isUnderline l)) padded in
    if (length contentLines <? 2)%nat then None
    else
      let spaceCount := countSpaces maxLen None contentLines in
      let threshold := thresholdOf contentLines in
      let cuts := findCuts threshold spaceCount in
      if (length cuts =? 0)%nat then None
      else
        let headers := sliceLine cuts (default [] (head contentLines)) in
        let data :=
          List.filter some_nonempty
                      (map (sliceLine cuts) (drop 1 contentLines)) in
        if (length data =? 0)%nat then None
        else Some (mkTable (js "Table 1") headers data).

End FixedWidth.
Export FixedWidth.

(** ** The format classifier: [formatFromText] and what it calls *)

Module Pipeline.

(** What the methods read from the page. [tableSelector] and
    [tableSelectorContainer] say whether the element exists. *)
Record Page := mkPage {
  pasteInput_value : list N;
  delimiterSelect_value : list N;
  firstRowHeader_checked : bool;
  tableSelector : bool;
  tableSelectorContainer : bool
}.

(** [this.tables = tables] *)
Definition setTables (this : State) (tables : list Table) : State :=
  mkState (st_data this) (st_headers this) (st_sortColumn this)
          (st_sortDirection this) (st_filteredData this) tables
          (st_currentTableIndex this).

(** [tables.reduce((sum, t) => sum + t.data.length, 0)] *)
Definition totalRows (tables : list Table) : nat :=
  fold_left (fun sum t => (sum + length (data t))%nat) tables 0%nat.

Definition switchToTable (this : State) (index : Z) : State * list Effect :=
  if (index =? -1)%Z then
    let allHeaders := js "Table" :: getCommonHeaders this in
    let allData :=
      flat_map
        (fun table =>
           map (fun row => name table :: padRowToHeaders this row (headers table))
               (data table))
        (st_tables this) in
    (mkState allData allHeaders (-1) (st_sortDirection this) allData
             (st_tables this) (-1),
     [RenderTable])
  else if (0 <=? index)%Z && (index <? Z.of_nat (length (st_tables this)))%Z then
    match st_tables this !! Z.to_nat index with
    | Some table =>
      (mkState (data table) (headers table) (-1) (st_sortDirection this)
               (data table) (st_tables this) index,
       [RenderTable])
    | None => (this, [])
    end
  else (this, []).

(** The [option] elements that [updateTableSelector] writes. *)
Definition optionElement (value label : list N) (rows : nat) : list N :=
  js "<option value=" ++ [QUOTE] ++ value ++ [QUOTE] ++ js ">" ++ label
  ++ js " (" ++ string_of_nat rows ++ js " rows)</option>".

Definition updateTableSelector (page : Page) (this : State) : list Effect :=
  if negb (tableSelector page) || negb (tableSelectorContainer page) then []
  else if (1 <? length (st_tables this))%nat then
    let options :=
      optionElement (js "-1") (js "All Tables") (totalRows (st_tables this))
      :: map (fun it => optionElement (string_of_nat it.1) (name it.2)
                                      (length (data it.2)))
             (zip (seq 0 (length (st_tables this))) (st_tables this)) in
    [ShowTableSelector (concat options)]
  else [HideTableSelector].

(** [while (row.length < maxCols) row.push('')] *)
Definition padRow (maxCols : nat) (row : list (list N)) : list (list N) :=
  row ++ replicate (maxCols - length row) [].

Definition processData (page : Page) (this : State) (rows : list (list (list N)))
  : State * list Effect :=
  if (length rows =? 0)%nat then (this, [ShowToast (js "No data found")])
  else
    let maxCols := fold_left Nat.max (map length rows) 0%nat in
    let rows := map (padRow maxCols) rows in
    let '(newHeaders, newData) :=
      if firstRowHeader_checked page && (0 <? length rows)%nat
      then (default [] (head rows), drop 1 rows)
      else (map (fun i => js "Column " ++ string_of_nat (i + 1))
                (seq 0 (length (default [] (head rows)))),
            rows) in
    (mkState newData newHeaders (-1) (st_sortDirection this) newData
             (st_tables this) (st_currentTableIndex this),
     [RenderTable;
      ShowToast (js "Loaded " ++ string_of_nat (length newData) ++ js " rows")]).

(** What the box and Markdown branches do with a non-empty table list;
    [kind] is the word of the toast. *)
Definition loadTables (page : Page) (this : State) (tables : list Table)
    (kind : list N) : State * list Effect :=
  let this1 := setTables this tables in
  let selector := updateTableSelector page this1 in
  let defaultView := if (1 <? length tables)%nat then (-1)%Z else 0%Z in
  let '(this2, rendered) := switchToTable this1 defaultView in
  (this2,
   selector ++ rendered
   ++ (if tableSelector page
       then [SetTableSelectorValue
               (if (1 <? length tables)%nat then js "-1" else js "0")]
       else [])
   ++ [ShowToast (js "Loaded " ++ string_of_nat (length tables) ++ kind
                  ++ string_of_nat (totalRows tables) ++ js " total rows")]).

(** What the JSON and fixed-width branches do with their table. *)
Definition loadTable (page : Page) (this : State) (table : Table)
    (message : list N) : State * list Effect :=
  let this1 := setTables this [table] in
  let selector := updateTableSelector page this1 in
  let '(this2, rendered) := switchToTable this1 0 in
  (this2,
   selector ++ rendered
   ++ [ShowToast (message ++ string_of_nat (length (data table)) ++ js " rows")]).

(** The delimiter of the fallback: the selected one, or the detected one. *)
Definition chosenDelimiter (page : Page) (text : jsstring) : jsstring :=
  let delimiter := delimiterSelect_value page in
  if str_eqb delimiter (js "auto") then detectDelimiter text
  else if str_eqb delimiter (js "\t") then [TAB]
  else delimiter.

(** A block [if (...) { ...; return; }] of [formatFromText] either returns
    ([Some]) or falls through to what follows it ([None]). *)
Definition orElse {A} (block : option A) (rest : A) : A :=
  match block with
  | Some returned => returned
  | None => rest
  end.

Definition boxBlock (page : Page) (this : State) (text : jsstring)
  : option (State * list Effect) :=
  if isDatabricksFormat text then
    let tables := parseDatabricksFormat text in
    if (0 <? length tables)%nat
    then Some (loadTables page this tables (js " table(s), "))
    else None
  else None.

Definition markdownBlock (page : Page) (this : State) (text : jsstring)
  : option (State * list Effect) :=
  if isMarkdownTable text then
    let tables := parseMarkdownTable text in
    if (0 <? length tables)%nat
    then Some (loadTables page this tables (js " Markdown table(s), "))
    else None
  else None.

Definition fixedWidthBlock (page : Page) (this : State) (text : jsstring)
  : option (State * list Effect) :=
  if isFixedWidthTable text then
    match parseFixedWidthTable text with
    | Some table =>
      Some (loadTable page this table (js "Loaded fixed-width table: "))
    | None => None
    end
  else None.

(** "Fall back to CSV parsing" *)
Definition fallback (page : Page) (this : State) (text : jsstring)
  : State * list Effect :=
  let delimiter := chosenDelimiter page text in
  let rows := parseCSV text delimiter in
  let this1 := setTables this [] in
  let selector := updateTableSelector page this1 in
  let '(this2, shown) := processData page this1 rows in
  (this2, selector ++ shown).

Section WithBuiltins.

Variable B : Builtins.

Definition jsonBlock (page : Page) (this : State) (text : jsstring)
  : option (State * list Effect) :=
  if isJSONArray B text then
    match parseJSONArray B text with
    | Some table => Some (loadTable page this table (js "Loaded JSON data: "))
    | None => None
    end
  else None.

Definition formatFromText (page : Page) (this : State) : State * list Effect :=
  let text := trim (pasteInput_value page) in
  if str_eqb text [] then
    (this, [ShowToast (js "Please enter some data first")])
  else
    orElse (boxBlock page this text)
    (orElse (markdownBlock page this text)
    (orElse (jsonBlock page this text)
    (orElse (fixedWidthBlock page this text)
    (fallback page this text)))).

End WithBuiltins.

(** [processFile(file)]: the label is written first; [fileName] is
    [file.name] and [text] what [readAsText] hands to the [onload] handler,
    which does the rest on the state [this] it finds. *)
Definition processFile (page : Page) (this : State) (fileName text : jsstring)
  : State * list Effect :=
  let label := [SetFileNameDisplay (js "Selected: " ++ fileName)] in
  let delimiter := detectDelimiter text in
  let rows := parseCSV text delimiter in
  let '(this1, shown) := processData page this rows in
  (this1, label ++ shown).

(** A detector matches and its parser gives at least one table: the
    condition under which a block of [formatFromText] returns. *)
Definition boxOwns (text : jsstring) : bool :=
  isDatabricksFormat text && (0 <? length (parseDatabricksFormat text))%nat.

Definition markdownOwns (text : jsstring) : bool :=
  isMarkdownTable text && (0 <? length (parseMarkdownTable text))%nat.

Definition fixedWidthOwns (text : jsstring) : bool :=
  isFixedWidthTable text
  && match parseFixedWidthTable text with Some _ => true | None => false end.

(** The Canonical Document State of the specification: headers, data,
    filteredData, sort column and direction. *)
Definition canonical (this : State)
  : list (list N) * list (list (list N)) * list (list (list N)) * Z * Direction :=
  (st_headers this, st_data this, st_filteredData this, st_sortColumn this,
   st_sortDirection this).

End Pipeline.
Export Pipeline.

(** ** Sample documents and pages *)

Module Samples.

Definition round_trip_sample : State :=
  mkState [] [js "name"; js " a,b "] (-1) asc
    [[js "x"; [QUOTE] ++ js "y" ++ [QUOTE]]; [js ""; js " "]; [js "1"; LF :: js "2"]]
    [] 0.

Definition two_tables : State :=
  mkState [] [] (-1) asc []
    [mkTable (js "x") [js "a"; js "b"] [[js "1"; js "2"]];
     mkTable (js "y") [js "b"; js "c"; js "a"] [[js "3"; js "4"; js "5"]]] 0.

Definition duplicate_headers : State :=
  mkState [] [] (-1) asc []
    [mkTable (js "t") [js "a"; js "a"] [[js "1"; js "2"]]] 0.

Definition column_of (cells : list (list N)) : State :=
  mkState (map (fun c => [c]) cells) [js "n"] (-1) asc
          (map (fun c => [c]) cells) [] 0.

Definition auto_page (text : list N) : Page :=
  mkPage text (js "auto") true true true.

Definition markdown_sample : list N :=
  js "| a | b |" ++ [LF] ++ js "|---|---|" ++ [LF] ++ js "| 1 | 2 |".

Definition border_then_markdown : list N :=
  js "+--+" ++ [LF] ++ js "a|b" ++ [LF] ++ js "--|--" ++ [LF] ++ js "1|2".

(** The document once [two_tables] is shown in the "All Tables" view. *)
Definition two_tables_loaded : State := (switchToTable two_tables (-1)).1.

End Samples.
Export Samples.

(** ** Filtering: [filterTable] *)

Module Filtering.

(** [hay.includes(needle)] for strings *)
Definition str_includes (needle hay : jsstring) : bool :=
  existsb (is_prefix needle) (suffixes hay).

Section LowerCase.

Variable toLowerCase : list N -> list N.

(** [row.some(cell => cell.toLowerCase().includes(searchTerm))] *)
Definition rowMatches (searchTerm : jsstring) (row : list (list N)) : bool :=
  existsb (fun cell => str_includes searchTerm (toLowerCase cell)) row.

(** [searchInput_value] is [this.searchInput.value]. *)
Definition filterTable (searchInput_value : jsstring) (this : State)
  : State * list Effect :=
  let searchTerm := toLowerCase searchInput_value in
  let filtered :=
    if str_eqb searchTerm [] then st_data this
    else List.filter (rowMatches searchTerm) (st_data this) in
  (mkState (st_data this) (st_headers this) (st_sortColumn this)
           (st_sortDirection this) filtered (st_tables this)
           (st_currentTableIndex this),
   [RenderTable]).

End LowerCase.

End Filtering.
Export Filtering.

(** ** Invariants of the parsing loop *)

Module CsvInvariant.

Definition trimmed_cells (r : list (list N)) : Prop :=
  Forall (fun c => trim c = c) r.

Definition clean_row (r : list (list N)) : Prop :=
  some_nonempty r = true /\ trimmed_cells r.

(** every kept row is clean and the cells of the pending row are trimmed *)
Definition clean (m : Machine.Config) : Prop :=
  Forall clean_row (Machine.kept m) /\ trimmed_cells (Machine.row m).

(** nothing but white space has been read: no row is kept, the pending
    row holds empty cells and the pending cell white space *)
Definition blank (m : Machine.Config) : Prop :=
  Machine.mode m = Machine.unquoted
  /\ forallb isWhiteSpace (Machine.cell m) = true
  /\ some_nonempty (Machine.row m) = false
  /\ Machine.kept m = [].

(** no delimiter has been met: the pending row is empty and every kept row
    has one cell *)
Definition single_cells (m : Machine.Config) : Prop :=
  Machine.row m = [] /\ Forall (fun r => length r = 1%nat) (Machine.kept m).

End CsvInvariant.
Export CsvInvariant.

(** ** Invariants of the table parsers *)

Module TableInvariant.

(** a table with a name, at least one header, and trimmed cells *)
Definition well_formed (t : Table) : Prop :=
  name t <> [] /\ headers t <> []
  /\ trimmed_cells (headers t) /\ Forall trimmed_cells (data t).

(** what the loop of [parseDatabricksFormat] keeps *)
Definition scan_ok (s : Scan) : Prop :=
  Forall well_formed (tables s)
  /\ Forall (fun t => data t <> []) (tables s)
  /\ trimmed_cells (currentHeaders s)
  /\ Forall trimmed_cells (currentRows s).

(** the loop of [parseDatabricksFormat] and the second loop of
    [parseSingleAsciiTable] side by side, before any [TABLE:] line *)
Definition same_progress (s : Scan)
    (acc : list (list N) * list (list (list N)) * bool) : Prop :=
  tables s = [] /\ currentTableName s = None
  /\ acc = (currentHeaders s, currentRows s, headerParsed s).

(** [Object.keys(obj)] for a plain object, nothing for another value *)
Definition keysOf (obj : json) : list (list N) :=
  match obj with
  | JObject props => map fst props
  | _ => []
  end.

End TableInvariant.
Export TableInvariant.

(** * Properties *)

(** ** [parseCSV] refines the machine *)

Example parseCSV_scenario :
  parseCSV (js "a,b" ++ [LF] ++ js "1,2" ++ [LF] ++ js "3,4") (js ",")
  = [[js "a"; js "b"]; [js "1"; js "2"]; [js "3"; js "4"]].
Proof. vm_compute. reflexivity. Qed.


Section Refinement.

Import Machine.

Variables text delimiter : jsstring.

Lemma drop_lookup_cons (k : nat) (c : char) :
  text !! k = Some c -> drop k text = c :: drop (S k) text.
Proof. intros H. by apply drop_S. Qed.

Lemma drop_lookup_nil (k : nat) :
  text !! k = None -> drop k text = [].
Proof. intros H. apply drop_ge. by apply lookup_ge_None. Qed.

Lemma N_eqb_decide (a b : N) : (a =? b)%N = bool_decide (a = b).
Proof.
  destruct (N.eqb_spec a b) as [->|Hne].
  - by rewrite bool_decide_eq_true_2.
  - by rewrite bool_decide_eq_false_2.
Qed.

(** One iteration of the loop is one or two steps of the machine. *)
Lemma body_run (s : Loop) :
  (i s < length text)%nat ->
  run delimiter (drop (i s) text) (config_of s)
  = run delimiter (drop (i (body text delimiter s)) text)
        (config_of (body text delimiter s))
  /\ (i s < i (body text delimiter s) <= length text)%nat.
Proof.
  intros Hi. unfold body.
  destruct (text !! i s) as [c|] eqn:Hc;
    [|apply lookup_ge_None in Hc; lia].
  rewrite (drop_lookup_cons _ _ Hc).
  destruct s as [rs cr cc q k]; simpl in *.
  rewrite !Nat.add_1_r.
  destruct q; simpl.
  - destruct (c =? QUOTE)%N eqn:E1; simpl; [|split; [reflexivity | lia]].
    destruct (text !! S k) as [c'|] eqn:Hc'.
    + pose proof (lookup_lt_Some _ _ _ Hc') as Hlt.
      rewrite (drop_lookup_cons _ _ Hc'), N_eqb_decide.
      destruct (decide (c' = QUOTE)) as [->|Hne].
      * rewrite !bool_decide_eq_true_2 by done. simpl.
        rewrite ?Nat.add_1_r. split; [reflexivity | lia].
      * rewrite bool_decide_eq_false_2 by done.
        rewrite bool_decide_eq_false_2 by congruence. simpl.
        rewrite (drop_lookup_cons _ _ Hc'). split; [reflexivity | lia].
    + rewrite (drop_lookup_nil _ Hc'). simpl.
      rewrite (drop_lookup_nil _ Hc'). split; [reflexivity | lia].
  - destruct (c =? QUOTE)%N eqn:E1; simpl; [split; [reflexivity | lia]|].
    destruct (is_delimiter c delimiter) eqn:E2; simpl;
      [split; [reflexivity | lia]|].
    destruct (c =? LF)%N eqn:E3; simpl.
    { assert ((c =? CR)%N = false) as ->.
      { apply N.eqb_eq in E3. subst c. reflexivity. }
      split; [reflexivity | lia]. }
    destruct (c =? CR)%N eqn:E4; simpl; [|split; [reflexivity | lia]].
    destruct (text !! S k) as [c'|] eqn:Hc'.
    + pose proof (lookup_lt_Some _ _ _ Hc') as Hlt.
      rewrite (drop_lookup_cons _ _ Hc'), N_eqb_decide.
      destruct (decide (c' = LF)) as [->|Hne].
      * rewrite !bool_decide_eq_true_2 by done. simpl.
        rewrite ?Nat.add_1_r. split; [reflexivity | lia].
      * rewrite bool_decide_eq_false_2 by done.
        rewrite bool_decide_eq_false_2 by congruence. simpl.
        rewrite (drop_lookup_cons _ _ Hc'). split; [reflexivity | lia].
    + rewrite (drop_lookup_nil _ Hc'). simpl.
      rewrite (drop_lookup_nil _ Hc'). split; [reflexivity | lia].
Qed.

Lemma loop_run (fuel : nat) : forall s : Loop,
  (i s <= length text)%nat ->
  (length text - i s <= fuel)%nat ->
  config_of (loop fuel text delimiter s)
  = run delimiter (drop (i s) text) (config_of s).
Proof.
  induction fuel as [|fuel IH]; intros s Hle Hfuel; simpl.
  - rewrite drop_ge by lia. reflexivity.
  - destruct (Nat.ltb_spec (i s) (length text)) as [Hlt|Hge].
    + destruct (body_run s Hlt) as [Hrun Hi].
      rewrite IH by lia. symmetry. exact Hrun.
    + rewrite drop_ge by lia. reflexivity.
Qed.

Lemma flush_guard (m : Config) :
  cell m = [] -> row m = [] -> kept (end_row m) = kept m.
Proof. intros Hc Hr. unfold end_row, keep. rewrite Hc, Hr. reflexivity. Qed.

Lemma parseCSV_machine : parseCSV text delimiter = parse delimiter text.
Proof.
  unfold parseCSV, parse.
  pose proof (loop_run (length text) (mkLoop [] [] [] false 0)) as H.
  cbn [i] in H. rewrite drop_0 in H. specialize (H ltac:(lia) ltac:(lia)).
  change (config_of (mkLoop [] [] [] false 0)) with start in H.
  rewrite <- H.
  set (s := loop _ _ _ _). unfold str_eqb.
  destruct (decide (currentCell s = [])) as [Hcell|Hcell].
  - rewrite bool_decide_eq_true_2 by done.
    destruct (currentRow s) as [|r rr] eqn:Hrow.
    + rewrite flush_guard by done. reflexivity.
    + unfold end_row, keep, config_of. simpl. rewrite Hrow. reflexivity.
  - rewrite bool_decide_eq_false_2 by done. reflexivity.
Qed.

End Refinement.

(** C6. For every text and delimiter, [parseCSV] computes what the two-state
    machine of the specification computes: a quote while unquoted enters
    quoted; a quote while quoted followed by another emits one quote and stays
    quoted; a lone quote while quoted returns to unquoted; the delimiter while
    unquoted ends the cell, trimmed; [\n] or [\r\n] while unquoted ends the
    row, kept only if a cell is non-empty; a lone [\r] is dropped; the end of
    the input flushes the pending row under the same rule. *)
Theorem parseCSV_is_two_state_machine (text delimiter : list N) :
  parseCSV text delimiter = Machine.parse delimiter text.
Proof. apply parseCSV_machine. Qed.

(** ** Round trip: [dataToCSV] then [parseCSV] *)

Section RoundTrip.

Import Machine.


Lemma includes_cons_false (x c : N) (s : list N) :
  includes x (c :: s) = false -> c <> x /\ includes x s = false.
Proof.
  unfold includes. simpl. intros H. apply orb_false_elim in H as [H1 H2].
  split; [|exact H2]. apply N.eqb_neq in H1. congruence.
Qed.

Lemma is_delimiter_comma (c : N) : is_delimiter c [COMMA] = (c =? COMMA)%N.
Proof.
  unfold is_delimiter, str_eqb. rewrite N_eqb_decide.
  apply bool_decide_ext. split; congruence.
Qed.

(** A cell written without quotes is read back code unit by code unit. *)
Lemma run_plain (s rest : list N) : forall m : Config,
  mode m = unquoted ->
  includes COMMA s = false -> includes QUOTE s = false ->
  includes LF s = false -> includes CR s = false ->
  run [COMMA] (s ++ rest) m = run [COMMA] rest (with_cell m s).
Proof.
  induction s as [|c s IH]; intros m Hm Hc Hq Hl Hr.
  - simpl. destruct m as [md ce rw kp]; simpl in *. subst md.
    unfold with_cell. simpl. by rewrite app_nil_r.
  - apply includes_cons_false in Hc as [Hc1 Hc2].
    apply includes_cons_false in Hq as [Hq1 Hq2].
    apply includes_cons_false in Hl as [Hl1 Hl2].
    apply includes_cons_false in Hr as [Hr1 Hr2].
    simpl. rewrite Hm, is_delimiter_comma.
    apply N.eqb_neq in Hc1, Hq1, Hl1, Hr1. rewrite Hc1, Hq1, Hl1, Hr1.
    rewrite IH by done. f_equal.
    unfold with_cell, emit. simpl. by rewrite <- app_assoc.
Qed.

(** Inside quotes, a doubled quote is read back as one quote and the closing
    quote returns to unquoted, when no quote follows it. *)
Lemma run_quoted (s rest : list N) : forall m : Config,
  mode m = quoted ->
  head rest <> Some QUOTE ->
  run [COMMA] (double_quotes s ++ QUOTE :: rest) m
  = run [COMMA] rest (with_cell m s).
Proof.
  induction s as [|c s IH]; intros m Hm Hrest.
  - simpl. rewrite Hm. change (QUOTE =? QUOTE)%N with true. cbv iota.
    assert (exit_quoted m = with_cell m []) as ->.
    { unfold exit_quoted, with_cell. by rewrite app_nil_r. }
    destruct rest as [|c' rest']; [reflexivity|].
    destruct (N.eqb_spec c' QUOTE) as [->|Hne]; [by destruct Hrest|].
    reflexivity.
  - unfold double_quotes. simpl flat_map. fold (double_quotes s).
    destruct (N.eqb_spec c QUOTE) as [->|Hne].
    + simpl. rewrite Hm. rewrite IH by done. f_equal.
      unfold with_cell, emit. simpl. by rewrite <- app_assoc.
    + simpl. rewrite Hm. apply N.eqb_neq in Hne. rewrite Hne.
      rewrite IH by done. f_equal.
      unfold with_cell, emit. simpl. by rewrite <- app_assoc.
Qed.

Lemma run_escape (s rest : list N) (m : Config) :
  mode m = unquoted ->
  head rest <> Some QUOTE ->
  cr_free_unless_quoted s = true ->
  run [COMMA] (escape s ++ rest) m = run [COMMA] rest (with_cell m s).
Proof.
  intros Hm Hrest Hcr. unfold escape, cr_free_unless_quoted in *.
  destruct (needs_quotes s) eqn:Hq.
  - simpl. rewrite Hm. change (QUOTE =? QUOTE)%N with true. cbv iota.
    rewrite <- app_assoc. simpl.
    rewrite run_quoted by done. reflexivity.
  - simpl in Hcr. apply negb_true_iff in Hcr.
    unfold needs_quotes in Hq.
    apply orb_false_elim in Hq as [Hq Hl].
    apply orb_false_elim in Hq as [Hc Hq].
    by apply run_plain.
Qed.

Lemma run_comma (rest : list N) (m : Config) :
  mode m = unquoted ->
  run [COMMA] ([COMMA] ++ rest) m = run [COMMA] rest (end_cell m).
Proof. intros Hm. simpl. by rewrite Hm. Qed.

Lemma run_newline (rest : list N) (m : Config) :
  mode m = unquoted ->
  run [COMMA] ([LF] ++ rest) m = run [COMMA] rest (end_row m).
Proof. intros Hm. simpl. by rewrite Hm. Qed.

(** The cells of a non-empty row, joined by commas: all but the last are
    pushed, trimmed, on the pending row; the last is the pending cell. *)
Lemma run_cells (cs : list (list N)) : forall (c : list N) (rest : list N) (m : Config),
  mode m = unquoted -> cell m = [] ->
  head rest <> Some QUOTE ->
  forallb cr_free_unless_quoted (c :: cs) = true ->
  exists m' : Config,
    run [COMMA] (join [COMMA] (map escape (c :: cs)) ++ rest) m
    = run [COMMA] rest m'
    /\ mode m' = unquoted /\ kept m' = kept m
    /\ row m' ++ [trim (cell m')] = row m ++ map trim (c :: cs).
Proof.
  induction cs as [|c2 cs IH]; intros c rest m Hm Hcell Hrest Hok.
  - exists (with_cell m c). simpl in Hok. apply andb_true_iff in Hok as [Hc _].
    simpl. rewrite run_escape by done.
    unfold with_cell. simpl. rewrite Hcell. done.
  - simpl in Hok. apply andb_true_iff in Hok as [Hc Hcs].
    change (join [COMMA] (map escape (c :: c2 :: cs)))
      with (escape c ++ [COMMA] ++ join [COMMA] (map escape (c2 :: cs))).
    rewrite <- !app_assoc.
    rewrite run_escape by done.
    rewrite run_comma by done.
    destruct (IH c2 rest (end_cell (with_cell m c))) as (m' & Hrun & Hm' & Hk & Hrow);
      try done.
    exists m'. split; [exact Hrun|]. split; [exact Hm'|]. split; [exact Hk|].
    rewrite Hrow. simpl. rewrite Hcell. simpl. by rewrite <- app_assoc.
Qed.

(** One line of the output: whatever follows it, the row that the end of the
    line will push is kept or dropped as the trimmed original row is. *)
Lemma run_line (r : list (list N)) (rest : list N) (m : Config) :
  mode m = unquoted -> cell m = [] -> row m = [] ->
  head rest <> Some QUOTE ->
  forallb cr_free_unless_quoted r = true ->
  exists m' : Config,
    run [COMMA] (join [COMMA] (map escape r) ++ rest) m = run [COMMA] rest m'
    /\ mode m' = unquoted
    /\ kept (end_row m') = keep (map trim r) (kept m).
Proof.
  intros Hm Hcell Hrow Hrest Hok. destruct r as [|c cs].
  - exists m. simpl. split; [done|]. split; [done|].
    unfold end_row. simpl. by rewrite Hcell, Hrow.
  - destruct (run_cells cs c rest m) as (m' & Hrun & Hm' & Hk & Hr); try done.
    exists m'. split; [exact Hrun|]. split; [exact Hm'|].
    unfold end_row. simpl kept. rewrite Hr, Hk, Hrow. reflexivity.
Qed.

Lemma keep_filter (r : list (list N)) (rs : list (list (list N))) (K : list (list (list N))) :
  keep r K ++ List.filter some_nonempty rs = K ++ List.filter some_nonempty (r :: rs).
Proof.
  unfold keep. simpl. destruct (some_nonempty r); [|done].
  by rewrite <- app_assoc.
Qed.

(** The lines of the output, joined by [\n]. *)
Lemma run_lines (rs : list (list (list N))) : forall (r : list (list N)) (m : Config),
  mode m = unquoted -> cell m = [] -> row m = [] ->
  forallb (forallb cr_free_unless_quoted) (r :: rs) = true ->
  kept (end_row (run [COMMA]
    (join [LF] (map (fun row => join [COMMA] (map escape row)) (r :: rs))) m))
  = kept m ++ List.filter some_nonempty (map (map trim) (r :: rs)).
Proof.
  induction rs as [|r2 rs IH]; intros r m Hm Hcell Hrow Hok;
    simpl in Hok; apply andb_true_iff in Hok as [Hr Hrs].
  - destruct (run_line r [] m) as (m' & Hrun & Hm' & Hk); try done.
    simpl join. rewrite app_nil_r in Hrun. rewrite Hrun. simpl run.
    rewrite Hk. rewrite <- (app_nil_r (keep _ _)).
    change [] with (List.filter some_nonempty (@nil (list (list N)))) at 1.
    apply keep_filter.
  - set (line := fun row => join [COMMA] (map escape row)) in *.
    change (join [LF] (map line (r :: r2 :: rs)))
      with (line r ++ [LF] ++ join [LF] (map line (r2 :: rs))).
    destruct (run_line r ([LF] ++ join [LF] (map line (r2 :: rs))) m)
      as (m' & Hrun & Hm' & Hk); try done.
    unfold line at 1. rewrite Hrun.
    rewrite run_newline by done.
    rewrite IH; try done. rewrite Hk.
    change (map (map trim) (r :: r2 :: rs))
      with (map trim r :: map (map trim) (r2 :: rs)).
    apply keep_filter.
Qed.

End RoundTrip.

(** C1 (amended). For every headers list and list of rows in which no cell
    written without quotes contains a carriage return, [dataToCSV] followed by
    [parseCSV] with a comma gives back, in order, the headers row and the data
    rows with every cell trimmed, except that a row whose trimmed cells are all
    empty is dropped. *)
Theorem csv_round_trip (this : State) :
  forallb (forallb cr_free_unless_quoted)
          (st_headers this :: st_filteredData this) = true ->
  parseCSV (dataToCSV this) (js ",")
  = List.filter some_nonempty
      (map (map trim) (st_headers this :: st_filteredData this)).
Proof.
  intros Hok. rewrite parseCSV_machine. unfold Machine.parse, dataToCSV.
  change (js ",") with [COMMA].
  change (join [COMMA] (map escape (st_headers this))
          :: map (fun row => join [COMMA] (map escape row)) (st_filteredData this))
    with (map (fun row => join [COMMA] (map escape row))
              (st_headers this :: st_filteredData this)).
  by rewrite run_lines.
Qed.


Lemma csv_round_trip_witness :
  parseCSV (dataToCSV round_trip_sample) (js ",")
  = [[js "name"; js "a,b"]; [js "x"; [QUOTE] ++ js "y" ++ [QUOTE]]; [js "1"; js "2"]].
Proof. apply (csv_round_trip round_trip_sample). reflexivity. Defined.

(** C1 as stated fails: a data row whose only cell is empty is written as an
    empty line, and [parseCSV] keeps no row for it. *)
Lemma csv_round_trip_loses_empty_row :
  let this := mkState [] [js "a"] (-1) asc [[js ""]] [] 0 in
  parseCSV (dataToCSV this) (js ",") = [[js "a"]]
  /\ parseCSV (dataToCSV this) (js ",")
     <> map (map trim) (st_headers this :: st_filteredData this).
Proof. split; [vm_compute; reflexivity | vm_compute; discriminate]. Qed.

(** ** The reconciler *)

Example getCommonHeaders_union :
  getCommonHeaders
    (mkState [] [] (-1) asc []
       [mkTable (js "x") [js "a"; js "b"] []; mkTable (js "y") [js "b"; js "c"; js "a"] []] 0)
  = [js "a"; js "b"; js "c"].
Proof. vm_compute. reflexivity. Qed.

Example padRowToHeaders_union :
  padRowToHeaders
    (mkState [] [] (-1) asc []
       [mkTable (js "x") [js "a"; js "b"] []; mkTable (js "y") [js "b"; js "c"; js "a"] []] 0)
    [js "1"; js "2"] [js "b"; js "c"; js "a"]
  = [js ""; js "1"; js "2"].
Proof. vm_compute. reflexivity. Qed.

Section CommonHeaders.

Lemma every_indexed (fh : list (list N)) (l : list (list N)) : forall k : nat,
  forallb (fun ih => bool_decide (fh !! (fst ih) = Some (snd ih)))
          (zip (seq k (length l)) l) = true
  <-> (forall i h, l !! i = Some h -> fh !! (k + i)%nat = Some h).
Proof.
  induction l as [|x l IH]; intros k; simpl.
  - split; [intros _ i h Hi; by rewrite lookup_nil in Hi | done].
  - rewrite andb_true_iff, bool_decide_eq_true, IH. split.
    + intros [Hx Hl] [|i] h Hi; simpl in Hi.
      * rewrite Nat.add_0_r. congruence.
      * replace (k + S i)%nat with (S k + i)%nat by lia. by apply Hl.
    + intros H. split.
      * specialize (H 0%nat x eq_refl). by rewrite Nat.add_0_r in H.
      * intros i h Hi. replace (S k + i)%nat with (k + S i)%nat by lia.
        by apply H.
Qed.

Lemma same_headers_eq (fh : list (list N)) (t : Table) :
  same_headers fh t = true <-> headers t = fh.
Proof.
  unfold same_headers. rewrite andb_true_iff, Nat.eqb_eq, every_indexed.
  split.
  - intros [Hlen Hall]. apply list_eq_same_length with (length fh); try done.
    intros i x y Hi Hx Hy. apply Hall in Hx. simpl in Hx. congruence.
  - intros ->. done.
Qed.

Lemma allSame_Forall (fh : list (list N)) (ts : list Table) :
  forallb (same_headers fh) ts
  = bool_decide (Forall (fun t => headers t = fh) ts).
Proof.
  destruct (forallb (same_headers fh) ts) eqn:E; symmetry.
  - apply bool_decide_eq_true. apply Forall_forall. intros t Ht.
    apply same_headers_eq. rewrite forallb_forall in E. apply E.
    by apply list_elem_of_In.
  - apply bool_decide_eq_false. intros HF.
    assert (forallb (same_headers fh) ts = true); [|congruence].
    apply forallb_forall. intros t Ht. apply same_headers_eq.
    rewrite Forall_forall in HF. apply HF. by apply list_elem_of_In.
Qed.

Lemma fold_tables (ts : list Table) : forall acc : gset (list N) * list (list N),
  fold_left (fun acc table => fold_left collect (headers table) acc) ts acc
  = fold_left collect (concat (map headers ts)) acc.
Proof.
  induction ts as [|t ts IH]; intros acc; simpl; [done|].
  by rewrite IH, fold_left_app.
Qed.


Lemma unseen_true (acc : list (list N)) (y : list N) :
  y ∉ acc -> unseen acc y = true.
Proof. intros H. unfold unseen. by rewrite bool_decide_eq_false_2. Qed.

Lemma unseen_false (acc : list (list N)) (y : list N) :
  y ∈ acc -> unseen acc y = false.
Proof. intros H. unfold unseen. by rewrite bool_decide_eq_true_2. Qed.

Lemma filter_unseen_skip (acc l : list (list N)) (x : list N) :
  x ∈ acc ->
  List.filter (unseen acc) (List.filter (fun y => negb (str_eqb y x)) l)
  = List.filter (unseen acc) l.
Proof.
  intros Hx. induction l as [|y l IH]; simpl; [done|].
  destruct (str_eqb y x) eqn:E; simpl.
  - apply bool_decide_eq_true in E. subst y.
    by rewrite IH, unseen_false.
  - by rewrite IH.
Qed.

Lemma filter_unseen_snoc (acc l : list (list N)) (x : list N) :
  List.filter (unseen (acc ++ [x])) l
  = List.filter (unseen acc) (List.filter (fun y => negb (str_eqb y x)) l).
Proof.
  induction l as [|y l IH]; simpl; [done|].
  destruct (str_eqb y x) eqn:E; simpl.
  - apply bool_decide_eq_true in E. subst y.
    rewrite <- IH. rewrite unseen_false; [done|set_solver].
  - apply bool_decide_eq_false in E. rewrite <- IH.
    destruct (decide (y ∈ acc)) as [Hin|Hnin].
    + rewrite !unseen_false; [done | done | set_solver].
    + rewrite !unseen_true; [done | done | set_solver].
Qed.

(** The loop keeps [seen] equal to the set of [allHeaders] and appends each
    header the first time it is met. *)
Lemma collect_first_seen (l : list (list N)) : forall acc : list (list N),
  fold_left collect l (list_to_set acc, acc)
  = (list_to_set (acc ++ List.filter (unseen acc) (first_seen l)),
     acc ++ List.filter (unseen acc) (first_seen l)).
Proof.
  induction l as [|x l IH]; intros acc; simpl.
  - by rewrite app_nil_r.
  - unfold collect at 2. simpl.
    destruct (decide (x ∈ acc)) as [Hin|Hnin].
    + rewrite bool_decide_eq_true_2 by set_solver.
      rewrite IH, unseen_false by done.
      by rewrite filter_unseen_skip.
    + rewrite bool_decide_eq_false_2 by set_solver.
      replace ({[x]} ∪ list_to_set acc : gset (list N))
        with (list_to_set (acc ++ [x]) : gset (list N))
        by (rewrite list_to_set_app_L; set_solver).
      rewrite IH, (unseen_true acc x) by done.
      rewrite <- filter_unseen_snoc, <- app_assoc. done.
Qed.

Lemma filter_unseen_nil (l : list (list N)) : List.filter (unseen []) l = l.
Proof.
  induction l as [|y l IH]; simpl; [done|].
  rewrite ?unseen_true by set_solver. by rewrite IH.
Qed.

(** What "first-seen order, duplicates removed" gives: no header twice, and
    exactly the headers of the list. *)
Lemma first_seen_elem (l : list (list N)) (x : list N) :
  x ∈ first_seen l <-> x ∈ l.
Proof.
  induction l as [|y l IH]; simpl; [done|].
  rewrite !elem_of_cons, <- IH. split.
  - intros [->|Hin]; [by left|]. right.
    apply list_elem_of_In, filter_In in Hin as [Hin _].
    by apply list_elem_of_In.
  - intros [->|Hin]; [by left|].
    destruct (decide (x = y)) as [->|Hne]; [by left|]. right.
    apply list_elem_of_In, filter_In. split; [by apply list_elem_of_In|].
    apply negb_true_iff. by apply bool_decide_eq_false_2.
Qed.

Lemma first_seen_NoDup (l : list (list N)) : NoDup (first_seen l).
Proof.
  induction l as [|y l IH]; simpl; [constructor|].
  constructor.
  - intros Hin. apply list_elem_of_In, filter_In in Hin as [_ Hne].
    apply negb_true_iff, bool_decide_eq_false in Hne. done.
  - apply NoDup_ListNoDup, List.NoDup_filter, NoDup_ListNoDup, IH.
Qed.

End CommonHeaders.

Lemma union_of_headers_elem (ts : list Table) (h : list N) :
  h ∈ union_of_headers ts <-> exists t, t ∈ ts /\ h ∈ headers t.
Proof.
  unfold union_of_headers. rewrite first_seen_elem.
  induction ts as [|t ts IH]; simpl.
  - split; [by intros ?%elem_of_nil|]. by intros (t & ?%elem_of_nil & _).
  - rewrite elem_of_app, IH. split.
    + intros [Hh|(t' & Ht' & Hh)].
      * exists t. split; [apply list_elem_of_here|done].
      * exists t'. split; [by apply list_elem_of_further|done].
    + intros (t' & Ht' & Hh). apply elem_of_cons in Ht' as [->|Ht'].
      * by left.
      * right. by exists t'.
Qed.

(** C4. For every non-empty list of tables: if every table's header list is
    identical to the first table's, [getCommonHeaders] returns that very list;
    otherwise it returns the union of all headers of all tables in first-seen
    order, duplicates removed: a list without repetition that holds exactly
    the headers of the tables. *)
Theorem getCommonHeaders_same_or_union (this : State) (t0 : Table) (ts : list Table) :
  st_tables this = t0 :: ts ->
  getCommonHeaders this
  = (if bool_decide (Forall (fun t => headers t = headers t0) (t0 :: ts))
     then headers t0
     else union_of_headers (t0 :: ts))
  /\ NoDup (union_of_headers (t0 :: ts))
  /\ (forall h, h ∈ union_of_headers (t0 :: ts)
               <-> exists t, t ∈ t0 :: ts /\ h ∈ headers t).
Proof.
  intros Ht. split; [|split].
  - unfold getCommonHeaders. rewrite Ht.
    rewrite allSame_Forall. case_bool_decide; [done|].
    rewrite fold_tables.
    change (∅ : gset (list N)) with (list_to_set [] : gset (list N)).
    rewrite collect_first_seen. simpl. by rewrite filter_unseen_nil.
  - apply first_seen_NoDup.
  - intros h. apply union_of_headers_elem.
Qed.

Lemma getCommonHeaders_same_or_union_witness :
  getCommonHeaders two_tables = [js "a"; js "b"; js "c"].
Proof.
  apply (getCommonHeaders_same_or_union two_tables
           (mkTable (js "x") [js "a"; js "b"] [[js "1"; js "2"]])
           [mkTable (js "y") [js "b"; js "c"; js "a"] [[js "3"; js "4"; js "5"]]]).
  reflexivity.
Defined.

(** ** [padRowToHeaders] *)

Section PadRow.

Variables common row : list (list N).


Lemma zip_seq_snoc (l : list (list N)) (h : list N) (k : nat) :
  zip (seq k (length (l ++ [h]))) (l ++ [h])
  = zip (seq k (length l)) l ++ [((k + length l)%nat, h)].
Proof.
  revert k. induction l as [|x l IH]; intros k; simpl.
  - by rewrite Nat.add_0_r.
  - rewrite IH. by replace (S k + length l)%nat with (k + S (length l))%nat by lia.
Qed.

Lemma padded_snoc (l : list (list N)) (h : list N) :
  padded common row (l ++ [h]) = place common row (padded common row l) (length l, h).
Proof. unfold padded. by rewrite zip_seq_snoc, fold_left_app. Qed.

Lemma place_length (res : list (list N)) (ih : nat * list N) :
  length (place common row res ih) = length res.
Proof.
  destruct ih as [k h]. unfold place.
  destruct (negb _ && _); [|done].
  destruct (row !! k); [|done]. by rewrite length_insert.
Qed.

Lemma padded_length (ths : list (list N)) : length (padded common row ths) = length common.
Proof.
  induction ths as [|h l IH] using rev_ind.
  - unfold padded. simpl. by rewrite length_replicate.
  - by rewrite padded_snoc, place_length.
Qed.

Lemma indexOf_from_inv (l : list (list N)) (x : list N) : forall k : Z,
  (indexOf_from l x k = (-1)%Z /\ x ∉ l)
  \/ exists n : nat, indexOf_from l x k = (k + Z.of_nat n)%Z
       /\ l !! n = Some x /\ forall j, (j < n)%nat -> l !! j <> Some x.
Proof.
  induction l as [|y l IH]; intros k; simpl.
  - left. split; [done|]. apply not_elem_of_nil.
  - destruct (str_eqb y x) eqn:E.
    + apply bool_decide_eq_true in E. subst y. right. exists 0%nat.
      split; [lia|]. split; [done|]. intros j Hj. lia.
    + apply bool_decide_eq_false in E.
      destruct (IH (k + 1)%Z) as [[H1 H2]|(n & H1 & H2 & H3)].
      * left. split; [done|]. rewrite elem_of_cons. intros [->|?]; done.
      * right. exists (S n). split; [lia|]. split; [done|].
        intros [|j] Hj; simpl; [congruence|]. apply H3. lia.
Qed.

Lemma indexOf_inv (x : list N) :
  (indexOf common x = (-1)%Z /\ x ∉ common)
  \/ exists n : nat, indexOf common x = Z.of_nat n
       /\ common !! n = Some x /\ forall j, (j < n)%nat -> common !! j <> Some x.
Proof.
  unfold indexOf. destruct (indexOf_from_inv common x 0) as [?|(n & H1 & H2)].
  - by left.
  - right. exists n. by rewrite H1.
Qed.

(** A header of the common list is found, at an index of the list. *)
Lemma indexOf_elem (x : list N) :
  x ∈ common ->
  exists n : nat, indexOf common x = Z.of_nat n /\ common !! n = Some x.
Proof.
  intros Hx. destruct (indexOf_inv x) as [[_ Hn]|(n & H1 & H2 & _)]; [done|].
  by exists n.
Qed.

Lemma place_skip (res : list (list N)) (k : nat) (h : list N) (p : nat) :
  (forall n : nat, indexOf common h = Z.of_nat n -> n <> p) ->
  place common row res (k, h) !! p = res !! p.
Proof.
  intros Hp. unfold place.
  destruct (indexOf_inv h) as [[E _]|(n & E & _)]; rewrite E.
  - done.
  - destruct (negb _ && _); [|done]. destruct (row !! k); [|done].
    rewrite Nat2Z.id. apply list_lookup_insert_ne. by apply Hp.
Qed.

Lemma padded_placed (ths : list (list N)) : forall (i : nat) (header v : list N),
  ths !! i = Some header -> row !! i = Some v -> header ∈ common ->
  (forall j, (i < j)%nat -> (j < length row)%nat -> ths !! j <> Some header) ->
  padded common row ths !! Z.to_nat (indexOf common header) = Some v.
Proof.
  induction ths as [|h l IH] using rev_ind; intros i header v Hi Hv Hin Hlast.
  - by rewrite lookup_nil in Hi.
  - rewrite padded_snoc.
    destruct (indexOf_elem header Hin) as (n & En & Hn).
    rewrite En, Nat2Z.id.
    destruct (decide (i = length l)) as [->|Hne].
    + rewrite list_lookup_middle in Hi by done. injection Hi as ->.
      unfold place. rewrite En, Hv, Nat2Z.id.
      replace (Z.of_nat n =? -1)%Z with false by (symmetry; apply Z.eqb_neq; lia).
      replace (length l <? length row)%nat with true
        by (symmetry; apply Nat.ltb_lt; by apply lookup_lt_Some in Hv).
      simpl. apply list_lookup_insert_eq.
      rewrite padded_length. by apply lookup_lt_Some in Hn.
    + assert (i < length l)%nat as Hlt.
      { apply lookup_lt_Some in Hi. rewrite length_app in Hi. simpl in Hi. lia. }
      rewrite lookup_app_l in Hi by done.
      assert (padded common row l !! n = Some v) as Hl.
      { specialize (IH i header v Hi Hv Hin). rewrite En, Nat2Z.id in IH.
        apply IH. intros j Hij Hj Hlj. apply (Hlast j Hij Hj).
        rewrite lookup_app_l; [done|]. by apply lookup_lt_Some in Hlj. }
      destruct (decide (length l < length row)%nat) as [Hrow|Hrow].
      * rewrite place_skip; [done|]. intros n' En' ->.
        destruct (indexOf_inv h) as [[E _]|(n'' & E & Hh & _)]; [lia|].
        assert (n'' = n) as -> by lia.
        apply (Hlast (length l) Hlt Hrow).
        rewrite list_lookup_middle by done. congruence.
      * unfold place.
        replace (length l <? length row)%nat with false
          by (symmetry; apply Nat.ltb_ge; lia).
        by rewrite andb_false_r.
Qed.

Lemma padded_empty (ths : list (list N)) (p : nat) :
  (p < length common)%nat ->
  (forall i header, ths !! i = Some header -> (i < length row)%nat ->
     indexOf common header <> Z.of_nat p) ->
  padded common row ths !! p = Some [].
Proof.
  intros Hp. induction ths as [|h l IH] using rev_ind; intros Hnone.
  - unfold padded. simpl. by apply lookup_replicate_2.
  - rewrite padded_snoc.
    destruct (decide (length l < length row)%nat) as [Hrow|Hrow].
    + rewrite place_skip.
      * apply IH. intros i header Hi. apply Hnone.
        rewrite lookup_app_l; [done|]. by apply lookup_lt_Some in Hi.
      * intros n En ->. apply (Hnone (length l) h); [|done|done].
        by rewrite list_lookup_middle.
    + unfold place.
      replace (length l <? length row)%nat with false
        by (symmetry; apply Nat.ltb_ge; lia).
      rewrite andb_false_r.
      apply IH. intros i header Hi. apply Hnone.
      rewrite lookup_app_l; [done|]. by apply lookup_lt_Some in Hi.
Qed.

End PadRow.

Lemma padRowToHeaders_padded (this : State) (row ths : list (list N)) :
  padRowToHeaders this row ths = padded (getCommonHeaders this) row ths.
Proof. reflexivity. Qed.

(** C10. Whatever the lengths of the row and of its table's header list, the
    row that [padRowToHeaders] returns is as long as the common header list. *)
Theorem padRowToHeaders_length (this : State) (row tableHeaders : list (list N)) :
  length (padRowToHeaders this row tableHeaders)
  = length (getCommonHeaders this).
Proof. rewrite padRowToHeaders_padded. apply padded_length. Qed.

(** C3 (amended). In the row that [padRowToHeaders] returns, every source cell
    whose header name occurs in the common header list, whose index is within
    the source row, and whose header name is not repeated at a later index
    within the source row, stands at the position of (the first occurrence
    of) that header name in the common list; and every position that is the
    position of no such in-range source header holds the empty string. *)
Theorem padRowToHeaders_places (this : State) (row tableHeaders : list (list N)) :
  let common := getCommonHeaders this in
  let result := padRowToHeaders this row tableHeaders in
  (forall (i : nat) (header v : list N),
     tableHeaders !! i = Some header /\ row !! i = Some v /\ header ∈ common
     /\ (forall j, (i < j)%nat -> (j < length row)%nat ->
           tableHeaders !! j <> Some header) ->
     result !! Z.to_nat (indexOf common header) = Some v
     /\ common !! Z.to_nat (indexOf common header) = Some header)
  /\ (forall p : nat,
        (p < length common)%nat
        /\ (forall i header, tableHeaders !! i = Some header ->
              (i < length row)%nat -> indexOf common header <> Z.of_nat p) ->
        result !! p = Some []).
Proof.
  intros common result. split.
  - intros i header v (Hi & Hv & Hin & Hlast). split.
    + subst result. rewrite padRowToHeaders_padded. by eapply padded_placed.
    + destruct (indexOf_elem common header Hin) as (n & En & Hn).
      by rewrite En, Nat2Z.id.
  - intros p [Hp Hnone]. subst result. rewrite padRowToHeaders_padded.
    by apply padded_empty.
Qed.


Lemma padRowToHeaders_places_witness :
  getCommonHeaders two_tables = [js "a"; js "b"; js "c"]
  /\ padRowToHeaders two_tables [js "3"; js "4"; js "5"]
                     [js "b"; js "c"; js "a"] !! 2%nat
     = Some (js "4")
  /\ padRowToHeaders two_tables [js "3"] [js "b"; js "c"; js "a"] !! 0%nat
     = Some (js "").
Proof.
  split; [vm_compute; reflexivity|]. split.
  - assert (Hc : js "c" ∈ getCommonHeaders two_tables).
    { vm_compute. do 2 apply list_elem_of_further. apply list_elem_of_here. }
    assert (Hlast : forall j, (1 < j)%nat ->
              (j < length [js "3"; js "4"; js "5"])%nat ->
              [js "b"; js "c"; js "a"] !! j <> Some (js "c")).
    { intros [|[|[|j]]] Hlt Hlen; cbn in Hlen |- *; try lia; discriminate. }
    pose proof (proj1 (padRowToHeaders_places two_tables [js "3"; js "4"; js "5"]
                         [js "b"; js "c"; js "a"])
                      1%nat (js "c") (js "4")
                      (conj eq_refl (conj eq_refl (conj Hc Hlast)))) as [H _].
    vm_compute in H |- *. exact H.
  - assert (Hp : (0 < length (getCommonHeaders two_tables))%nat).
    { vm_compute. lia. }
    assert (Hnone : forall i header,
              [js "b"; js "c"; js "a"] !! i = Some header ->
              (i < length [js "3"])%nat ->
              indexOf (getCommonHeaders two_tables) header <> Z.of_nat 0).
    { intros [|i] header Hh Hlen; cbn in Hlen; [|lia].
      injection Hh as <-. vm_compute. discriminate. }
    pose proof (proj2 (padRowToHeaders_places two_tables [js "3"]
                         [js "b"; js "c"; js "a"])
                      0%nat (conj Hp Hnone)) as H.
    vm_compute in H |- *. exact H.
Defined.

(** C3 as stated fails when a header name is repeated: the later cell
    overwrites the earlier one, whose value appears nowhere in the result. *)
Lemma padRowToHeaders_drops_repeated_header :
  let this := duplicate_headers in
  let row := [js "1"; js "2"] in
  let tableHeaders := [js "a"; js "a"] in
  let common := getCommonHeaders this in
  tableHeaders !! 0%nat = Some (js "a") /\ row !! 0%nat = Some (js "1")
  /\ js "a" ∈ common
  /\ padRowToHeaders this row tableHeaders = [js "2"; js ""]
  /\ padRowToHeaders this row tableHeaders !! Z.to_nat (indexOf common (js "a"))
     <> Some (js "1").
Proof.
  vm_compute. repeat split; try reflexivity.
  - apply list_elem_of_here.
  - discriminate.
Qed.

(** ** The delimiter detector *)

Example detectDelimiter_semicolons :
  detectDelimiter (js "a;b;c" ++ [LF] ++ js "1;2;3" ++ [LF] ++ js "4,5;6;7")
  = js ";".
Proof. vm_compute. reflexivity. Qed.

Example detectDelimiter_default : detectDelimiter (js "hello world") = js ",".
Proof. vm_compute. reflexivity. Qed.

(** The order of binary64 numbers, from the specification of the primitive
    comparisons. *)
Section FloatOrder.

Ltac cmp_cases :=
  repeat match goal with
  | H : context [Z.compare ?a ?b] |- _ => destruct (Z.compare_spec a b); subst
  | |- context [Z.compare ?a ?b] => destruct (Z.compare_spec a b); subst
  | H : context [Pos.compare ?a ?b] |- _ => destruct (Pos.compare_spec a b); subst
  | |- context [Pos.compare ?a ?b] => destruct (Pos.compare_spec a b); subst
  end.

Ltac sf_order :=
  unfold SFltb, SFleb, SFcompare; intros;
  repeat match goal with x : spec_float |- _ => destruct x as [[]|[]| |[] ? ?] end;
  simpl in *; try discriminate; try reflexivity;
  change (Pos.compare_cont Eq) with Pos.compare in *;
  cmp_cases; simpl in *; try discriminate; try reflexivity; try lia.

Lemma SFltb_trans (x y z : spec_float) :
  SFltb x y = true -> SFltb y z = true -> SFltb x z = true.
Proof. revert x y z. sf_order. Qed.

Lemma SFltb_leb_trans (x y z : spec_float) :
  SFltb x y = true -> SFleb y z = true -> SFltb x z = true.
Proof. revert x y z. sf_order. Qed.

Lemma SFltb_irrefl (x : spec_float) : SFltb x x = false.
Proof. revert x. sf_order. Qed.

Lemma float_lt_trans (x y z : float) :
  (x <? y)%float = true -> (y <? z)%float = true -> (x <? z)%float = true.
Proof. rewrite !FloatAxioms.ltb_spec. apply SFltb_trans. Qed.

Lemma float_lt_le_trans (x y z : float) :
  (x <? y)%float = true -> (y <=? z)%float = true -> (x <? z)%float = true.
Proof. rewrite !FloatAxioms.ltb_spec, FloatAxioms.leb_spec. apply SFltb_leb_trans. Qed.

Lemma float_lt_irrefl (x : float) : (x <? x)%float = false.
Proof. rewrite FloatAxioms.ltb_spec. apply SFltb_irrefl. Qed.

End FloatOrder.

Section Scan.

(** The scan of the second [forEach], for any scoring of the candidates. *)
Variable f : N -> float.



Lemma not_true_false (b : bool) : (b = true -> False) -> b = false.
Proof. destruct b; [intros H; by destruct H | done]. Qed.

Lemma pick_scanned (seen : list N) (best : N * float) (d : N) :
  scanned f seen best -> scanned f (seen ++ [d]) (pick f best d).
Proof.
  intros [[-> Hnone]|(Hbs & Hpos & (before & after & Hsplit & Hbefore) & Hmax)];
    unfold pick; simpl.
  - destruct (0 <? f d)%float eqn:E.
    + right. simpl. split; [done|]. split; [done|]. split.
      * exists seen, []. split; [done|]. intros d' Hd'.
        apply not_true_false. intros Hle.
        pose proof (float_lt_le_trans _ _ _ E Hle) as H0.
        by rewrite (Hnone d' Hd') in H0.
      * intros d' Hd'. apply elem_of_app in Hd' as [Hd'|Hd'].
        -- apply not_true_false. intros Hlt.
           pose proof (float_lt_trans _ _ _ E Hlt) as H0.
           by rewrite (Hnone d' Hd') in H0.
        -- apply list_elem_of_singleton in Hd' as ->. apply float_lt_irrefl.
    + left. split; [done|]. intros d' Hd'.
      apply elem_of_app in Hd' as [Hd'|Hd']; [by apply Hnone|].
      by apply list_elem_of_singleton in Hd' as ->.
  - destruct best as [b bs]. simpl in *. subst bs.
    destruct (f b <? f d)%float eqn:E.
    + right. simpl. split; [done|]. split; [by eapply float_lt_trans|]. split.
      * exists seen, []. split; [done|]. intros d' Hd'.
        apply not_true_false. intros Hle.
        pose proof (float_lt_le_trans _ _ _ E Hle) as H0.
        by rewrite (Hmax d' Hd') in H0.
      * intros d' Hd'. apply elem_of_app in Hd' as [Hd'|Hd'].
        -- apply not_true_false. intros Hlt.
           pose proof (float_lt_trans _ _ _ E Hlt) as H0.
           by rewrite (Hmax d' Hd') in H0.
        -- apply list_elem_of_singleton in Hd' as ->. apply float_lt_irrefl.
    + right. simpl. split; [done|]. split; [done|]. split.
      * exists before, (after ++ [d]). split; [|done].
        rewrite Hsplit. by rewrite <- app_assoc.
      * intros d' Hd'. apply elem_of_app in Hd' as [Hd'|Hd']; [by apply Hmax|].
        by apply list_elem_of_singleton in Hd' as ->.
Qed.

Lemma scan_scanned (cands : list N) : forall (seen : list N) (best : N * float),
  scanned f seen best -> scanned f (seen ++ cands) (fold_left (pick f) cands best).
Proof.
  induction cands as [|d cands IH]; intros seen best H; simpl.
  - by rewrite app_nil_r.
  - replace (seen ++ d :: cands) with ((seen ++ [d]) ++ cands)
      by (by rewrite <- app_assoc).
    apply IH. by apply pick_scanned.
Qed.

End Scan.

Lemma counts_of_lookup (lines : list (list N)) (d : N) :
  d ∈ delimiters ->
  counts_of lines !! d = Some (map (occurrences d) lines).
Proof.
  unfold delimiters, counts_of. simpl. intros Hd.
  repeat (apply elem_of_cons in Hd as [->|Hd]; [by simplify_map_eq|]).
  by apply elem_of_nil in Hd.
Qed.

Lemma better_pick (lines : list (list N)) :
  better (counts_of lines)
  = pick (fun d => score (default [] (counts_of lines !! d))).
Proof. reflexivity. Qed.

Lemma detectDelimiter_scanned (lines : list (list N)) :
  let sc := fun d => score (map (occurrences d) lines) in
  exists d : N, d ∈ delimiters /\ best_delimiter lines = [d] /\
    ((d = COMMA /\ forall d', d' ∈ delimiters -> (0 <? sc d')%float = false)
     \/ ((0 <? sc d)%float = true
         /\ (forall d', d' ∈ delimiters -> (sc d <? sc d')%float = false)
         /\ exists before after, delimiters = before ++ d :: after
              /\ forall d', d' ∈ before -> (sc d <=? sc d')%float = false)).
Proof.
  intros sc. unfold best_delimiter. rewrite better_pick.
  set (f := fun d => score (default [] (counts_of lines !! d))).
  assert (Hf : forall d, d ∈ delimiters -> f d = sc d).
  { intros d Hd. unfold f. by rewrite counts_of_lookup. }
  pose proof (scan_scanned f delimiters [] (COMMA, 0%float)) as H.
  simpl app in H.
  destruct H as [[-> Hnone]|(Hbs & Hpos & (before & after & Hsplit & Hbefore) & Hmax)].
  { left. split; [done|]. intros d Hd. by apply elem_of_nil in Hd. }
  - exists COMMA. split; [apply list_elem_of_here|]. split; [done|].
    left. split; [done|]. intros d' Hd'. rewrite <- Hf by done. by apply Hnone.
  - set (best := fold_left (pick f) delimiters (COMMA, 0%float)) in *.
    assert (Hin : best.1 ∈ delimiters).
    { rewrite Hsplit. apply elem_of_app. right. apply list_elem_of_here. }
    exists best.1. split; [done|]. split; [done|]. right.
    split; [by rewrite <- Hf|]. split.
    + intros d' Hd'. rewrite <- !Hf by done. by apply Hmax.
    + exists before, after. split; [done|]. intros d' Hd'.
      assert (d' ∈ delimiters).
      { rewrite Hsplit. apply elem_of_app. by left. }
      rewrite <- !Hf by done. by apply Hbefore.
Qed.

(** C5 (amended). For every text, [detectDelimiter] considers comma,
    semicolon, tab and pipe over the first 5 lines of the trimmed text (blank
    lines among them count), scores each candidate as mean/(variance+1) of its
    per-line counts (0 when the mean is not positive), and always returns one
    of the candidates: comma when no candidate has a positive score; otherwise
    a candidate of positive score that no candidate exceeds and that every
    candidate declared before it fails to reach. *)
Theorem detectDelimiter_highest_score (text : list N) :
  let lines := take 5 (split LF (trim text)) in
  let sc := fun d => score (map (occurrences d) lines) in
  exists d : N, d ∈ [COMMA; SEMICOLON; TAB; PIPE]
    /\ detectDelimiter text = [d]
    /\ ((d = COMMA
         /\ forall d', d' ∈ [COMMA; SEMICOLON; TAB; PIPE] ->
              (0 <? sc d')%float = false)
        \/ ((0 <? sc d)%float = true
            /\ (forall d', d' ∈ [COMMA; SEMICOLON; TAB; PIPE] ->
                  (sc d <? sc d')%float = false)
            /\ exists before after,
                 [COMMA; SEMICOLON; TAB; PIPE] = before ++ d :: after
                 /\ forall d', d' ∈ before -> (sc d <=? sc d')%float = false)).
Proof. intros lines sc. apply detectDelimiter_scanned. Qed.

(** C5 as stated fails: blank lines are among the five lines scored, so a
    delimiter that only shows after them is not seen, where scoring "the first
    5 non-empty lines" would pick it. *)
Lemma detectDelimiter_counts_blank_lines :
  let text := js "a" ++ [LF; LF; LF; LF; LF] ++ js "b;c" in
  take 5 (split LF (trim text)) = [js "a"; []; []; []; []]
  /\ first_nonempty_lines text = [js "a"; js "b;c"]
  /\ detectDelimiter text = js ","
  /\ detectDelimiter_nonempty text = js ";"
  /\ detectDelimiter text <> detectDelimiter_nonempty text.
Proof. vm_compute. repeat split; try reflexivity. discriminate. Qed.

(** ** Sorting *)

Example parseFloat_samples :
  parseFloat (js "10") = 10%float
  /\ parseFloat (js " -2.50e1x") = (-25)%float
  /\ parseFloat (js ".5") = 0.5%float
  /\ parseFloat (js "3abc") = 3%float
  /\ isNaN (parseFloat (js "abc")) = true
  /\ isNaN (parseFloat (js "")) = true
  /\ isNaN (parseFloat (js ".")) = true
  /\ parseFloat (js "-Infinity") = neg_infinity.
Proof. vm_compute. repeat split; reflexivity. Qed.

Section SortDirection.

Variable toLowerCase : list N -> list N.

Lemma sortTable_other_column (this : State) (i : Z) :
  st_sortColumn this <> i ->
  st_sortColumn (sortTable toLowerCase this i).1 = i
  /\ st_sortDirection (sortTable toLowerCase this i).1 = asc.
Proof.
  intros Hne. unfold sortTable.
  destruct (Z.eqb_spec (st_sortColumn this) i) as [Heq|_]; [done|].
  by simpl.
Qed.

Lemma sortTable_same_column (this : State) (i : Z) :
  st_sortColumn this = i ->
  st_sortColumn (sortTable toLowerCase this i).1 = i
  /\ st_sortDirection (sortTable toLowerCase this i).1
     = toggle (st_sortDirection this).
Proof.
  intros Heq. unfold sortTable.
  destruct (Z.eqb_spec (st_sortColumn this) i) as [_|Hne]; [|done].
  by simpl.
Qed.

End SortDirection.

(** C8. For every state and column [i]: sorting on [i] when [i] is not the
    current sort column sets the direction to ascending; sorting on the
    current sort column toggles the direction, so that repeated application
    goes asc, desc, asc; and sorting on a different column afterwards resets
    the direction to ascending. *)
Theorem sortTable_direction_toggles
    (toLowerCase : list N -> list N) (this : State) (i j : Z) :
  st_sortColumn this <> i -> j <> i ->
  let s1 := (sortTable toLowerCase this i).1 in
  let s2 := (sortTable toLowerCase s1 i).1 in
  let s3 := (sortTable toLowerCase s2 i).1 in
  (st_sortColumn s1 = i /\ st_sortDirection s1 = asc)
  /\ (st_sortColumn s2 = i /\ st_sortDirection s2 = desc)
  /\ (st_sortColumn s3 = i /\ st_sortDirection s3 = asc)
  /\ (st_sortColumn (sortTable toLowerCase s2 j).1 = j
      /\ st_sortDirection (sortTable toLowerCase s2 j).1 = asc)
  /\ (st_sortColumn (sortTable toLowerCase s3 j).1 = j
      /\ st_sortDirection (sortTable toLowerCase s3 j).1 = asc)
  /\ (forall s : State, st_sortColumn s = i ->
        st_sortColumn (sortTable toLowerCase s i).1 = i
        /\ st_sortDirection (sortTable toLowerCase s i).1
           = toggle (st_sortDirection s)).
Proof.
  intros Hi Hj s1 s2 s3.
  destruct (sortTable_other_column toLowerCase this i Hi) as [H1c H1d].
  fold s1 in H1c, H1d.
  destruct (sortTable_same_column toLowerCase s1 i H1c) as [H2c H2d].
  fold s2 in H2c, H2d. rewrite H1d in H2d. simpl in H2d.
  destruct (sortTable_same_column toLowerCase s2 i H2c) as [H3c H3d].
  fold s3 in H3c, H3d. rewrite H2d in H3d. simpl in H3d.
  repeat split; try done.
  - apply sortTable_other_column. congruence.
  - apply sortTable_other_column. congruence.
  - apply sortTable_other_column. congruence.
  - apply sortTable_other_column. congruence.
  - by apply sortTable_same_column.
  - by apply sortTable_same_column.
Qed.

Lemma sortTable_direction_toggles_witness :
  let s1 := (sortTable ascii_toLowerCase initial_state 0).1 in
  let s2 := (sortTable ascii_toLowerCase s1 0).1 in
  let s3 := (sortTable ascii_toLowerCase s2 0).1 in
  st_sortDirection s1 = asc /\ st_sortDirection s2 = desc
  /\ st_sortDirection s3 = asc
  /\ st_sortDirection (sortTable ascii_toLowerCase s2 1).1 = asc.
Proof.
  destruct (sortTable_direction_toggles ascii_toLowerCase initial_state 0 1)
    as ([_ H1] & [_ H2] & [_ H3] & [_ H4] & _).
  - simpl. lia.
  - lia.
  - repeat split; assumption.
Defined.

Section SortExtensional.

Context {A : Type} (cmp1 cmp2 : A -> A -> float) (P : A -> Prop).

Hypothesis agree : forall a b, P a -> P b -> cmp1 a b = cmp2 a b.

Lemma insert_sorted_ext (x : A) (sorted : list A) :
  P x -> Forall P sorted ->
  insert_sorted cmp1 x sorted = insert_sorted cmp2 x sorted.
Proof.
  intros Hx. induction 1 as [|y rest Hy Hrest IH]; simpl; [done|].
  by rewrite agree, IH.
Qed.

Lemma insert_sorted_Forall (x : A) (sorted : list A) :
  P x -> Forall P sorted -> Forall P (insert_sorted cmp2 x sorted).
Proof.
  intros Hx. induction 1 as [|y rest Hy Hrest IH]; simpl.
  - by repeat constructor.
  - destruct (0 <? cmp2 y x)%float; repeat constructor; done.
Qed.

Lemma array_sort_ext (l : list A) :
  Forall P l -> array_sort cmp1 l = array_sort cmp2 l.
Proof.
  unfold array_sort. generalize (@nil A), (Forall_nil_2 P).
  induction l as [|x l IH]; intros sorted Hsorted Hl; simpl; [done|].
  apply Forall_cons in Hl as [Hx Hl].
  rewrite insert_sorted_ext by done.
  apply IH; [|done]. by apply insert_sorted_Forall.
Qed.

Lemma ordered_by_ext (l : list A) :
  Forall P l -> ordered_by cmp1 l = ordered_by cmp2 l.
Proof.
  induction 1 as [|x rest Hx Hrest IH]; simpl; [done|].
  rewrite IH. f_equal.
  clear IH. induction Hrest as [|y rest Hy Hrest IH]; simpl; [done|].
  by rewrite agree, IH.
Qed.

End SortExtensional.

Section SortNumeric.

Variable toLowerCase : list N -> list N.

(** On code units below 128 the case mapping is the ASCII one. *)
Hypothesis toLowerCase_ascii :
  forall s, forallb is_ascii s = true -> toLowerCase s = ascii_toLowerCase s.

Lemma compareRows_numeric (d : Direction) (col : Z) (a b : list (list N)) :
  isNaN (parseFloat (cell_at a col)) = false ->
  isNaN (parseFloat (cell_at b col)) = false ->
  compareRows toLowerCase d col a b
  = match d with
    | asc => (parseFloat (cell_at a col) - parseFloat (cell_at b col))%float
    | desc => (parseFloat (cell_at b col) - parseFloat (cell_at a col))%float
    end.
Proof. intros Ha Hb. unfold compareRows. by rewrite Ha, Hb. Qed.


Lemma compareRows_lexical (col : Z) (a b : list (list N)) :
  isNaN (parseFloat (cell_at a col)) = true
  \/ isNaN (parseFloat (cell_at b col)) = true ->
  compareRows toLowerCase asc col a b
  = if str_ltb (toLowerCase (cell_at a col)) (toLowerCase (cell_at b col))
    then (-1)%float
    else if str_ltb (toLowerCase (cell_at b col)) (toLowerCase (cell_at a col))
         then 1%float else 0%float.
Proof.
  intros H. unfold compareRows.
  destruct H as [-> | ->]; [done|]. by rewrite andb_false_r.
Qed.

Lemma compareRows_ascii (d : Direction) (col : Z) (a b : list (list N)) :
  ascii_cell col a -> ascii_cell col b ->
  compareRows toLowerCase d col a b = compareRows ascii_toLowerCase d col a b.
Proof.
  intros Ha Hb. unfold compareRows. by rewrite !toLowerCase_ascii.
Qed.

Lemma sorted_ascii (this : State) (col : Z) :
  Forall (ascii_cell col) (st_filteredData this) ->
  (sortTable toLowerCase this col).1 = (sortTable ascii_toLowerCase this col).1.
Proof.
  intros H. unfold sortTable.
  destruct (st_sortColumn this =? col)%Z; simpl; f_equal;
    apply array_sort_ext with (P := ascii_cell col); try done;
    intros a b; apply compareRows_ascii.
Qed.

Lemma only_order (sample expected : list (list (list N))) (col : Z) :
  Forall (ascii_cell col) sample ->
  (forall l, l ∈ permutations sample ->
     ordered_by (compareRows ascii_toLowerCase asc col) l = true ->
     l = expected) ->
  forall l, sample ≡ₚ l ->
    ordered_by (compareRows toLowerCase asc col) l = true -> l = expected.
Proof.
  intros Hascii Hall l Hperm Hord. apply Hall.
  - by apply permutations_Permutation.
  - rewrite <- Hord. symmetry.
    apply ordered_by_ext with (P := ascii_cell col).
    + intros a b. apply compareRows_ascii.
    + by rewrite <- Hperm.
Qed.

End SortNumeric.


Lemma numbers_only_order : forall l,
  l ∈ permutations [[js "10"]; [js "2"]; [js "9"]] ->
  ordered_by (compareRows ascii_toLowerCase asc 0) l = true ->
  l = [[js "2"]; [js "9"]; [js "10"]].
Proof.
  intros l Hl Hord. vm_compute in Hl.
  repeat (apply elem_of_cons in Hl as [->|Hl];
          [first [reflexivity | vm_compute in Hord; discriminate]|]).
  by apply elem_of_nil in Hl.
Qed.

Lemma mixed_only_order : forall l,
  l ∈ permutations [[js "10"]; [js "9"]; [js "abc"]] ->
  ordered_by (compareRows ascii_toLowerCase asc 0) l = true ->
  l = [[js "9"]; [js "10"]; [js "abc"]].
Proof.
  intros l Hl Hord. vm_compute in Hl.
  repeat (apply elem_of_cons in Hl as [->|Hl];
          [first [reflexivity | vm_compute in Hord; discriminate]|]).
  by apply elem_of_nil in Hl.
Qed.



(** ** Regular expressions: matching by derivatives is matching *)

Section RegexSemantics.

Lemma lang_void_inv (s : list N) : lang Void s -> False.
Proof. inversion 1. Qed.

Lemma lang_eps_inv (s : list N) : lang Eps s -> s = [].
Proof. by inversion 1. Qed.

Lemma lang_class_inv (p : N -> bool) (s : list N) :
  lang (Class p) s -> exists c, s = [c] /\ p c = true.
Proof. inversion 1; subst. by eexists. Qed.

Lemma lang_seq_inv (a b : re) (s : list N) :
  lang (Seq a b) s -> exists s1 s2, s = s1 ++ s2 /\ lang a s1 /\ lang b s2.
Proof. inversion 1; subst. by do 2 eexists. Qed.

Lemma lang_alt_inv (a b : re) (s : list N) :
  lang (Alt a b) s -> lang a s \/ lang b s.
Proof. inversion 1; subst; [by left | by right]. Qed.

Lemma nullable_lang (r : re) : nullable r = true <-> lang r [].
Proof.
  induction r as [| |p|a IHa b IHb|a IHa b IHb|a IHa]; simpl.
  - split; [done|]. by intros H%lang_void_inv.
  - split; [constructor|done].
  - split; [done|]. by intros (c & ? & _)%lang_class_inv.
  - rewrite andb_true_iff, IHa, IHb. split.
    + intros [Ha Hb]. by apply (lang_seq a b [] []).
    + intros (s1 & s2 & Heq & Ha & Hb)%lang_seq_inv.
      symmetry in Heq. apply app_eq_nil in Heq as [-> ->]. done.
  - rewrite orb_true_iff, IHa, IHb. split.
    + intros [Ha|Hb]; [by apply lang_alt_l | by apply lang_alt_r].
    + by intros H%lang_alt_inv.
  - split; [constructor|done].
Qed.

Lemma mk_seq_lang (a b : re) (s : list N) :
  lang (mk_seq a b) s <-> lang (Seq a b) s.
Proof.
  assert (Hvoid_l : forall b s, lang (Seq Void b) s -> False).
  { intros b' s' (s1 & s2 & _ & Ha & _)%lang_seq_inv. by apply lang_void_inv in Ha. }
  assert (Hvoid_r : forall a s, lang (Seq a Void) s -> False).
  { intros a' s' (s1 & s2 & _ & _ & Hb)%lang_seq_inv. by apply lang_void_inv in Hb. }
  assert (Heps_l : forall b s, lang b s <-> lang (Seq Eps b) s).
  { intros b' s'. split.
    - intros H. by apply (lang_seq Eps b' [] s'); [constructor|].
    - intros (s1 & s2 & -> & Ha & Hb)%lang_seq_inv.
      by apply lang_eps_inv in Ha as ->. }
  assert (Heps_r : forall a s, lang a s <-> lang (Seq a Eps) s).
  { intros a' s'. split.
    - intros H. rewrite <- (app_nil_r s'). apply lang_seq; [done|constructor].
    - intros (s1 & s2 & -> & Ha & Hb)%lang_seq_inv.
      apply lang_eps_inv in Hb as ->. by rewrite app_nil_r. }
  destruct a; destruct b; simpl; try done;
    first [ apply Heps_l | apply Heps_r
          | split; [by intros H%lang_void_inv
                   | intros H; exfalso; by (apply Hvoid_l in H || apply Hvoid_r in H)] ].
Qed.

Lemma mk_alt_lang (a b : re) (s : list N) :
  lang (mk_alt a b) s <-> lang (Alt a b) s.
Proof.
  assert (Hl : forall b s, lang b s <-> lang (Alt Void b) s).
  { intros b' s'. split; [by apply lang_alt_r|].
    intros [Ha|Hb]%lang_alt_inv; [by apply lang_void_inv in Ha|done]. }
  assert (Hr : forall a s, lang a s <-> lang (Alt a Void) s).
  { intros a' s'. split; [by apply lang_alt_l|].
    intros [Ha|Hb]%lang_alt_inv; [done|by apply lang_void_inv in Hb]. }
  destruct a; destruct b; simpl; try done; first [apply Hl | apply Hr].
Qed.

Lemma lang_seq_cons (a b : re) (c : N) (s : list N) :
  lang (Seq a b) (c :: s)
  <-> (exists s1 s2, s = s1 ++ s2 /\ lang a (c :: s1) /\ lang b s2)
      \/ (lang a [] /\ lang b (c :: s)).
Proof.
  split.
  - intros (s1 & s2 & Heq & Ha & Hb)%lang_seq_inv.
    destruct s1 as [|x s1]; simpl in Heq.
    + right. by subst s2.
    + injection Heq as -> ->. left. by exists s1, s2.
  - intros [(s1 & s2 & -> & Ha & Hb)|[Ha Hb]].
    + by apply (lang_seq a b (c :: s1) s2).
    + by apply (lang_seq a b [] (c :: s)).
Qed.

Lemma lang_star_cons_inv (a : re) (c : N) (s : list N) :
  lang (Star a) (c :: s) ->
  exists s1 s2, s = s1 ++ s2 /\ lang a (c :: s1) /\ lang (Star a) s2.
Proof.
  intros H. remember (Star a) as r eqn:Hr. remember (c :: s) as w eqn:Hw.
  revert s Hw.
  induction H as [| | | | | |a' s1 s2 H1 _ H2 IH2]; intros t Hw; try discriminate.
  injection Hr as ->. destruct s1 as [|x s1]; simpl in Hw.
  - by apply IH2.
  - injection Hw as -> <-. by exists s1, s2.
Qed.

Lemma deriv_lang (r : re) : forall (c : N) (s : list N),
  lang (deriv c r) s <-> lang r (c :: s).
Proof.
  induction r as [| |p|a IHa b IHb|a IHa b IHb|a IHa]; intros c s; simpl.
  - split; by intros H%lang_void_inv.
  - split; [by intros H%lang_void_inv | by intros H%lang_eps_inv].
  - destruct (p c) eqn:Hp; split.
    + intros ->%lang_eps_inv. by constructor.
    + intros (c' & [= -> ->] & _)%lang_class_inv. constructor.
    + by intros H%lang_void_inv.
    + intros (c' & [= -> ->] & Hc)%lang_class_inv. congruence.
  - rewrite mk_alt_lang, lang_seq_cons. split.
    + intros [Hl|Hrr]%lang_alt_inv.
      * apply mk_seq_lang, lang_seq_inv in Hl as (s1 & s2 & -> & Ha & Hb).
        left. exists s1, s2. split; [done|]. split; [by apply IHa|done].
      * destruct (nullable a) eqn:Hn; [|by apply lang_void_inv in Hrr].
        right. split; [by apply nullable_lang|by apply IHb].
    + intros [(s1 & s2 & -> & Ha & Hb)|[Ha Hb]].
      * apply lang_alt_l, mk_seq_lang, lang_seq; [by apply IHa|done].
      * apply lang_alt_r. apply nullable_lang in Ha. rewrite Ha. by apply IHb.
  - rewrite mk_alt_lang. split.
    + intros [H|H]%lang_alt_inv;
        [apply lang_alt_l; by apply IHa | apply lang_alt_r; by apply IHb].
    + intros [H|H]%lang_alt_inv;
        [apply lang_alt_l; by apply IHa | apply lang_alt_r; by apply IHb].
  - rewrite mk_seq_lang. split.
    + intros (s1 & s2 & -> & Ha & Hb)%lang_seq_inv.
      apply (lang_star_cons a (c :: s1) s2); [by apply IHa|done].
    + intros H. apply lang_star_cons_inv in H as (s1 & s2 & -> & Ha & Hs).
      apply lang_seq; [by apply IHa|done].
Qed.

(** [matches] decides membership in the language of the pattern. *)
Lemma matches_lang (s : list N) : forall r : re,
  matches r s = true <-> lang r s.
Proof.
  induction s as [|c s IH]; intros r; simpl.
  - apply nullable_lang.
  - rewrite IH. apply deriv_lang.
Qed.

Lemma lang_anything (s : list N) : lang anything s.
Proof.
  induction s as [|c s IH]; [constructor|].
  apply (lang_star_cons _ [c] s); [by constructor|done].
Qed.

(** [/^r/.test(s)]: some prefix of [s] matches [r]. *)
Lemma test_prefix_lang (r : re) (s : list N) :
  test_prefix r s = true <-> exists s1 s2, s = s1 ++ s2 /\ lang r s1.
Proof.
  unfold test_prefix. rewrite matches_lang. split.
  - intros (s1 & s2 & -> & Ha & Hb)%lang_seq_inv. by exists s1, s2.
  - intros (s1 & s2 & -> & Hr). apply lang_seq; [done|apply lang_anything].
Qed.

Lemma suffixes_spec (s t : list N) :
  In t (suffixes s) <-> exists pre, s = pre ++ t.
Proof.
  induction s as [|c s IH]; simpl.
  - split.
    + intros [<-|[]]. by exists [].
    + intros (pre & H). symmetry in H. apply app_eq_nil in H as [_ ->]. by left.
  - rewrite IH. split.
    + intros [<-|(pre & ->)]; [by exists []|]. by exists (c :: pre).
    + intros ([|x pre] & H); simpl in H.
      * left. done.
      * injection H as -> ->. right. by exists pre.
Qed.

Lemma after_terminators_spec (s t : list N) :
  In t (after_terminators s)
  <-> exists pre c, s = pre ++ c :: t /\ isLineTerminator c = true.
Proof.
  induction s as [|x s IH]; simpl.
  - split; [done|]. intros (pre & c & H & _). by destruct pre.
  - rewrite in_app_iff, IH. split.
    + intros [Hx|(pre & c & -> & Hc)].
      * destruct (isLineTerminator x) eqn:E; [|done].
        destruct Hx as [<-|[]]. by exists [], x.
      * by exists (x :: pre), c.
    + intros ([|y pre] & c & H & Hc); simpl in H.
      * injection H as -> ->. left. rewrite Hc. by left.
      * injection H as -> ->. right. by exists pre, c.
Qed.

(** [/r/.test(s)]: some substring of [s] matches [r]. *)
Lemma test_anywhere_lang (r : re) (s : list N) :
  test_anywhere r s = true
  <-> exists pre s1 s2, s = pre ++ s1 ++ s2 /\ lang r s1.
Proof.
  unfold test_anywhere. rewrite existsb_exists. split.
  - intros (t & (pre & ->)%suffixes_spec & (s1 & s2 & -> & Hr)%test_prefix_lang).
    by exists pre, s1, s2.
  - intros (pre & s1 & s2 & -> & Hr). exists (s1 ++ s2). split.
    + apply suffixes_spec. by exists pre.
    + apply test_prefix_lang. by exists s1, s2.
Qed.

(** [/^r/m.test(s)]: [r] matches at the start of [s] or right after a line
    terminator. *)
Lemma test_line_prefix_lang (r : re) (s : list N) :
  test_line_prefix r s = true
  <-> (exists s1 s2, s = s1 ++ s2 /\ lang r s1)
      \/ (exists pre c s1 s2, s = pre ++ c :: s1 ++ s2
             /\ isLineTerminator c = true /\ lang r s1).
Proof.
  unfold test_line_prefix, line_starts. simpl. rewrite orb_true_iff.
  rewrite test_prefix_lang, existsb_exists. split.
  - intros [H|(t & (pre & c & -> & Hc)%after_terminators_spec
                 & (s1 & s2 & -> & Hr)%test_prefix_lang)]; [by left|].
    right. by exists pre, c, s1, s2.
  - intros [H|(pre & c & s1 & s2 & -> & Hc & Hr)]; [by left|].
    right. exists (s1 ++ s2). split.
    + apply after_terminators_spec. by exists pre, c.
    + apply test_prefix_lang. by exists s1, s2.
Qed.

End RegexSemantics.

(** ** Box tables *)

Example box_two_named_tables :
  let text :=
    js "====" ++ [LF] ++ js "TABLE: x" ++ [LF] ++ js "+---+---+" ++ [LF]
    ++ js "| a | b |" ++ [LF] ++ js "+---+---+" ++ [LF] ++ js "| 1 | 2 |" ++ [LF]
    ++ js "TABLE: y" ++ [LF] ++ js "| c |" ++ [LF] ++ js "| 3 |" ++ [LF]
    ++ js "| 4 |" in
  isDatabricksFormat text = true
  /\ parseDatabricksFormat text
     = [mkTable (js "x") [js "a"; js "b"] [[js "1"; js "2"]];
        mkTable (js "y") [js "c"] [[js "3"]; [js "4"]]].
Proof. vm_compute. split; reflexivity. Qed.

Example box_unicode_table :
  let text :=
    js "Summary" ++ [LF] ++ js "┌───┬───┐" ++ [LF] ++ js "│ a │ b │" ++ [LF]
    ++ js "├───┼───┤" ++ [LF] ++ js "│ 1 │ 2 │" ++ [LF] ++ js "└───┴───┘" in
  isDatabricksFormat text = true
  /\ parseDatabricksFormat text
     = [mkTable (js "Table 1") [js "a"; js "b"] [[js "1"; js "2"]]].
Proof. vm_compute. split; reflexivity. Qed.

(** ** Markdown and fixed-width tables *)

Example markdown_scenario :
  let text := js "| a | b |" ++ [LF] ++ js "|---|---|" ++ [LF] ++ js "| 1 | 2 |" in
  isMarkdownTable text = true
  /\ parseMarkdownTable text
     = [mkTable (js "Table 1") [js "a"; js "b"] [[js "1"; js "2"]]].
Proof. vm_compute. split; reflexivity. Qed.

Example markdown_two_blocks :
  parseMarkdownTable
    (js "a|b" ++ [LF] ++ js "--|--" ++ [LF] ++ js "1|2" ++ [LF; SPACE; LF; LF]
     ++ js "c|d" ++ [LF] ++ js ":--|--:" ++ [LF] ++ js "3|4")
  = [mkTable (js "Table 1") [js "a"; js "b"] [[js "1"; js "2"]];
     mkTable (js "Table 2") [js "c"; js "d"] [[js "3"; js "4"]]].
Proof. vm_compute. reflexivity. Qed.

Example fixed_width_scenario :
  let text :=
    js "Name   Age" ++ [LF] ++ js "Alice  30" ++ [LF] ++ js "Bob    25" in
  isFixedWidthTable text = true
  /\ parseFixedWidthTable text
     = Some (mkTable (js "Table 1") [js "Name"; js "Age"]
                     [[js "Alice"; js "30"]; [js "Bob"; js "25"]]).
Proof. vm_compute. split; reflexivity. Qed.

(** ** The format classifier *)


Example format_csv_scenario (B : Builtins) :
  let text := js "a,b" ++ [LF] ++ js "1,2" ++ [LF] ++ js "3,4" in
  formatFromText B (auto_page text) initial_state
  = (mkState [[js "1"; js "2"]; [js "3"; js "4"]] [js "a"; js "b"] (-1) asc
             [[js "1"; js "2"]; [js "3"; js "4"]] [] 0,
     [HideTableSelector; RenderTable; ShowToast (js "Loaded 2 rows")]).
Proof. vm_compute. reflexivity. Qed.

Example format_two_box_tables (B : Builtins) :
  let text :=
    js "====" ++ [LF] ++ js "TABLE: x" ++ [LF] ++ js "| a |" ++ [LF]
    ++ js "| 1 |" ++ [LF] ++ js "====" ++ [LF] ++ js "TABLE: y" ++ [LF]
    ++ js "| b |" ++ [LF] ++ js "| 2 |" in
  let result := formatFromText B (auto_page text) initial_state in
  st_headers result.1 = [js "Table"; js "a"; js "b"]
  /\ st_data result.1 = [[js "x"; js "1"; js ""]; [js "y"; js ""; js "2"]]
  /\ st_currentTableIndex result.1 = (-1)%Z
  /\ last result.2 = Some (ShowToast (js "Loaded 2 table(s), 2 total rows")).
Proof. vm_compute. repeat split; reflexivity. Qed.

Example json_scenario (B : Builtins) (text : list N) :
  JSON_parse B (trimStart text)
  = Some (JArray [JObject [(js "a", JNumber 1)];
                  JObject [(js "a", JNumber 2); (js "b", JNumber 3)]]) ->
  String_of_number B 1 = js "1" -> String_of_number B 2 = js "2" ->
  String_of_number B 3 = js "3" -> inherited B (js "b") = None ->
  parseJSONArray B text
  = Some (mkTable (js "JSON Data") [js "a"; js "b"]
                  [[js "1"; js ""]; [js "2"; js "3"]]).
Proof.
  intros Hparse H1 H2 H3 Hb. unfold parseJSONArray. rewrite Hparse.
  vm_compute fold_left. unfold flat_map, cellOf. simpl.
  change [98%N] with (js "b"). by rewrite H1, H2, H3, Hb.
Qed.

Section Classifier.

Variable B : Builtins.
Variable page : Page.

Lemma switchToTable_tables (this : State) (index : Z) :
  st_tables (switchToTable this index).1 = st_tables this.
Proof.
  unfold switchToTable. destruct (index =? -1)%Z; [done|].
  destruct (_ && _); [|done].
  by destruct (st_tables this !! Z.to_nat index).
Qed.

Lemma loadTables_tables (this : State) (tables : list Table) (kind : list N) :
  st_tables (loadTables page this tables kind).1 = tables.
Proof.
  unfold loadTables.
  pose proof (switchToTable_tables (setTables this tables)
                (if (1 <? length tables)%nat then (-1)%Z else 0%Z)) as H.
  destruct (switchToTable _ _) as [this2 rendered]. by simpl in *.
Qed.

Lemma loadTable_tables (this : State) (table : Table) (message : list N) :
  st_tables (loadTable page this table message).1 = [table].
Proof.
  unfold loadTable.
  pose proof (switchToTable_tables (setTables this [table]) 0) as H.
  destruct (switchToTable _ _) as [this2 rendered]. by simpl in *.
Qed.

Lemma processData_tables (this : State) (rows : list (list (list N))) :
  st_tables (processData page this rows).1 = st_tables this.
Proof.
  unfold processData. destruct (length rows =? 0)%nat; [done|].
  by destruct (_ && _).
Qed.

Lemma fallback_tables (this : State) (text : list N) :
  st_tables (fallback page this text).1 = [].
Proof.
  unfold fallback.
  pose proof (processData_tables (setTables this [])
                (parseCSV text (chosenDelimiter page text))) as H.
  destruct (processData _ _ _) as [this2 shown]. by simpl in *.
Qed.

(** When the JSON detector matches, the JSON parser gives a table. *)
Lemma isJSONArray_parses (text : list N) :
  isJSONArray B text = true ->
  exists table, parseJSONArray B text = Some table.
Proof.
  unfold isJSONArray, parseJSONArray.
  destruct (negb _); [done|].
  destruct (JSON_parse B (trimStart text)) as [[| | | |arr|]|]; try done.
  intros _. by eexists.
Qed.

Lemma boxBlock_owns (this : State) (text : list N) :
  boxBlock page this text
  = if boxOwns text
    then Some (loadTables page this (parseDatabricksFormat text) (js " table(s), "))
    else None.
Proof.
  unfold boxBlock, boxOwns. destruct (isDatabricksFormat text); [|done].
  by destruct (0 <? _)%nat.
Qed.

Lemma markdownBlock_owns (this : State) (text : list N) :
  markdownBlock page this text
  = if markdownOwns text
    then Some (loadTables page this (parseMarkdownTable text)
                          (js " Markdown table(s), "))
    else None.
Proof.
  unfold markdownBlock, markdownOwns. destruct (isMarkdownTable text); [|done].
  by destruct (0 <? _)%nat.
Qed.

Lemma jsonBlock_owns (this : State) (text : list N) :
  jsonBlock B page this text
  = if isJSONArray B text
    then option_map (fun table => loadTable page this table (js "Loaded JSON data: "))
                    (parseJSONArray B text)
    else None.
Proof.
  unfold jsonBlock. destruct (isJSONArray B text); [|done].
  by destruct (parseJSONArray B text).
Qed.

Lemma fixedWidthBlock_owns (this : State) (text : list N) :
  fixedWidthBlock page this text
  = if fixedWidthOwns text
    then option_map (fun table => loadTable page this table
                                            (js "Loaded fixed-width table: "))
                    (parseFixedWidthTable text)
    else None.
Proof.
  unfold fixedWidthBlock, fixedWidthOwns. destruct (isFixedWidthTable text); [|done].
  by destruct (parseFixedWidthTable text).
Qed.

Lemma formatFromText_nonblank (this : State) :
  trim (pasteInput_value page) <> [] ->
  formatFromText B page this
  = let text := trim (pasteInput_value page) in
    orElse (boxBlock page this text)
    (orElse (markdownBlock page this text)
    (orElse (jsonBlock B page this text)
    (orElse (fixedWidthBlock page this text)
    (fallback page this text)))).
Proof.
  intros Hne. unfold formatFromText, str_eqb.
  by rewrite bool_decide_eq_false_2.
Qed.

Lemma formatFromText_fallback (this : State) :
  let text := trim (pasteInput_value page) in
  text <> [] -> boxOwns text = false -> markdownOwns text = false ->
  isJSONArray B text = false -> fixedWidthOwns text = false ->
  formatFromText B page this = fallback page this text.
Proof.
  intros text Hne Hbox Hmd Hjson Hfw.
  rewrite (formatFromText_nonblank this Hne). cbv zeta. fold text.
  rewrite boxBlock_owns, markdownBlock_owns, jsonBlock_owns, fixedWidthBlock_owns.
  by rewrite Hbox, Hmd, Hjson, Hfw.
Qed.

End Classifier.

(** C2 (amended). For every non-blank input, [formatFromText] goes through
    box table, Markdown, JSON array and fixed-width in this order, with
    delimited text as the fallback; the first of them whose detector matches
    and whose parser gives at least one table produces the table set and the
    whole outcome, and nothing after it is consulted; a detector that matches
    while its parser gives no table is passed over. In particular an input
    that matches both the box and the Markdown patterns is parsed as a box
    table when the box parser gives a table. *)
Theorem classifier_priority (B : Builtins) (page : Page) (this : State) :
  let text := trim (pasteInput_value page) in
  let result := formatFromText B page this in
  text <> [] ->
  (boxOwns text = true ->
     result = loadTables page this (parseDatabricksFormat text) (js " table(s), ")
     /\ st_tables result.1 = parseDatabricksFormat text)
  /\ (boxOwns text = false -> markdownOwns text = true ->
        result = loadTables page this (parseMarkdownTable text)
                            (js " Markdown table(s), ")
        /\ st_tables result.1 = parseMarkdownTable text)
  /\ (boxOwns text = false -> markdownOwns text = false ->
      isJSONArray B text = true ->
        exists table, parseJSONArray B text = Some table
          /\ result = loadTable page this table (js "Loaded JSON data: ")
          /\ st_tables result.1 = [table])
  /\ (boxOwns text = false -> markdownOwns text = false ->
      isJSONArray B text = false -> fixedWidthOwns text = true ->
        exists table, parseFixedWidthTable text = Some table
          /\ result = loadTable page this table (js "Loaded fixed-width table: ")
          /\ st_tables result.1 = [table])
  /\ (boxOwns text = false -> markdownOwns text = false ->
      isJSONArray B text = false -> fixedWidthOwns text = false ->
        result = fallback page this text /\ st_tables result.1 = []).
Proof.
  intros text result Hne. subst result.
  rewrite (formatFromText_nonblank B page this Hne). cbv zeta. fold text.
  rewrite boxBlock_owns, markdownBlock_owns, jsonBlock_owns, fixedWidthBlock_owns.
  split; [|split; [|split; [|split]]].
  - intros Hbox. rewrite Hbox. cbn [orElse].
    split; [done|]. apply loadTables_tables.
  - intros Hbox Hmd. rewrite Hbox, Hmd. cbn [orElse].
    split; [done|]. apply loadTables_tables.
  - intros Hbox Hmd Hjson. rewrite Hbox, Hmd, Hjson.
    destruct (isJSONArray_parses B text Hjson) as [table Htable].
    exists table. rewrite Htable. cbn [orElse option_map].
    split; [done|]. split; [done|]. apply loadTable_tables.
  - intros Hbox Hmd Hjson Hfw. rewrite Hbox, Hmd, Hjson, Hfw.
    unfold fixedWidthOwns in Hfw. apply andb_true_iff in Hfw as [_ Hfw].
    destruct (parseFixedWidthTable text) as [table|]; [|done].
    exists table. cbn [orElse option_map].
    split; [done|]. split; [done|]. apply loadTable_tables.
  - intros Hbox Hmd Hjson Hfw. rewrite Hbox, Hmd, Hjson, Hfw. cbn [orElse].
    split; [done|]. apply fallback_tables.
Qed.


Lemma classifier_priority_witness :
  (forall B : Builtins,
     st_tables (formatFromText B (auto_page markdown_sample) initial_state).1
     = parseMarkdownTable markdown_sample)
  /\ parseMarkdownTable markdown_sample
     = [mkTable (js "Table 1") [js "a"; js "b"] [[js "1"; js "2"]]].
Proof.
  split; [|vm_compute; reflexivity].
  intros B.
  destruct (classifier_priority B (auto_page markdown_sample) initial_state)
    as (_ & Hmd & _).
  - vm_compute. discriminate.
  - destruct Hmd as [_ Htables].
    + vm_compute. reflexivity.
    + vm_compute. reflexivity.
    + exact Htables.
Defined.


(** C2 as stated fails: this input matches both the box and the Markdown
    detection patterns, the box parser finds no table in it, and it is parsed
    as a Markdown table. *)
Lemma classifier_box_match_passed_over :
  isDatabricksFormat border_then_markdown = true
  /\ isMarkdownTable border_then_markdown = true
  /\ parseDatabricksFormat border_then_markdown = []
  /\ parseMarkdownTable border_then_markdown
     = [mkTable (js "Table 1") [js "a"; js "b"] [[js "1"; js "2"]]]
  /\ forall B : Builtins,
       st_tables (formatFromText B (auto_page border_then_markdown)
                                 initial_state).1
       = [mkTable (js "Table 1") [js "a"; js "b"] [[js "1"; js "2"]]].
Proof.
  repeat split; vm_compute; reflexivity.
Qed.

(** C9 (amended). Every failing action leaves the Canonical Document State
    (headers, data, filteredData, sort column and direction) as it was and
    shows one notification. On blank input that notification is the only
    effect; a pasted text for which no detector gives a table and the
    fallback gives no row also empties the stored table set and updates the
    table selector. *)
Theorem failure_keeps_document (B : Builtins) (page : Page) (this : State) :
  let text := trim (pasteInput_value page) in
  (text = [] ->
     formatFromText B page this
     = (this, [ShowToast (js "Please enter some data first")]))
  /\ (text <> [] /\ boxOwns text = false /\ markdownOwns text = false
      /\ isJSONArray B text = false /\ fixedWidthOwns text = false
      /\ parseCSV text (chosenDelimiter page text) = [] ->
        formatFromText B page this
        = (setTables this [],
           updateTableSelector page (setTables this [])
           ++ [ShowToast (js "No data found")])
        /\ canonical (formatFromText B page this).1 = canonical this).
Proof.
  intros text. split.
  - intros Hblank. unfold formatFromText. fold text. by rewrite Hblank.
  - intros (Hne & Hbox & Hmd & Hjson & Hfw & Hrows).
    rewrite (formatFromText_fallback B page this Hne Hbox Hmd Hjson Hfw).
    unfold fallback. fold text. rewrite Hrows. simpl. done.
Qed.

Lemma failure_keeps_document_witness :
  let page := auto_page (js ",") in
  forallb (fun b => negb b)
          [boxOwns (js ","); markdownOwns (js ","); fixedWidthOwns (js ",")]
  = true
  /\ parseCSV (js ",") (chosenDelimiter page (js ",")) = []
  /\ forall B : Builtins,
       canonical (formatFromText B page two_tables_loaded).1
       = canonical two_tables_loaded.
Proof.
  split; [vm_compute; reflexivity|]. split; [vm_compute; reflexivity|].
  intros B.
  destruct (failure_keeps_document B (auto_page (js ",")) two_tables_loaded)
    as (_ & Hzero).
  apply Hzero. vm_compute. repeat split; try reflexivity. discriminate.
Defined.

(** C9 as stated fails in its last part: when a pasted text gives no rows,
    the notification is not the only effect; the table set loaded before is
    emptied and the table selector is hidden. *)
Lemma failure_clears_table_set :
  let page := auto_page (js ",") in
  st_headers two_tables_loaded = [js "Table"; js "a"; js "b"; js "c"]
  /\ length (st_tables two_tables_loaded) = 2%nat
  /\ forall B : Builtins,
       st_tables (formatFromText B page two_tables_loaded).1 = []
       /\ (formatFromText B page two_tables_loaded).2
          = [HideTableSelector; ShowToast (js "No data found")].
Proof.
  split; [vm_compute; reflexivity|]. split; [reflexivity|].
  intros B. vm_compute. split; reflexivity.
Qed.

(** * Further properties of the code *)

(** ** [trim] *)

Section Trim.

Lemma trimStart_idem (s : list N) : trimStart (trimStart s) = trimStart s.
Proof.
  induction s as [|c s IH]; simpl; [done|].
  destruct (isWhiteSpace c) eqn:E; [done|]. simpl. by rewrite E.
Qed.

Lemma trimStart_snoc_keep (s : list N) (c : N) :
  isWhiteSpace c = false -> trimStart (s ++ [c]) = trimStart s ++ [c].
Proof.
  intros Hc. induction s as [|x s IH]; simpl; [by rewrite Hc|].
  by destruct (isWhiteSpace x).
Qed.

Lemma trimStart_snoc_ws (s : list N) (w : N) :
  isWhiteSpace w = true ->
  trimStart (s ++ [w])
  = match trimStart s with [] => [] | _ => trimStart s ++ [w] end.
Proof.
  intros Hw. induction s as [|x s IH]; simpl; [by rewrite Hw|].
  by destruct (isWhiteSpace x).
Qed.

Lemma trimEnd_snoc_ws (s : list N) (w : N) :
  isWhiteSpace w = true -> trimEnd (s ++ [w]) = trimEnd s.
Proof.
  intros Hw. unfold trimEnd. rewrite rev_app_distr. simpl. by rewrite Hw.
Qed.

Lemma trimEnd_idem (s : list N) : trimEnd (trimEnd s) = trimEnd s.
Proof. unfold trimEnd. by rewrite rev_involutive, trimStart_idem. Qed.

(** Trimming the end of a string that starts with a code unit that is no
    white space keeps that start. *)
Lemma trimEnd_cons_keep (c : N) (s : list N) :
  isWhiteSpace c = false ->
  exists r, trimEnd (c :: s) = c :: r.
Proof.
  intros Hc. unfold trimEnd. simpl.
  rewrite trimStart_snoc_keep by done. rewrite rev_app_distr. simpl.
  by eexists.
Qed.

Lemma trim_idem (s : list N) : trim (trim s) = trim s.
Proof.
  unfold trim. set (t := trimStart s).
  assert (Ht : trimStart (trimEnd t) = trimEnd t).
  { subst t. destruct s as [|c s]; [done|].
    assert (Hhead : trimStart (c :: s) = []
                    \/ exists x r, trimStart (c :: s) = x :: r
                                   /\ isWhiteSpace x = false).
    { generalize (c :: s). intros l. induction l as [|y l IH]; simpl.
      - by left.
      - destruct (isWhiteSpace y) eqn:E; [done|]. right. by exists y, l. }
    destruct Hhead as [->|(x & r & -> & Hx)]; [done|].
    destruct (trimEnd_cons_keep x r Hx) as [r' ->]. simpl. by rewrite Hx. }
  by rewrite Ht, trimEnd_idem.
Qed.

Lemma trim_snoc_ws (s : list N) (w : N) :
  isWhiteSpace w = true -> trim (s ++ [w]) = trim s.
Proof.
  intros Hw. unfold trim. rewrite trimStart_snoc_ws by done.
  destruct (trimStart s) as [|x r] eqn:E; [done|].
  by rewrite trimEnd_snoc_ws.
Qed.

End Trim.

(** ** What [parseCSV] returns *)

Section ParsedRows.

Import Machine.

Variable delimiter : list N.

Lemma clean_end_cell (m : Config) : clean m -> clean (end_cell m).
Proof.
  intros [Hk Hr]. split; [done|]. simpl.
  apply Forall_app. split; [done|]. constructor; [apply trim_idem|constructor].
Qed.

Lemma clean_end_row (m : Config) : clean m -> clean (end_row m).
Proof.
  intros [Hk Hr]. split; [|constructor]. simpl. unfold keep.
  destruct (some_nonempty _) eqn:E; [|done].
  apply Forall_app. split; [done|]. constructor; [|constructor].
  split; [done|]. apply Forall_app. split; [done|].
  constructor; [apply trim_idem|constructor].
Qed.

Lemma run_clean (input : list N) : forall m : Config,
  clean m -> clean (run delimiter input m).
Proof.
  remember (length input) as n eqn:Hn. revert input Hn.
  induction n as [n IH] using lt_wf_ind. intros input Hn m Hm.
  assert (IH' : forall i, length i < length input ->
            forall m', clean m' -> clean (run delimiter i m')).
  { intros i Hi. apply (IH (length i)); [lia|done]. }
  clear IH Hn. rename IH' into IH.
  destruct input as [|c rest]; [done|]. simpl.
  assert (IH1 : forall m', clean m' -> clean (run delimiter rest m'))
    by (intros; apply IH; [simpl; lia|done]).
  assert (IH2 : forall x rest', rest = x :: rest' ->
            forall m', clean m' -> clean (run delimiter rest' m')).
  { intros x rest' -> m' Hm'. apply IH; [simpl; lia|done]. }
  destruct (mode m).
  - destruct (c =? QUOTE)%N; [by apply IH1|].
    destruct (is_delimiter c delimiter); [by apply IH1, clean_end_cell|].
    destruct (c =? LF)%N; [by apply IH1, clean_end_row|].
    destruct (c =? CR)%N; [|by apply IH1].
    destruct rest as [|c' rest']; [done|].
    destruct (c' =? LF)%N; [|by apply IH1].
    by apply (IH2 c' rest' eq_refl), clean_end_row.
  - destruct (c =? QUOTE)%N; [|by apply IH1].
    destruct rest as [|c' rest']; [done|].
    destruct (c' =? QUOTE)%N; [|by apply IH1].
    by apply (IH2 c' rest' eq_refl).
Qed.

End ParsedRows.

Lemma parseCSV_clean (text delimiter : list N) :
  Forall clean_row (parseCSV text delimiter).
Proof.
  rewrite parseCSV_machine. unfold Machine.parse.
  apply (clean_end_row (Machine.run delimiter text Machine.start)).
  apply run_clean. split; constructor.
Qed.

(** X1. Whatever the text and the delimiter, every row that [parseCSV] returns
    has at least one non-empty cell, and every cell of it is trimmed: it has
    no white space at either end. *)
Theorem parseCSV_rows_clean (text delimiter : list N) :
  Forall (fun row => some_nonempty row = true
                     /\ Forall (fun cell => trim cell = cell) row)
         (parseCSV text delimiter).
Proof. exact (parseCSV_clean text delimiter). Qed.

Section TrailingNewline.

Import Machine.

Variable delimiter : list N.
Hypothesis delimiter_not_LF : delimiter <> [LF].

Lemma end_row_twice (m : Config) :
  mode m = unquoted ->
  kept (end_row (run delimiter [LF] m)) = kept (end_row m).
Proof.
  intros Hm. simpl. rewrite Hm. change (LF =? QUOTE)%N with false.
  unfold is_delimiter, str_eqb. rewrite bool_decide_eq_false_2 by congruence.
  reflexivity.
Qed.

Lemma end_row_quoted_newline (m : Config) :
  mode m = quoted ->
  kept (end_row (run delimiter [LF] m)) = kept (end_row m).
Proof.
  intros Hm. simpl. rewrite Hm. change (LF =? QUOTE)%N with false.
  cbn [end_row emit kept cell row]. by rewrite trim_snoc_ws.
Qed.

Lemma end_row_newline (m : Config) :
  kept (end_row (run delimiter [LF] m)) = kept (end_row m).
Proof.
  destruct (mode m) eqn:E; [by apply end_row_twice|by apply end_row_quoted_newline].
Qed.

Lemma run_trailing_newline (input : list N) : forall m : Config,
  kept (end_row (run delimiter (input ++ [LF]) m))
  = kept (end_row (run delimiter input m)).
Proof.
  remember (length input) as n eqn:Hn. revert input Hn.
  induction n as [n IH] using lt_wf_ind. intros input Hn m.
  assert (IH' : forall i, length i < length input -> forall m',
            kept (end_row (run delimiter (i ++ [LF]) m'))
            = kept (end_row (run delimiter i m'))).
  { intros i Hi. apply (IH (length i)); [lia|done]. }
  clear IH Hn. rename IH' into IH.
  destruct input as [|c rest]; [apply end_row_newline|].
  assert (IH1 : forall m',
            kept (end_row (run delimiter (rest ++ [LF]) m'))
            = kept (end_row (run delimiter rest m')))
    by (intros; apply IH; simpl; lia).
  change ((c :: rest) ++ [LF]) with (c :: (rest ++ [LF])).
  cbn [run]. destruct (mode m) eqn:Em.
  - destruct (c =? QUOTE)%N; [apply IH1|].
    destruct (is_delimiter c delimiter); [apply IH1|].
    destruct (c =? LF)%N; [apply IH1|].
    destruct (c =? CR)%N; [|apply IH1].
    destruct rest as [|c' rest'].
    + change ([] ++ [LF]) with [LF]. change (LF =? LF)%N with true.
      reflexivity.
    + cbn [app].
      destruct (c' =? LF)%N; [apply IH; simpl; lia|].
      apply (IH (c' :: rest')). simpl. lia.
  - destruct (c =? QUOTE)%N; [|apply IH1].
    destruct rest as [|c' rest'].
    + change ([] ++ [LF]) with [LF]. change (LF =? QUOTE)%N with false.
      by apply (end_row_twice (exit_quoted m)).
    + cbn [app].
      destruct (c' =? QUOTE)%N; [apply IH; simpl; lia|].
      apply (IH (c' :: rest')). simpl. lia.
Qed.

End TrailingNewline.

(** X2. A line feed at the end of the text adds no row and changes no cell:
    unless the delimiter is itself the line feed, [parseCSV] returns the same
    rows for a text with and without one final line feed. *)
Theorem parseCSV_trailing_newline (text delimiter : list N) :
  delimiter <> [LF] ->
  parseCSV (text ++ [LF]) delimiter = parseCSV text delimiter.
Proof.
  intros Hd. rewrite !parseCSV_machine. unfold Machine.parse.
  by apply run_trailing_newline.
Qed.

Lemma parseCSV_trailing_newline_witness :
  [COMMA] <> [LF]
  /\ parseCSV (js "a,b" ++ [LF]) [COMMA] = parseCSV (js "a,b") [COMMA].
Proof.
  split; [discriminate|].
  apply (parseCSV_trailing_newline (js "a,b") [COMMA]). discriminate.
Defined.

(** ** Sorting and filtering the rows shown *)

Section SortFilter.

Variable toLowerCase : list N -> list N.

Lemma insert_sorted_perm {A} (compare : A -> A -> float) (x : A) (l : list A) :
  insert_sorted compare x l ≡ₚ x :: l.
Proof.
  induction l as [|y l IH]; simpl; [done|].
  destruct (0 <? compare y x)%float; [done|].
  rewrite IH. apply Permutation_swap.
Qed.

Lemma array_sort_perm {A} (compare : A -> A -> float) (l : list A) :
  array_sort compare l ≡ₚ l.
Proof.
  unfold array_sort.
  assert (H : forall acc, fold_left (fun sorted x => insert_sorted compare x sorted)
                                    l acc ≡ₚ acc ++ l).
  { induction l as [|x l IH]; intros acc; simpl; [by rewrite app_nil_r|].
    rewrite IH, insert_sorted_perm. simpl. apply Permutation_middle. }
  apply H.
Qed.

Lemma str_includes_spec (needle hay : list N) :
  str_includes needle hay = true
  <-> exists pre post, hay = pre ++ needle ++ post.
Proof.
  assert (Hp : forall p s, is_prefix p s = true <-> exists post, s = p ++ post).
  { induction p as [|x p IH]; intros s; simpl.
    - split; [by exists s|done].
    - destruct s as [|y s]; simpl.
      + split; [done|]. by intros (post & H).
      + rewrite andb_true_iff, IH, N.eqb_eq. split.
        * intros (-> & post & ->). by exists post.
        * intros (post & H). injection H as -> ->. split; [done|by exists post]. }
  unfold str_includes. rewrite existsb_exists. split.
  - intros (t & Ht & Hpre). apply suffixes_spec in Ht as (pre & ->).
    apply Hp in Hpre as (post & ->). by exists pre, post.
  - intros (pre & post & ->). exists (needle ++ post). split.
    + apply suffixes_spec. by exists pre.
    + apply Hp. by exists post.
Qed.

Lemma filter_sublist {A} (f : A -> bool) (l : list A) :
  sublist (List.filter f l) l.
Proof.
  induction l as [|x l IH]; simpl; [done|].
  destruct (f x); [by apply sublist_skip|by apply sublist_cons].
Qed.

End SortFilter.

(** X3. [sortTable] only reorders the rows shown: whatever the column and the
    case mapping, the rows shown afterwards are a permutation of the rows
    shown before, and the data, the headers, the table set and the selected
    table are what they were. *)
Theorem sortTable_reorders_shown_rows (toLowerCase : list N -> list N)
    (this : State) (columnIndex : Z) :
  st_filteredData (sortTable toLowerCase this columnIndex).1
    ≡ₚ st_filteredData this
  /\ st_data (sortTable toLowerCase this columnIndex).1 = st_data this
  /\ st_headers (sortTable toLowerCase this columnIndex).1 = st_headers this
  /\ st_tables (sortTable toLowerCase this columnIndex).1 = st_tables this
  /\ st_currentTableIndex (sortTable toLowerCase this columnIndex).1
     = st_currentTableIndex this.
Proof.
  unfold sortTable.
  destruct (st_sortColumn this =? columnIndex)%Z; simpl;
    (split; [apply array_sort_perm|done]).
Qed.

(** X4. With a search term that is not empty once lower-cased, [filterTable]
    shows exactly the rows of the data in which some cell, lower-cased,
    contains the lower-cased term as a substring. *)
Theorem filterTable_shows_matching_rows (toLowerCase : list N -> list N)
    (searchInput_value : list N) (this : State) (row : list (list N)) :
  toLowerCase searchInput_value <> [] ->
  row ∈ st_filteredData (filterTable toLowerCase searchInput_value this).1
  <-> row ∈ st_data this
      /\ exists cell pre post,
           cell ∈ row
           /\ toLowerCase cell = pre ++ toLowerCase searchInput_value ++ post.
Proof.
  intros Hterm. unfold filterTable. cbn [fst st_filteredData].
  unfold str_eqb. rewrite bool_decide_eq_false_2 by done.
  rewrite !list_elem_of_In, filter_In. unfold rowMatches.
  rewrite existsb_exists. split.
  - intros (Hin & cell & Hc & Hm). split; [done|].
    apply str_includes_spec in Hm as (pre & post & Hm).
    exists cell, pre, post. by rewrite list_elem_of_In.
  - intros (Hin & cell & pre & post & Hc & Hm). split; [done|].
    exists cell. split; [by apply list_elem_of_In|].
    apply str_includes_spec. by exists pre, post.
Qed.

Lemma filterTable_shows_matching_rows_witness :
  [js "Ab"; js "c"]
    ∈ st_filteredData
        (filterTable ascii_toLowerCase (js "B")
           (mkState [[js "Ab"; js "c"]; [js "d"]] [js "h"; js "k"] (-1) asc
                    [] [] 0)).1
  <-> [js "Ab"; js "c"] ∈ [[js "Ab"; js "c"]; [js "d"]]
      /\ exists cell pre post,
           cell ∈ [js "Ab"; js "c"]
           /\ ascii_toLowerCase cell = pre ++ ascii_toLowerCase (js "B") ++ post.
Proof.
  apply (filterTable_shows_matching_rows ascii_toLowerCase (js "B")
           (mkState [[js "Ab"; js "c"]; [js "d"]] [js "h"; js "k"] (-1) asc
                    [] [] 0)).
  vm_compute. discriminate.
Defined.

(** X5. [filterTable] filters the data, not the rows shown: the rows it shows
    are rows of the data in the order of the data (all of them when the
    lower-cased term is empty), so filtering after [sortTable] shows the same
    rows as filtering without it, while the sort column stays the sorted
    one. *)
Theorem filterTable_discards_sort_order (toLowerCase : list N -> list N)
    (searchInput_value : list N) (this : State) (columnIndex : Z) :
  sublist (st_filteredData (filterTable toLowerCase searchInput_value this).1)
          (st_data this)
  /\ (toLowerCase searchInput_value = [] ->
      st_filteredData (filterTable toLowerCase searchInput_value this).1
      = st_data this)
  /\ st_filteredData
       (filterTable toLowerCase searchInput_value
          (sortTable toLowerCase this columnIndex).1).1
     = st_filteredData (filterTable toLowerCase searchInput_value this).1
  /\ st_sortColumn
       (filterTable toLowerCase searchInput_value
          (sortTable toLowerCase this columnIndex).1).1
     = columnIndex.
Proof.
  split; [|split; [|split]].
  - unfold filterTable. cbn [fst st_filteredData].
    destruct (str_eqb _ _); [done|apply filter_sublist].
  - intros Hterm. unfold filterTable. cbn [fst st_filteredData].
    unfold str_eqb. by rewrite bool_decide_eq_true_2.
  - unfold filterTable, sortTable.
    by destruct (st_sortColumn this =? columnIndex)%Z.
  - unfold filterTable, sortTable.
    destruct (st_sortColumn this =? columnIndex)%Z eqn:E; simpl; [|done].
    by apply Z.eqb_eq.
Qed.

(** ** Views of the table set *)

Lemma getCommonHeaders_of_tables (a b : State) :
  st_tables a = st_tables b -> getCommonHeaders a = getCommonHeaders b.
Proof. intros H. unfold getCommonHeaders. by rewrite H. Qed.

Lemma padRowToHeaders_of_tables (a b : State) (row ths : list (list N)) :
  st_tables a = st_tables b ->
  padRowToHeaders a row ths = padRowToHeaders b row ths.
Proof.
  intros H. unfold padRowToHeaders. by rewrite (getCommonHeaders_of_tables a b H).
Qed.

Lemma padRowToHeaders_width (this : State) (row ths : list (list N)) :
  length (padRowToHeaders this row ths) = length (getCommonHeaders this).
Proof. rewrite padRowToHeaders_padded. apply padded_length. Qed.

Lemma getCommonHeaders_covers (this : State) (t : Table) (h : list N) :
  t ∈ st_tables this -> h ∈ headers t -> h ∈ getCommonHeaders this.
Proof.
  intros Ht Hh. unfold getCommonHeaders.
  destruct (st_tables this) as [|t0 ts] eqn:E; [by apply elem_of_nil in Ht|].
  cbv zeta. rewrite allSame_Forall. case_bool_decide as Hsame.
  - rewrite Forall_forall in Hsame. by rewrite <- (Hsame t Ht).
  - rewrite fold_tables.
    change (∅ : gset (list N)) with (list_to_set [] : gset (list N)).
    rewrite collect_first_seen. simpl. rewrite filter_unseen_nil.
    apply (union_of_headers_elem (t0 :: ts)). by exists t.
Qed.

Lemma totalRows_from (ts : list Table) : forall n : nat,
  fold_left (fun sum t => (sum + length (data t))%nat) ts n
  = (n + length (flat_map data ts))%nat.
Proof.
  induction ts as [|t ts IH]; intros n; simpl; [lia|].
  rewrite IH, length_app. lia.
Qed.

Lemma switchToTable_of_view (a b : State) (index : Z) :
  st_tables a = st_tables b -> st_sortDirection a = st_sortDirection b ->
  (index = (-1)%Z \/ (0 <= index < Z.of_nat (length (st_tables a)))%Z) ->
  switchToTable a index = switchToTable b index.
Proof.
  intros Hts Hdir Hvalid. unfold switchToTable.
  rewrite (getCommonHeaders_of_tables a b Hts), <- Hts, Hdir.
  destruct (index =? -1)%Z eqn:E1.
  - assert (Hrows : forall table : Table,
              map (fun row => name table :: padRowToHeaders a row (headers table))
                  (data table)
              = map (fun row => name table :: padRowToHeaders b row (headers table))
                    (data table)).
    { intros table. apply map_ext. intros row.
      by rewrite (padRowToHeaders_of_tables a b). }
    by rewrite (flat_map_ext _ _ Hrows).
  - destruct Hvalid as [->|Hrange]; [done|].
    replace ((0 <=? index)%Z && (index <? Z.of_nat (length (st_tables a)))%Z)
      with true by (symmetry; apply andb_true_iff; lia).
    destruct (st_tables a !! Z.to_nat index) as [table|] eqn:E3; [done|].
    apply lookup_ge_None in E3. lia.
Qed.

Lemma switchToTable_direction (this : State) (index : Z) :
  st_sortDirection (switchToTable this index).1 = st_sortDirection this.
Proof.
  unfold switchToTable. destruct (index =? -1)%Z; [done|].
  destruct (_ && _); [|done]. by destruct (st_tables this !! Z.to_nat index).
Qed.

(** X6. Selecting the view that is already shown changes nothing: for every
    index, in range or not, a second [switchToTable] with the same index
    gives the state and the effects of the first. *)
Theorem switchToTable_idempotent (this : State) (index : Z) :
  switchToTable (switchToTable this index).1 index = switchToTable this index.
Proof.
  destruct (decide (index = (-1)%Z
                    \/ (0 <= index < Z.of_nat (length (st_tables this)))%Z))
    as [Hvalid|Hinvalid].
  - apply switchToTable_of_view.
    + apply switchToTable_tables.
    + apply switchToTable_direction.
    + by rewrite switchToTable_tables.
  - assert (Hnone : switchToTable this index = (this, [])).
    { unfold switchToTable.
      destruct (index =? -1)%Z eqn:E1; [apply Z.eqb_eq in E1; tauto|].
      destruct ((0 <=? index)%Z && (index <? Z.of_nat (length (st_tables this)))%Z)
        eqn:E2; [|done].
      apply andb_true_iff in E2. exfalso. apply Hinvalid. right. lia. }
    by rewrite Hnone.
Qed.

Lemma switchToTable_all_shape (this : State) :
  st_headers (switchToTable this (-1)).1 = js "Table" :: getCommonHeaders this
  /\ Forall (fun row => length row = length (st_headers (switchToTable this (-1)).1))
            (st_data (switchToTable this (-1)).1)
  /\ length (st_data (switchToTable this (-1)).1) = totalRows (st_tables this)
  /\ st_filteredData (switchToTable this (-1)).1 = st_data (switchToTable this (-1)).1
  /\ st_sortColumn (switchToTable this (-1)).1 = (-1)%Z.
Proof.
  unfold switchToTable. change (-1 =? -1)%Z with true.
  cbn [fst st_headers st_data st_filteredData st_sortColumn].
  split; [done|]. split; [|split; [|done]].
  - apply Forall_forall. intros row Hrow.
    apply list_elem_of_In, in_flat_map in Hrow as (table & _ & Hrow).
    apply in_map_iff in Hrow as (r & <- & _).
    cbn [length]. by rewrite padRowToHeaders_width.
  - unfold totalRows. rewrite totalRows_from. cbn [Nat.add].
    induction (st_tables this) as [|t ts IH]; [done|].
    cbn [flat_map]. by rewrite !length_app, length_map, IH.
Qed.

(** X7. The "All Tables" view is rectangular and complete: after
    [switchToTable(-1)] the headers are "Table" followed by the common
    headers, every row of the data has as many cells as there are headers,
    there is one row for each data row of each table, and the rows shown are
    the data. *)
Theorem switchToTable_all_rectangular (this : State) :
  st_headers (switchToTable this (-1)).1 = js "Table" :: getCommonHeaders this
  /\ Forall (fun row => length row = length (st_headers (switchToTable this (-1)).1))
            (st_data (switchToTable this (-1)).1)
  /\ length (st_data (switchToTable this (-1)).1) = totalRows (st_tables this)
  /\ st_filteredData (switchToTable this (-1)).1 = st_data (switchToTable this (-1)).1
  /\ st_sortColumn (switchToTable this (-1)).1 = (-1)%Z.
Proof. exact (switchToTable_all_shape this). Qed.

(** ** [processData] *)

Lemma fold_max_from (l : list nat) : forall a : nat,
  (a <= fold_left Nat.max l a)%nat
  /\ Forall (fun n => (n <= fold_left Nat.max l a)%nat) l.
Proof.
  induction l as [|x l IH]; intros a; simpl; [by split|].
  destruct (IH (Nat.max a x)) as [H1 H2]. split; [lia|].
  constructor; [lia|done].
Qed.

Lemma padRow_length (maxCols : nat) (row : list (list N)) :
  (length row <= maxCols)%nat -> length (padRow maxCols row) = maxCols.
Proof. intros H. unfold padRow. rewrite length_app, length_replicate. lia. Qed.

Lemma padded_rows_width (rows : list (list (list N))) :
  Forall (fun row => length row = fold_left Nat.max (map length rows) 0%nat)
         (map (padRow (fold_left Nat.max (map length rows) 0%nat)) rows).
Proof.
  destruct (fold_max_from (map length rows) 0) as [_ H].
  rewrite Forall_map in H. rewrite Forall_map.
  eapply Forall_impl; [exact H|]. intros row Hrow. by apply padRow_length.
Qed.

Lemma processData_shape (page : Page) (this : State)
    (rows : list (list (list N))) :
  rows <> [] ->
  length (st_headers (processData page this rows).1)
    = fold_left Nat.max (map length rows) 0%nat
  /\ Forall (fun row => length row = fold_left Nat.max (map length rows) 0%nat)
            (st_data (processData page this rows).1)
  /\ length (st_data (processData page this rows).1)
     = (if firstRowHeader_checked page then length rows - 1 else length rows)%nat
  /\ st_filteredData (processData page this rows).1
     = st_data (processData page this rows).1
  /\ st_sortColumn (processData page this rows).1 = (-1)%Z.
Proof.
  intros Hrows. unfold processData.
  destruct rows as [|r0 rows]; [done|]. clear Hrows.
  change (length (r0 :: rows) =? 0)%nat with false. cbv zeta.
  pose proof (padded_rows_width (r0 :: rows)) as Hw.
  set (maxCols := fold_left Nat.max (map length (r0 :: rows)) 0%nat) in *.
  change (map (padRow maxCols) (r0 :: rows))
    with (padRow maxCols r0 :: map (padRow maxCols) rows) in *.
  apply Forall_cons in Hw as [Hw0 Hw].
  cbn [length head default]. change (0 <? S _)%nat with true.
  rewrite andb_true_r.
  destruct (firstRowHeader_checked page);
    cbn [fst st_headers st_data st_filteredData st_sortColumn drop].
  - unfold id. rewrite drop_0, length_map. repeat split; [done|done|lia].
  - unfold id. rewrite length_map, length_seq.
    repeat split; [done|by constructor|]. cbn [length]. by rewrite length_map.
Qed.

(** X8. [processData] makes the document rectangular: for a non-empty list of
    rows, the headers and every data row get the length of the longest row,
    whether or not the first row is taken as the header; the rows shown are
    the data and no column is the sort column. *)
Theorem processData_rectangular (page : Page) (this : State)
    (rows : list (list (list N))) :
  rows <> [] ->
  length (st_headers (processData page this rows).1)
    = fold_left Nat.max (map length rows) 0%nat
  /\ Forall (fun row => length row = fold_left Nat.max (map length rows) 0%nat)
            (st_data (processData page this rows).1)
  /\ length (st_data (processData page this rows).1)
     = (if firstRowHeader_checked page then length rows - 1 else length rows)%nat
  /\ st_filteredData (processData page this rows).1
     = st_data (processData page this rows).1
  /\ st_sortColumn (processData page this rows).1 = (-1)%Z.
Proof. exact (processData_shape page this rows). Qed.

Lemma processData_rectangular_witness :
  length (st_headers
            (processData (auto_page []) initial_state
               [[js "a"]; [js "1"; js "2"; js "3"]; [js "4"; js "5"]]).1)
  = 3%nat.
Proof.
  apply (processData_rectangular (auto_page []) initial_state
           [[js "a"]; [js "1"; js "2"; js "3"]; [js "4"; js "5"]]).
  discriminate.
Defined.

(** ** Rows against the common headers *)

Lemma NoDup_indexOf (hs : list (list N)) (p : nat) (h : list N) :
  NoDup hs -> hs !! p = Some h -> indexOf hs h = Z.of_nat p.
Proof.
  intros Hnd Hp.
  destruct (indexOf_inv hs h) as [[_ Hnot]|(n & -> & Hn & _)].
  - exfalso. apply Hnot. by eapply list_elem_of_lookup_2.
  - f_equal. by eapply NoDup_lookup.
Qed.

Lemma padded_same_headers (hs row : list (list N)) :
  NoDup hs ->
  padded hs row hs
  = take (length hs) row ++ replicate (length hs - length row) [].
Proof.
  intros Hnd. apply list_eq. intros p.
  destruct (decide (p < length hs)%nat) as [Hp|Hp].
  - destruct (lookup_lt_is_Some_2 hs p Hp) as [h Hh].
    destruct (decide (p < length row)%nat) as [Hr|Hr].
    + destruct (lookup_lt_is_Some_2 row p Hr) as [v Hv].
      rewrite lookup_app_l by (rewrite length_take; lia).
      rewrite lookup_take_lt by done. rewrite Hv.
      pose proof (padded_placed hs row hs p h v Hh Hv) as H.
      rewrite (NoDup_indexOf hs p h Hnd Hh), Nat2Z.id in H.
      apply H; [by eapply list_elem_of_lookup_2|].
      intros j Hj _ Hj'. pose proof (NoDup_lookup hs p j h Hnd Hh Hj'). lia.
    + rewrite lookup_app_r by (rewrite length_take; lia).
      rewrite length_take, lookup_replicate_2 by lia.
      apply padded_empty; [done|].
      intros i h' Hi Hlt. rewrite (NoDup_indexOf hs i h' Hnd Hi). lia.
  - rewrite !lookup_ge_None_2; [done| |].
    + rewrite length_app, length_take, length_replicate. lia.
    + rewrite padded_length. lia.
Qed.

(** X9. When every table of the set has the same header list, and that list
    has no repeated name, [padRowToHeaders] returns a row of a table as it
    is, cut to the number of headers or filled up to it with empty
    strings. *)
Theorem padRowToHeaders_same_headers (this : State) (hs row : list (list N)) :
  st_tables this <> [] ->
  Forall (fun t => headers t = hs) (st_tables this) ->
  NoDup hs ->
  padRowToHeaders this row hs
  = take (length hs) row ++ replicate (length hs - length row) [].
Proof.
  intros Hne Hsame Hnd. rewrite padRowToHeaders_padded.
  assert (Hcommon : getCommonHeaders this = hs).
  { unfold getCommonHeaders.
    destruct (st_tables this) as [|t0 ts] eqn:E; [done|]. cbv zeta.
    rewrite allSame_Forall.
    assert (H0 : headers t0 = hs) by (by apply Forall_cons in Hsame as [? _]).
    rewrite H0. by rewrite bool_decide_eq_true_2. }
  rewrite Hcommon. by apply padded_same_headers.
Qed.

Lemma padRowToHeaders_same_headers_witness :
  padRowToHeaders
    (mkState [] [] (-1) asc []
       [mkTable (js "x") [js "a"; js "b"] [[js "1"; js "2"]];
        mkTable (js "y") [js "a"; js "b"] [[js "3"]]] 0)
    [js "3"] [js "a"; js "b"]
  = take 2 [js "3"] ++ replicate (2 - 1) [].
Proof.
  apply (padRowToHeaders_same_headers
           (mkState [] [] (-1) asc []
              [mkTable (js "x") [js "a"; js "b"] [[js "1"; js "2"]];
               mkTable (js "y") [js "a"; js "b"] [[js "3"]]] 0)
           [js "a"; js "b"] [js "3"]).
  - discriminate.
  - repeat constructor.
  - refine (bool_decide_unpack _ _). vm_compute. exact I.
Defined.

(** X10. No cell of a table of the set is lost on the way to the common
    headers: when the table's header names are distinct, each cell of a
    row that has a header stands, in the row that [padRowToHeaders] returns,
    in a column of the common headers that carries the name of its header. *)
Theorem padRowToHeaders_keeps_cells (this : State) (t : Table)
    (row : list (list N)) (i : nat) (h v : list N) :
  t ∈ st_tables this -> NoDup (headers t) ->
  headers t !! i = Some h -> row !! i = Some v ->
  exists p : nat,
    getCommonHeaders this !! p = Some h
    /\ padRowToHeaders this row (headers t) !! p = Some v.
Proof.
  intros Ht Hnd Hh Hv.
  assert (Hin : h ∈ getCommonHeaders this).
  { eapply getCommonHeaders_covers; [done|]. by eapply list_elem_of_lookup_2. }
  destruct (indexOf_elem (getCommonHeaders this) h Hin) as (n & En & Hn).
  exists n. split; [done|].
  rewrite padRowToHeaders_padded.
  pose proof (padded_placed (getCommonHeaders this) row (headers t) i h v Hh Hv Hin)
    as H.
  rewrite En, Nat2Z.id in H. apply H.
  intros j Hj _ Hj'. pose proof (NoDup_lookup (headers t) i j h Hnd Hh Hj'). lia.
Qed.

Lemma padRowToHeaders_keeps_cells_witness :
  exists p : nat,
    getCommonHeaders two_tables !! p = Some (js "c")
    /\ padRowToHeaders two_tables [js "3"; js "4"; js "5"]
                       [js "b"; js "c"; js "a"] !! p
       = Some (js "4").
Proof.
  apply (padRowToHeaders_keeps_cells two_tables
           (mkTable (js "y") [js "b"; js "c"; js "a"] [[js "3"; js "4"; js "5"]])
           [js "3"; js "4"; js "5"] 1 (js "c") (js "4")).
  - apply list_elem_of_In. right. left. reflexivity.
  - refine (bool_decide_unpack _ _). vm_compute. exact I.
  - reflexivity.
  - reflexivity.
Defined.

(** ** What the box parser returns *)

Lemma map_trim_trimmed (l : list (list N)) : trimmed_cells (map trim l).
Proof. apply Forall_map, Forall_forall. intros c _. apply trim_idem. Qed.

Lemma dataCells_trimmed (cleanLine : list N) (cells : list (list N)) :
  dataCells cleanLine = Some cells -> trimmed_cells cells.
Proof.
  unfold dataCells. destruct (_ || _); [|done].
  intros H. injection H as <-. apply map_trim_trimmed.
Qed.

Lemma nameOr_nonempty (o : option (list N)) (n : nat) : nameOr o n <> [].
Proof.
  unfold nameOr. destruct o as [[|c s]|]; try done;
    intros H; apply app_eq_nil in H as [H _]; vm_compute in H; discriminate.
Qed.

Lemma flushTable_ok (s : Scan) :
  scan_ok s ->
  Forall well_formed (flushTable s)
  /\ Forall (fun t => data t <> []) (flushTable s).
Proof.
  intros (Hts & Hdata & Hh & Hr). unfold flushTable.
  destruct (0 <? length (currentRows s))%nat eqn:E1; [|done].
  destruct (0 <? length (currentHeaders s))%nat eqn:E2; [|done].
  apply Nat.ltb_lt in E1, E2. cbn [andb]. split.
  - apply Forall_app. split; [done|]. constructor; [|constructor].
    repeat split; cbn [name headers data]; [apply nameOr_nonempty| |done|done].
    intros H. rewrite H in E2. simpl in E2. lia.
  - apply Forall_app. split; [done|]. constructor; [|constructor].
    cbn [data]. intros H. rewrite H in E1. simpl in E1. lia.
Qed.

Lemma scanLine_ok (s : Scan) (rawLine : list N) :
  scan_ok s -> scan_ok (scanLine s rawLine).
Proof.
  intros Hs. pose proof Hs as (Hts & Hdata & Hh & Hr). unfold scanLine.
  destruct (tableNameMatch (trim rawLine)) as [group|].
  - destruct (flushTable_ok s Hs) as [H1 H2].
    repeat split; cbn [tables currentHeaders currentRows]; try done; constructor.
  - destruct (isSeparator _); [done|].
    destruct (dataCells _) as [cells|] eqn:E; [|done].
    apply dataCells_trimmed in E.
    destruct (negb (headerParsed s)).
    + by repeat split.
    + repeat split; cbn [tables currentHeaders currentRows]; try done.
      apply Forall_app. split; [done|]. by constructor.
Qed.

Lemma scan_lines_ok (lines : list (list N)) : forall s : Scan,
  scan_ok s -> scan_ok (fold_left scanLine lines s).
Proof.
  induction lines as [|l lines IH]; intros s Hs; simpl; [done|].
  by apply IH, scanLine_ok.
Qed.

Lemma findTitle_nonempty (lines : list (list N)) (title : list N) :
  findTitle lines = Some title -> title <> [].
Proof.
  induction lines as [|l lines IH]; simpl; [done|].
  destruct (negb (str_eqb (trim l) [])) eqn:E; cbn [andb].
  - destruct (_ && _).
    + intros H. injection H as <-. apply negb_true_iff in E.
      unfold str_eqb in E. by apply bool_decide_eq_false in E.
    + destruct (test_prefix _ _); [done|apply IH].
  - destruct (test_prefix _ _); [done|apply IH].
Qed.

Lemma singleLine_trimmed (acc : list (list N) * list (list (list N)) * bool)
    (line : list N) :
  trimmed_cells acc.1.1 /\ Forall trimmed_cells acc.1.2 ->
  trimmed_cells (singleLine acc line).1.1
  /\ Forall trimmed_cells (singleLine acc line).1.2.
Proof.
  destruct acc as [[hs ds] hp]. intros [Hh Hd]. unfold singleLine.
  destruct (_ || _); [done|].
  destruct (dataCells _) as [cells|] eqn:E; [|done].
  apply dataCells_trimmed in E.
  destruct (negb hp); cbn [fst snd]; split; try done.
  apply Forall_app. split; [done|]. by constructor.
Qed.

Lemma single_lines_trimmed (lines : list (list N)) :
  forall acc : list (list N) * list (list (list N)) * bool,
  trimmed_cells acc.1.1 /\ Forall trimmed_cells acc.1.2 ->
  trimmed_cells (fold_left singleLine lines acc).1.1
  /\ Forall trimmed_cells (fold_left singleLine lines acc).1.2.
Proof.
  induction lines as [|l lines IH]; intros acc Hacc; simpl; [done|].
  by apply IH, singleLine_trimmed.
Qed.

Lemma parseSingleAsciiTable_ok (text : list N) (t : Table) :
  parseSingleAsciiTable text = Some t -> well_formed t.
Proof.
  unfold parseSingleAsciiTable.
  pose proof (single_lines_trimmed (split LF text) ([], [], false)) as H.
  destruct (fold_left singleLine (split LF text) ([], [], false))
    as [[hs ds] hp].
  destruct H as [Hh Hd]; [split; constructor|].
  destruct (0 <? length hs)%nat eqn:E; [|done].
  intros Ht. injection Ht as <-. apply Nat.ltb_lt in E.
  repeat split; cbn [name headers data]; try done.
  - destruct (findTitle (split LF text)) as [title|] eqn:Et; simpl.
    + by eapply findTitle_nonempty.
    + vm_compute. discriminate.
  - intros ->. simpl in E. lia.
Qed.

(** X11. Every table that [parseDatabricksFormat] returns, for any text, has
    a name that is not empty and at least one header, and all its header and
    data cells are trimmed. Each of them has at least one data row, unless
    the result is the one table that [parseSingleAsciiTable] found. *)
Theorem parseDatabricksFormat_well_formed (text : list N) :
  Forall (fun t => name t <> [] /\ headers t <> []
                   /\ Forall (fun cell => trim cell = cell) (headers t)
                   /\ Forall (Forall (fun cell => trim cell = cell)) (data t))
         (parseDatabricksFormat text)
  /\ (Forall (fun t => data t <> []) (parseDatabricksFormat text)
      \/ exists t, parseSingleAsciiTable text = Some t
                   /\ parseDatabricksFormat text = [t]).
Proof.
  unfold parseDatabricksFormat. cbv zeta.
  assert (Hs : scan_ok (fold_left scanLine (split LF text)
                                  (mkScan [] None [] false false []))).
  { apply scan_lines_ok. repeat split; constructor. }
  destruct (flushTable_ok _ Hs) as [Hwf Hdata].
  destruct (length (flushTable _) =? 0)%nat eqn:E.
  - apply Nat.eqb_eq, nil_length_inv in E. rewrite E. simpl.
    destruct (parseSingleAsciiTable text) as [t|] eqn:Et.
    + split; [|right; by exists t].
      constructor; [|constructor]. by apply (parseSingleAsciiTable_ok text).
    + split; [constructor|left; constructor].
  - split; [exact Hwf|by left].
Qed.

Lemma same_progress_step (s : Scan)
    (acc : list (list N) * list (list (list N)) * bool) (line : list N) :
  tableNameMatch (trim line) = None ->
  same_progress s acc -> same_progress (scanLine s line) (singleLine acc line).
Proof.
  intros Hno (Hts & Hname & ->). unfold scanLine, singleLine. rewrite Hno.
  unfold isSeparator.
  set (cleanLine := trim (strip_trailing_commas (trim line))).
  set (equals := test_whole (one_or_more (chr EQUALS)) cleanLine).
  set (ascii := test_whole (seqs [chr PLUS; one_or_more (one_of (js "-+"));
                                  optional (chr PLUS)]) cleanLine).
  set (unicode := test_whole _ cleanLine).
  replace (ascii || equals) with (equals || ascii) by apply orb_comm.
  destruct (equals || ascii || unicode); [done|].
  destruct (dataCells cleanLine) as [cells|]; [|done].
  by destruct (negb (headerParsed s)).
Qed.

Lemma same_progress_lines (lines : list (list N)) :
  forall (s : Scan) (acc : list (list N) * list (list (list N)) * bool),
  Forall (fun line => tableNameMatch (trim line) = None) lines ->
  same_progress s acc ->
  same_progress (fold_left scanLine lines s) (fold_left singleLine lines acc).
Proof.
  induction lines as [|l lines IH]; intros s acc Hno Hsame; simpl; [done|].
  apply Forall_cons in Hno as [Hl Hno].
  by apply IH, same_progress_step.
Qed.

(** X12. Without a [TABLE:] line the box parser gives one table at most,
    and the title that [parseSingleAsciiTable] looks for names only a table
    without data rows: a table with data rows is named "Table 1". *)
Theorem parseDatabricksFormat_untitled (text : list N) :
  Forall (fun line => tableNameMatch (trim line) = None) (split LF text) ->
  parseDatabricksFormat text = []
  \/ (exists hs rows, rows <> []
        /\ parseDatabricksFormat text = [mkTable (js "Table 1") hs rows])
  \/ (exists title hs, parseDatabricksFormat text = [mkTable title hs []]).
Proof.
  intros Hno.
  pose proof (same_progress_lines (split LF text)
                (mkScan [] None [] false false []) ([], [], false) Hno) as H.
  destruct H as (Hts & Hname & Hacc); [by repeat split|].
  unfold parseDatabricksFormat, parseSingleAsciiTable. cbv zeta.
  rewrite Hacc. unfold flushTable. rewrite Hts, Hname.
  set (s := fold_left scanLine (split LF text) _).
  destruct (currentRows s) as [|r rows] eqn:Er;
    destruct (currentHeaders s) as [|h hs] eqn:Eh.
  - by left.
  - right. right. by eexists _, _.
  - by left.
  - right. left. exists (h :: hs), (r :: rows). split; [done|]. reflexivity.
Qed.

Lemma parseDatabricksFormat_untitled_witness :
  parseDatabricksFormat
    (js "Sales" ++ [LF] ++ js "+--+" ++ [LF] ++ js "|a|" ++ [LF] ++ js "|1|") = []
  \/ (exists hs rows, rows <> []
        /\ parseDatabricksFormat
             (js "Sales" ++ [LF] ++ js "+--+" ++ [LF] ++ js "|a|" ++ [LF]
              ++ js "|1|")
           = [mkTable (js "Table 1") hs rows])
  \/ (exists title hs,
        parseDatabricksFormat
          (js "Sales" ++ [LF] ++ js "+--+" ++ [LF] ++ js "|a|" ++ [LF] ++ js "|1|")
        = [mkTable title hs []]).
Proof.
  apply (parseDatabricksFormat_untitled
           (js "Sales" ++ [LF] ++ js "+--+" ++ [LF] ++ js "|a|" ++ [LF]
            ++ js "|1|")).
  vm_compute. repeat constructor.
Defined.

(** ** What the Markdown parser returns *)

Lemma splitRow_trimmed (line : list N) : trimmed_cells (splitRow line).
Proof. unfold splitRow. apply map_trim_trimmed. Qed.

Lemma parseBlock_numbered (tables : list Table) (block : list N) :
  (forall k t, tables !! k = Some t ->
     name t = js "Table " ++ string_of_nat (k + 1)
     /\ headers t <> [] /\ data t <> []
     /\ trimmed_cells (headers t) /\ Forall trimmed_cells (data t)) ->
  forall k t, parseBlock tables block !! k = Some t ->
    name t = js "Table " ++ string_of_nat (k + 1)
    /\ headers t <> [] /\ data t <> []
    /\ trimmed_cells (headers t) /\ Forall trimmed_cells (data t).
Proof.
  intros Hts. unfold parseBlock.
  destruct (findIndex _ _ _) as [[|above]|]; [done| |done].
  cbv zeta.
  set (hs := splitRow _). set (ds := map splitRow _).
  destruct (0 <? length hs)%nat eqn:Eh; [|done].
  destruct (0 <? length ds)%nat eqn:Ed; [|done].
  cbn [andb]. apply Nat.ltb_lt in Eh, Ed. intros k t Hk.
  apply lookup_app_Some in Hk as [Hk|[Hlen Hk]]; [by apply Hts|].
  destruct (k - length tables)%nat as [|n] eqn:En; [|done].
  injection Hk as <-. cbn [name headers data].
  replace k with (length tables) by lia.
  repeat split; [| |apply splitRow_trimmed|].
  - intros H. rewrite H in Eh. simpl in Eh. lia.
  - intros H. rewrite H in Ed. simpl in Ed. lia.
  - subst ds. apply Forall_map, Forall_forall. intros l _. apply splitRow_trimmed.
Qed.

(** X13. The tables that [parseMarkdownTable] returns are numbered as they
    come: the table at index [k] is named "Table k+1"; each has at least one
    header and at least one data row, and all its cells are trimmed. *)
Theorem parseMarkdownTable_numbered (text : list N) (k : nat) (t : Table) :
  parseMarkdownTable text !! k = Some t ->
  name t = js "Table " ++ string_of_nat (k + 1)
  /\ headers t <> [] /\ data t <> []
  /\ Forall (fun cell => trim cell = cell) (headers t)
  /\ Forall (Forall (fun cell => trim cell = cell)) (data t).
Proof.
  unfold parseMarkdownTable. revert k t.
  assert (H : forall (blocks : list (list N)) (tables : list Table),
            (forall k t, tables !! k = Some t ->
               name t = js "Table " ++ string_of_nat (k + 1)
               /\ headers t <> [] /\ data t <> []
               /\ trimmed_cells (headers t) /\ Forall trimmed_cells (data t)) ->
            forall k t, fold_left parseBlock blocks tables !! k = Some t ->
              name t = js "Table " ++ string_of_nat (k + 1)
              /\ headers t <> [] /\ data t <> []
              /\ trimmed_cells (headers t) /\ Forall trimmed_cells (data t)).
  { induction blocks as [|b blocks IH]; intros tables Hts; simpl; [done|].
    apply IH. by apply parseBlock_numbered. }
  apply H. intros k t Hk. by rewrite lookup_nil in Hk.
Qed.

Lemma parseMarkdownTable_numbered_witness :
  name (mkTable (js "Table 1") [js "a"; js "b"] [[js "1"; js "2"]])
  = js "Table " ++ string_of_nat (0 + 1)
  /\ headers (mkTable (js "Table 1") [js "a"; js "b"] [[js "1"; js "2"]]) <> []
  /\ data (mkTable (js "Table 1") [js "a"; js "b"] [[js "1"; js "2"]]) <> []
  /\ Forall (fun cell => trim cell = cell)
            (headers (mkTable (js "Table 1") [js "a"; js "b"] [[js "1"; js "2"]]))
  /\ Forall (Forall (fun cell => trim cell = cell))
            (data (mkTable (js "Table 1") [js "a"; js "b"] [[js "1"; js "2"]])).
Proof.
  apply (parseMarkdownTable_numbered markdown_sample 0).
  vm_compute. reflexivity.
Defined.

(** ** What the fixed-width parser returns *)

Lemma sliceLine_cells (cuts : list nat) (line : list N) :
  length (sliceLine cuts line) = S (length cuts)
  /\ trimmed_cells (sliceLine cuts line).
Proof.
  unfold sliceLine.
  assert (H : forall (acc : list (list N) * nat),
            trimmed_cells acc.1 ->
            length (fold_left
                      (fun '(cells, prev) cut =>
                         (cells ++ [trim (take (cut - prev) (drop prev line))], cut))
                      cuts acc).1
            = (length acc.1 + length cuts)%nat
            /\ trimmed_cells
                 (fold_left
                    (fun '(cells, prev) cut =>
                       (cells ++ [trim (take (cut - prev) (drop prev line))], cut))
                    cuts acc).1).
  { induction cuts as [|cut cuts IH]; intros [cells prev] Hacc; simpl.
    - split; [lia|done].
    - destruct (IH (cells ++ [trim (take (cut - prev) (drop prev line))], cut))
        as [H1 H2].
      + simpl. apply Forall_app. split; [done|].
        constructor; [apply trim_idem|constructor].
      + split; [|done]. rewrite H1. simpl. rewrite length_app. simpl. lia. }
  destruct (H ([], 0%nat)) as [H1 H2]; [constructor|].
  destruct (fold_left _ cuts ([], 0%nat)) as [cells prev].
  simpl in H1, H2. split.
  - rewrite length_app, H1. simpl. lia.
  - apply Forall_app. split; [done|]. constructor; [apply trim_idem|constructor].
Qed.

(** X14. A table that [parseFixedWidthTable] returns is named "Table 1" and
    is rectangular with two columns at least: the headers and every data row
    have one cell more than there are cuts; it has at least one data row,
    every data row has a cell that is not empty, and all cells are
    trimmed. *)
Theorem parseFixedWidthTable_rectangular (text : list N) (t : Table) :
  parseFixedWidthTable text = Some t ->
  name t = js "Table 1"
  /\ (2 <= length (headers t))%nat
  /\ data t <> []
  /\ Forall (fun row => length row = length (headers t)
                        /\ some_nonempty row = true
                        /\ Forall (fun cell => trim cell = cell) row)
            (data t)
  /\ Forall (fun cell => trim cell = cell) (headers t).
Proof.
  unfold parseFixedWidthTable. cbv zeta.
  destruct (length (nonblank_lines text) <? 2)%nat; [done|].
  set (contentLines := List.filter _ _).
  destruct (length contentLines <? 2)%nat; [done|].
  set (cuts := findCuts _ _).
  destruct (length cuts =? 0)%nat eqn:Ec; [done|].
  apply Nat.eqb_neq in Ec.
  set (rows := List.filter some_nonempty _).
  destruct (length rows =? 0)%nat eqn:Er; [done|].
  apply Nat.eqb_neq in Er.
  intros Ht. injection Ht as <-. cbn [name headers data].
  destruct (sliceLine_cells cuts (default [] (head contentLines))) as [Hlen Htrim].
  repeat split; [lia| |  |done].
  - intros H. by rewrite H in Er.
  - subst rows. apply Forall_forall. intros row Hrow.
    apply list_elem_of_In, filter_In in Hrow as [Hin Hsome].
    apply in_map_iff in Hin as (line & <- & _).
    destruct (sliceLine_cells cuts line) as [Hl Ht].
    repeat split; [lia|done|done].
Qed.

Lemma parseFixedWidthTable_rectangular_witness :
  name (mkTable (js "Table 1") [js "Name"; js "Age"]
                [[js "Alice"; js "30"]; [js "Bob"; js "25"]])
  = js "Table 1"
  /\ (2 <= 2)%nat
  /\ [[js "Alice"; js "30"]; [js "Bob"; js "25"]] <> []
  /\ Forall (fun row => length row = 2%nat
                        /\ some_nonempty row = true
                        /\ Forall (fun cell => trim cell = cell) row)
            [[js "Alice"; js "30"]; [js "Bob"; js "25"]]
  /\ Forall (fun cell => trim cell = cell) [js "Name"; js "Age"].
Proof.
  apply (parseFixedWidthTable_rectangular
           (js "Name   Age" ++ [LF] ++ js "Alice  30" ++ [LF] ++ js "Bob    25")
           (mkTable (js "Table 1") [js "Name"; js "Age"]
                    [[js "Alice"; js "30"]; [js "Bob"; js "25"]])).
  vm_compute. reflexivity.
Defined.

(** ** What the JSON parser returns *)

Section JsonTable.

Variable B : Builtins.

Lemma fold_keys (arr : list json) : forall acc : gset (list N) * list (list N),
  fold_left
    (fun acc obj =>
       match obj with
       | JObject props => fold_left collect (map fst props) acc
       | _ => acc
       end) arr acc
  = fold_left collect (concat (map keysOf arr)) acc.
Proof.
  induction arr as [|obj arr IH]; intros acc; simpl; [done|].
  rewrite fold_left_app, IH. by destruct obj.
Qed.

Lemma json_rows (hs : list (list N)) (arr : list json) :
  length (flat_map (fun obj =>
                      match obj with
                      | JObject props => [map (cellOf B props) hs]
                      | _ => []
                      end) arr)
  = length (List.filter isPlainObject arr)
  /\ Forall (fun row => length row = length hs)
            (flat_map (fun obj =>
                         match obj with
                         | JObject props => [map (cellOf B props) hs]
                         | _ => []
                         end) arr).
Proof.
  induction arr as [|obj arr [IH1 IH2]]; simpl; [by split|].
  destruct obj; simpl; try done.
  split; [by rewrite IH1|]. constructor; [by rewrite length_map|done].
Qed.

End JsonTable.

(** X15. Whatever the built-in functions do, when [JSON.parse] gives an
    array, [parseJSONArray] returns a table named "JSON Data" whose headers
    are the keys of the plain objects of the array, each once; it has one row
    for each plain object and none for another element, and every row has as
    many cells as there are headers. *)
Theorem parseJSONArray_rectangular (B : Builtins) (text : list N)
    (arr : list json) :
  JSON_parse B (trimStart text) = Some (JArray arr) ->
  exists hs rows,
    parseJSONArray B text = Some (mkTable (js "JSON Data") hs rows)
    /\ NoDup hs
    /\ (forall h, h ∈ hs <-> exists obj, obj ∈ arr /\ h ∈ keysOf obj)
    /\ length rows = length (List.filter isPlainObject arr)
    /\ Forall (fun row => length row = length hs) rows.
Proof.
  intros Hparse. unfold parseJSONArray. rewrite Hparse. cbv zeta.
  rewrite fold_keys.
  change (∅ : gset (list N)) with (list_to_set [] : gset (list N)).
  rewrite collect_first_seen. cbn [snd app]. rewrite filter_unseen_nil.
  eexists _, _. split; [reflexivity|].
  split; [apply first_seen_NoDup|]. split; [|apply json_rows].
  intros h. rewrite first_seen_elem. clear Hparse.
  induction arr as [|obj arr IH]; simpl.
  - split; [by intros ?%elem_of_nil|]. by intros (obj & ?%elem_of_nil & _).
  - rewrite elem_of_app, IH. split.
    + intros [Hh|(obj' & Hobj' & Hh)].
      * exists obj. split; [apply list_elem_of_here|done].
      * exists obj'. split; [by apply list_elem_of_further|done].
    + intros (obj' & Hobj' & Hh). apply elem_of_cons in Hobj' as [->|Hobj'].
      * by left.
      * right. by exists obj'.
Qed.

Lemma parseJSONArray_rectangular_witness :
  exists hs rows,
    parseJSONArray
      (mkBuiltins
         (fun _ => Some (JArray [JObject [(js "a", JNull)]; JNull]))
         (fun _ => []) (fun _ => []) (fun _ => None))
      (js "[]")
    = Some (mkTable (js "JSON Data") hs rows)
    /\ NoDup hs
    /\ (forall h, h ∈ hs <-> exists obj,
                    obj ∈ [JObject [(js "a", JNull)]; JNull] /\ h ∈ keysOf obj)
    /\ length rows
       = length (List.filter isPlainObject [JObject [(js "a", JNull)]; JNull])
    /\ Forall (fun row => length row = length hs) rows.
Proof.
  apply (parseJSONArray_rectangular
           (mkBuiltins
              (fun _ => Some (JArray [JObject [(js "a", JNull)]; JNull]))
              (fun _ => []) (fun _ => []) (fun _ => None))
           (js "[]") [JObject [(js "a", JNull)]; JNull]).
  reflexivity.
Defined.

(** ** Loading a document *)

Section Loading.

Variable page : Page.

Lemma switchToTable_fresh (this : State) (index : Z) :
  (switchToTable this index).1 = this
  \/ (st_filteredData (switchToTable this index).1
      = st_data (switchToTable this index).1
      /\ st_sortColumn (switchToTable this index).1 = (-1)%Z).
Proof.
  unfold switchToTable. destruct (index =? -1)%Z; [by right|].
  destruct (_ && _); [|by left].
  destruct (st_tables this !! Z.to_nat index); [by right|by left].
Qed.

Lemma loadTables_fresh (this : State) (tables : list Table) (kind : list N) :
  st_sortDirection (loadTables page this tables kind).1 = st_sortDirection this
  /\ (canonical (loadTables page this tables kind).1 = canonical this
      \/ (st_filteredData (loadTables page this tables kind).1
          = st_data (loadTables page this tables kind).1
          /\ st_sortColumn (loadTables page this tables kind).1 = (-1)%Z)).
Proof.
  unfold loadTables. cbv zeta.
  set (index := if (1 <? length tables)%nat then (-1)%Z else 0%Z).
  pose proof (switchToTable_fresh (setTables this tables) index) as Hfresh.
  pose proof (switchToTable_direction (setTables this tables) index) as Hdir.
  destruct (switchToTable (setTables this tables) index) as [this2 rendered].
  cbn [fst] in *. split; [done|].
  destruct Hfresh as [->|Hfresh]; [by left|by right].
Qed.

Lemma loadTable_fresh (this : State) (table : Table) (message : list N) :
  st_sortDirection (loadTable page this table message).1 = st_sortDirection this
  /\ (canonical (loadTable page this table message).1 = canonical this
      \/ (st_filteredData (loadTable page this table message).1
          = st_data (loadTable page this table message).1
          /\ st_sortColumn (loadTable page this table message).1 = (-1)%Z)).
Proof.
  unfold loadTable. cbv zeta.
  pose proof (switchToTable_fresh (setTables this [table]) 0) as Hfresh.
  pose proof (switchToTable_direction (setTables this [table]) 0) as Hdir.
  destruct (switchToTable (setTables this [table]) 0) as [this2 rendered].
  cbn [fst] in *. split; [done|].
  destruct Hfresh as [->|Hfresh]; [by left|by right].
Qed.

Lemma processData_fresh (this : State) (rows : list (list (list N))) :
  st_sortDirection (processData page this rows).1 = st_sortDirection this
  /\ (canonical (processData page this rows).1 = canonical this
      \/ (st_filteredData (processData page this rows).1
          = st_data (processData page this rows).1
          /\ st_sortColumn (processData page this rows).1 = (-1)%Z)).
Proof.
  unfold processData. destruct (length rows =? 0)%nat; [by split; [|left]|].
  cbv zeta. destruct (_ && _); by split; [|right].
Qed.

Lemma fallback_fresh (this : State) (text : list N) :
  st_sortDirection (fallback page this text).1 = st_sortDirection this
  /\ (canonical (fallback page this text).1 = canonical this
      \/ (st_filteredData (fallback page this text).1
          = st_data (fallback page this text).1
          /\ st_sortColumn (fallback page this text).1 = (-1)%Z)).
Proof.
  unfold fallback. cbv zeta.
  pose proof (processData_fresh (setTables this [])
                (parseCSV text (chosenDelimiter page text))) as H.
  destruct (processData page (setTables this []) _) as [this2 shown].
  exact H.
Qed.

Lemma padRow_clean (maxCols : nat) (row : list (list N)) :
  some_nonempty row = true -> trimmed_cells row ->
  some_nonempty (padRow maxCols row) = true
  /\ trimmed_cells (padRow maxCols row).
Proof.
  intros Hsome Htrim. unfold padRow, some_nonempty. split.
  - rewrite existsb_app. unfold some_nonempty in Hsome. by rewrite Hsome.
  - apply Forall_app. split; [done|]. by apply Forall_replicate.
Qed.

Lemma processData_rows_clean (this : State) (rows : list (list (list N))) :
  rows <> [] -> Forall clean_row rows ->
  Forall (fun row => length row = length (st_headers (processData page this rows).1)
                     /\ some_nonempty row = true /\ trimmed_cells row)
         (st_data (processData page this rows).1).
Proof.
  intros Hne Hclean.
  destruct (processData_shape page this rows Hne) as (Hh & Hd & _).
  rewrite Hh. clear Hh.
  assert (Hall : Forall (fun row => some_nonempty row = true /\ trimmed_cells row)
                        (st_data (processData page this rows).1)).
  { unfold processData. destruct rows as [|r0 rows]; [done|].
    change (length (r0 :: rows) =? 0)%nat with false. cbv zeta.
    set (maxCols := fold_left Nat.max _ _).
    assert (Hp : Forall (fun row => some_nonempty row = true /\ trimmed_cells row)
                        (map (padRow maxCols) (r0 :: rows))).
    { apply Forall_map. eapply Forall_impl; [exact Hclean|].
      intros row [H1 H2]. by apply padRow_clean. }
    destruct (_ && _); cbn [fst st_data]; [by apply Forall_drop|done]. }
  apply Forall_forall. intros row Hrow.
  rewrite Forall_forall in Hd, Hall.
  split; [by apply Hd|by apply Hall].
Qed.

End Loading.

(** X16. [formatFromText] never changes the sort direction, and it leaves no
    stale view behind: whatever the text and the built-in functions, either
    the headers, the data, the rows shown and the sort column are what they
    were, or the rows shown are the new data and no column is the sort
    column. *)
Theorem formatFromText_fresh_view (B : Builtins) (page : Page) (this : State) :
  st_sortDirection (formatFromText B page this).1 = st_sortDirection this
  /\ (canonical (formatFromText B page this).1 = canonical this
      \/ (st_filteredData (formatFromText B page this).1
          = st_data (formatFromText B page this).1
          /\ st_sortColumn (formatFromText B page this).1 = (-1)%Z)).
Proof.
  unfold formatFromText. cbv zeta.
  destruct (str_eqb (trim (pasteInput_value page)) []); [by split; [|left]|].
  set (text := trim (pasteInput_value page)).
  rewrite boxBlock_owns, markdownBlock_owns, jsonBlock_owns, fixedWidthBlock_owns.
  destruct (boxOwns text); [apply loadTables_fresh|].
  destruct (markdownOwns text); [apply loadTables_fresh|].
  cbn [orElse].
  destruct (isJSONArray B text).
  { destruct (parseJSONArray B text) as [table|]; cbn [option_map orElse];
      [apply loadTable_fresh|].
    destruct (fixedWidthOwns text); [|apply fallback_fresh].
    destruct (parseFixedWidthTable text) as [table|]; cbn [option_map orElse];
      [apply loadTable_fresh|apply fallback_fresh]. }
  cbn [orElse].
  destruct (fixedWidthOwns text); [|apply fallback_fresh].
  destruct (parseFixedWidthTable text) as [table|]; cbn [option_map orElse];
    [apply loadTable_fresh|apply fallback_fresh].
Qed.

Lemma processFile_state (page : Page) (this : State) (fileName text : list N) :
  (processFile page this fileName text).1
  = (processData page this (parseCSV text (detectDelimiter text))).1.
Proof. unfold processFile. cbv zeta. by destruct (processData _ _ _). Qed.

(** X17. A file that gives rows gives a clean document: after [processFile]
    every row of the data has as many cells as there are headers, has a cell
    that is not empty, and holds trimmed cells only. *)
Theorem processFile_rows_clean (page : Page) (this : State)
    (fileName fileText : list N) :
  parseCSV fileText (detectDelimiter fileText) <> [] ->
  Forall (fun row => length row
                     = length (st_headers (processFile page this fileName fileText).1)
                     /\ some_nonempty row = true
                     /\ Forall (fun cell => trim cell = cell) row)
         (st_data (processFile page this fileName fileText).1).
Proof.
  intros Hrows. rewrite processFile_state.
  apply processData_rows_clean; [done|]. apply parseCSV_clean.
Qed.

Lemma processFile_rows_clean_witness :
  Forall (fun row =>
            length row
            = length (st_headers
                        (processFile (auto_page []) initial_state (js "t.csv")
                           (js "a,b" ++ [LF] ++ js "1" ++ [LF] ++ js " 2 ,3")).1)
            /\ some_nonempty row = true
            /\ Forall (fun cell => trim cell = cell) row)
         (st_data (processFile (auto_page []) initial_state (js "t.csv")
                     (js "a,b" ++ [LF] ++ js "1" ++ [LF] ++ js " 2 ,3")).1).
Proof.
  apply (processFile_rows_clean (auto_page []) initial_state (js "t.csv")
           (js "a,b" ++ [LF] ++ js "1" ++ [LF] ++ js " 2 ,3")).
  vm_compute. discriminate.
Defined.

(** ** Blank input *)

Lemma trimStart_blank (s : list N) :
  forallb isWhiteSpace s = true -> trimStart s = [].
Proof.
  induction s as [|c s IH]; simpl; [done|].
  intros H. apply andb_true_iff in H as [Hc Hs]. rewrite Hc. by apply IH.
Qed.

Lemma trim_blank (s : list N) : forallb isWhiteSpace s = true -> trim s = [].
Proof. intros H. unfold trim. by rewrite trimStart_blank. Qed.

Section BlankText.

Import Machine.

Variable delimiter : list N.

Lemma some_nonempty_snoc_empty (r : list (list N)) :
  some_nonempty (r ++ [[]]) = some_nonempty r.
Proof. unfold some_nonempty. rewrite existsb_app. simpl. by rewrite !orb_false_r. Qed.

Lemma blank_end_cell (m : Config) : blank m -> blank (end_cell m).
Proof.
  intros (Hm & Hc & Hr & Hk). repeat split; simpl; try done.
  by rewrite trim_blank, some_nonempty_snoc_empty.
Qed.

Lemma blank_end_row (m : Config) : blank m -> blank (end_row m).
Proof.
  intros (Hm & Hc & Hr & Hk). repeat split; simpl; try done.
  unfold keep. by rewrite trim_blank, some_nonempty_snoc_empty, Hr.
Qed.

Lemma blank_emit (c : N) (m : Config) :
  isWhiteSpace c = true -> blank m -> blank (emit c m).
Proof.
  intros Hws (Hm & Hc & Hr & Hk). repeat split; simpl; try done.
  rewrite forallb_app, Hc. simpl. by rewrite Hws.
Qed.

Lemma run_blank (input : list N) : forall m : Config,
  forallb isWhiteSpace input = true -> blank m -> blank (run delimiter input m).
Proof.
  remember (length input) as n eqn:Hn. revert input Hn.
  induction n as [n IH] using lt_wf_ind. intros input Hn m Hws Hm.
  assert (IH' : forall i, length i < length input ->
            forall m', forallb isWhiteSpace i = true -> blank m' ->
                       blank (run delimiter i m')).
  { intros i Hi. apply (IH (length i)); [lia|done]. }
  clear IH Hn. rename IH' into IH.
  destruct input as [|c rest]; [done|].
  cbn [forallb] in Hws. apply andb_true_iff in Hws as [Hc Hrest].
  assert (Hq : (c =? QUOTE)%N = false).
  { destruct (c =? QUOTE)%N eqn:E; [|done]. apply N.eqb_eq in E. by subst c. }
  cbn [run]. destruct Hm as (Hmode & Hm'). rewrite Hmode, Hq.
  assert (Hm : blank m) by done.
  assert (IH1 : forall m', blank m' -> blank (run delimiter rest m'))
    by (intros; apply IH; [simpl; lia|done|done]).
  destruct (is_delimiter c delimiter); [by apply IH1, blank_end_cell|].
  destruct (c =? LF)%N; [by apply IH1, blank_end_row|].
  destruct (c =? CR)%N; [|by apply IH1, blank_emit].
  destruct rest as [|c' rest']; [done|].
  destruct (c' =? LF)%N; [|by apply IH1].
  cbn [forallb] in Hrest. apply andb_true_iff in Hrest as [_ Hrest'].
  apply IH; [simpl; lia|done|by apply blank_end_row].
Qed.

Lemma parseCSV_blank (text : list N) :
  forallb isWhiteSpace text = true -> parseCSV text delimiter = [].
Proof.
  intros Hws. rewrite parseCSV_machine. unfold parse.
  assert (H : blank (run delimiter text start)) by (by apply run_blank).
  by apply blank_end_row in H as (_ & _ & _ & Hk).
Qed.

End BlankText.

(** X18. Input that holds white space only makes no document, whatever the
    delimiter: [parseCSV] returns no row for it; [processFile] writes the
    label with the file name and shows "No data found"; [formatFromText]
    shows "Please enter some data first"; both leave the state as it was. *)
Theorem blank_input_loads_nothing (B : Builtins) (page : Page) (this : State)
    (fileName text : list N) :
  forallb isWhiteSpace text = true ->
  (forall delimiter, parseCSV text delimiter = [])
  /\ processFile page this fileName text
     = (this, [SetFileNameDisplay (js "Selected: " ++ fileName);
               ShowToast (js "No data found")])
  /\ formatFromText B
       (mkPage text (delimiterSelect_value page) (firstRowHeader_checked page)
               (tableSelector page) (tableSelectorContainer page)) this
     = (this, [ShowToast (js "Please enter some data first")]).
Proof.
  intros Hws. split; [|split].
  - intros delimiter. by apply parseCSV_blank.
  - unfold processFile. cbv zeta. by rewrite parseCSV_blank.
  - unfold formatFromText. cbn [pasteInput_value]. cbv zeta.
    by rewrite trim_blank.
Qed.

Lemma blank_input_loads_nothing_witness :
  processFile (auto_page []) two_tables (js "t.csv") [SPACE; LF; TAB; CR; LF]
  = (two_tables, [SetFileNameDisplay (js "Selected: t.csv");
                  ShowToast (js "No data found")]).
Proof.
  apply (blank_input_loads_nothing
           (mkBuiltins (fun _ => None) (fun _ => []) (fun _ => []) (fun _ => None))
           (auto_page []) two_tables (js "t.csv") [SPACE; LF; TAB; CR; LF]).
  reflexivity.
Defined.

(** ** Loading tables *)

Lemma switchToTable_single (this : State) (t : Table) :
  st_tables this = [t] ->
  switchToTable this 0
  = (mkState (data t) (headers t) (-1) (st_sortDirection this) (data t) [t] 0,
     [RenderTable]).
Proof. intros H. unfold switchToTable. by rewrite H. Qed.

Lemma loadTables_view (this : State) (tables : list Table) :
  tables <> [] ->
  length (st_data (switchToTable (setTables this tables)
                     (if (1 <? length tables)%nat then (-1)%Z else 0%Z)).1)
  = totalRows tables
  /\ st_currentTableIndex
       (switchToTable (setTables this tables)
          (if (1 <? length tables)%nat then (-1)%Z else 0%Z)).1
     = (if (1 <? length tables)%nat then (-1)%Z else 0%Z).
Proof.
  intros Hne. destruct tables as [|t0 [|t1 ts]]; [done| |].
  - change (1 <? length [t0])%nat with false. cbv iota.
    rewrite (switchToTable_single (setTables this [t0]) t0 eq_refl).
    cbn [fst st_data st_currentTableIndex]. split; [|done].
    unfold totalRows. simpl. lia.
  - change (1 <? length (t0 :: t1 :: ts))%nat with true. cbv iota.
    destruct (switchToTable_all_shape (setTables this (t0 :: t1 :: ts)))
      as (_ & _ & Hrows & _).
    split; [exact Hrows|]. unfold switchToTable. by change (-1 =? -1)%Z with true.
Qed.

(** X19. The notification of [loadTables] announces the rows that are
    shown: for a table list that is not empty, the table set is that list,
    the data has as many rows as the tables have together, and the last
    effect is the toast with that number; with more than one table the view
    is "All Tables", with one table it is that table. *)
Theorem loadTables_shows_all_rows (page : Page) (this : State)
    (tables : list Table) (kind : list N) :
  tables <> [] ->
  st_tables (loadTables page this tables kind).1 = tables
  /\ length (st_data (loadTables page this tables kind).1) = totalRows tables
  /\ st_currentTableIndex (loadTables page this tables kind).1
     = (if (1 <? length tables)%nat then (-1)%Z else 0%Z)
  /\ last (loadTables page this tables kind).2
     = Some (ShowToast (js "Loaded " ++ string_of_nat (length tables) ++ kind
                        ++ string_of_nat (totalRows tables) ++ js " total rows")).
Proof.
  intros Hne. split; [apply loadTables_tables|].
  pose proof (loadTables_view this tables Hne) as [Hrows Hindex].
  unfold loadTables. cbv zeta.
  destruct (switchToTable (setTables this tables) _) as [this2 rendered].
  cbn [fst snd] in *. repeat split; [done|done|].
  by rewrite !app_assoc, last_snoc.
Qed.

Lemma loadTables_shows_all_rows_witness :
  length (st_data (loadTables (auto_page []) initial_state
                     (st_tables two_tables) (js " table(s), ")).1)
  = totalRows (st_tables two_tables).
Proof.
  apply (loadTables_shows_all_rows (auto_page []) initial_state
           (st_tables two_tables) (js " table(s), ")).
  discriminate.
Defined.

(** ** Export and parse again *)

Lemma dataToCSV_parsed (this : State) :
  forallb (forallb cr_free_unless_quoted)
          (st_headers this :: st_filteredData this) = true ->
  parseCSV (dataToCSV this) [COMMA]
  = List.filter some_nonempty
      (map (map trim) (st_headers this :: st_filteredData this)).
Proof.
  intros Hok. rewrite parseCSV_machine. unfold Machine.parse, dataToCSV.
  change (js ",") with [COMMA].
  change (join [COMMA] (map escape (st_headers this))
          :: map (fun row => join [COMMA] (map escape row)) (st_filteredData this))
    with (map (fun row => join [COMMA] (map escape row))
              (st_headers this :: st_filteredData this)).
  by rewrite run_lines.
Qed.

Lemma clean_rows_fixed (rows : list (list (list N))) :
  Forall clean_row rows ->
  List.filter some_nonempty (map (map trim) rows) = rows.
Proof.
  induction rows as [|r rows IH]; intros H; [done|].
  apply Forall_cons in H as [[Hsome Htrim] Hrows].
  assert (Hr : map trim r = r).
  { clear Hsome. induction r as [|c r IHr]; [done|].
    apply Forall_cons in Htrim as [Hc Hr]. simpl. by rewrite Hc, IHr. }
  cbn [map List.filter]. by rewrite Hr, Hsome, IH.
Qed.

(** X20. Export and parse is the identity on a clean document: when the
    header row and every row shown have a cell that is not empty and trimmed
    cells only, and no cell written without quotes holds a carriage return,
    [parseCSV] with a comma gives back from [dataToCSV] exactly the header row
    and the rows shown. *)
Theorem dataToCSV_parseCSV_identity (this : State) :
  Forall (fun row => some_nonempty row = true
                     /\ Forall (fun cell => trim cell = cell) row)
         (st_headers this :: st_filteredData this) ->
  forallb (forallb cr_free_unless_quoted)
          (st_headers this :: st_filteredData this) = true ->
  parseCSV (dataToCSV this) (js ",") = st_headers this :: st_filteredData this.
Proof.
  intros Hclean Hok. change (js ",") with [COMMA].
  rewrite (dataToCSV_parsed this Hok). by apply clean_rows_fixed.
Qed.

Lemma dataToCSV_parseCSV_identity_witness :
  parseCSV
    (dataToCSV (mkState [] [js "a"; js "b,c"] (-1) asc
                        [[js "1"; js ""]; [[QUOTE]; js "x y"]] [] 0))
    (js ",")
  = [[js "a"; js "b,c"]; [js "1"; js ""]; [[QUOTE]; js "x y"]].
Proof.
  apply (dataToCSV_parseCSV_identity
           (mkState [] [js "a"; js "b,c"] (-1) asc
                    [[js "1"; js ""]; [[QUOTE]; js "x y"]] [] 0)).
  - repeat constructor.
  - reflexivity.
Defined.

(** ** A delimiter that is not one code unit *)

Section WideDelimiter.

Import Machine.

Variable delimiter : list N.
Hypothesis wide : length delimiter <> 1%nat.

Lemma is_delimiter_wide (c : N) : is_delimiter c delimiter = false.
Proof.
  unfold is_delimiter, str_eqb. apply bool_decide_eq_false_2.
  intros H. apply wide. by rewrite <- H.
Qed.

Lemma single_cells_end_row (m : Config) : single_cells m -> single_cells (end_row m).
Proof.
  intros [Hr Hk]. split; [done|]. simpl. unfold keep. rewrite Hr.
  destruct (some_nonempty _); [|done].
  apply Forall_app. split; [done|]. by repeat constructor.
Qed.

Lemma run_single_cells (input : list N) : forall m : Config,
  single_cells m -> single_cells (run delimiter input m).
Proof.
  remember (length input) as n eqn:Hn. revert input Hn.
  induction n as [n IH] using lt_wf_ind. intros input Hn m Hm.
  assert (IH' : forall i, length i < length input ->
            forall m', single_cells m' -> single_cells (run delimiter i m')).
  { intros i Hi. apply (IH (length i)); [lia|done]. }
  clear IH Hn. rename IH' into IH.
  destruct input as [|c rest]; [done|]. cbn [run].
  rewrite is_delimiter_wide.
  assert (IH1 : forall m', single_cells m' -> single_cells (run delimiter rest m'))
    by (intros; apply IH; [simpl; lia|done]).
  destruct (mode m).
  - destruct (c =? QUOTE)%N; [by apply IH1|].
    destruct (c =? LF)%N; [by apply IH1, single_cells_end_row|].
    destruct (c =? CR)%N; [|by apply IH1].
    destruct rest as [|c' rest']; [done|].
    destruct (c' =? LF)%N; [|by apply IH1].
    apply IH; [simpl; lia|by apply single_cells_end_row].
  - destruct (c =? QUOTE)%N; [|by apply IH1].
    destruct rest as [|c' rest']; [done|].
    destruct (c' =? QUOTE)%N; [|by apply IH1].
    apply IH; [simpl; lia|done].
Qed.

End WideDelimiter.

(** X21. A delimiter that is not exactly one code unit never splits a row:
    [parseCSV] compares it with one code unit of the text at a time, so with
    an empty or a longer delimiter every row it returns has one cell. *)
Theorem parseCSV_wide_delimiter (text delimiter : list N) :
  length delimiter <> 1%nat ->
  Forall (fun row => length row = 1%nat) (parseCSV text delimiter).
Proof.
  intros Hwide. rewrite parseCSV_machine. unfold Machine.parse.
  apply (single_cells_end_row (Machine.run delimiter text Machine.start)).
  apply run_single_cells; [done|]. by split.
Qed.

Lemma parseCSV_wide_delimiter_witness :
  Forall (fun row => length row = 1%nat)
         (parseCSV (js "a, b" ++ [LF] ++ js "c,,d") (js ",,")).
Proof.
  apply (parseCSV_wide_delimiter (js "a, b" ++ [LF] ++ js "c,,d") (js ",,")).
  vm_compute. discriminate.
Defined.

(** ** Sorting on a column without cells *)

Section EmptyColumn.

Variable toLowerCase : list N -> list N.

Lemma str_ltb_irrefl (s : list N) : str_ltb s s = false.
Proof.
  induction s as [|c s IH]; simpl; [done|]. by rewrite N.ltb_irrefl.
Qed.

Lemma compareRows_empty (d : Direction) (col : Z) (a b : list (list N)) :
  cell_at a col = [] -> cell_at b col = [] ->
  (0 <? compareRows toLowerCase d col a b)%float = false.
Proof.
  intros Ha Hb. unfold compareRows. rewrite Ha, Hb. cbv zeta.
  change (isNaN (parseFloat [])) with true. cbn [negb andb].
  by rewrite str_ltb_irrefl.
Qed.

Lemma insert_sorted_last {A} (compare : A -> A -> float) (x : A) (l : list A) :
  Forall (fun y => (0 <? compare y x)%float = false) l ->
  insert_sorted compare x l = l ++ [x].
Proof.
  induction 1 as [|y l Hy Hl IH]; simpl; [done|]. by rewrite Hy, IH.
Qed.

Lemma array_sort_keeps_order {A} (compare : A -> A -> float) (l : list A) :
  (forall a b, a ∈ l -> b ∈ l -> (0 <? compare a b)%float = false) ->
  array_sort compare l = l.
Proof.
  intros Hnone. unfold array_sort.
  assert (H : forall rest acc, (forall a, a ∈ acc ++ rest -> a ∈ l) ->
            fold_left (fun sorted x => insert_sorted compare x sorted) rest acc
            = acc ++ rest).
  { induction rest as [|x rest IH]; intros acc Hin; simpl; [by rewrite app_nil_r|].
    rewrite insert_sorted_last.
    - rewrite IH; [by rewrite <- app_assoc|].
      intros a Ha. apply Hin. by rewrite <- app_assoc in Ha.
    - apply Forall_forall. intros y Hy. apply Hnone; apply Hin; set_solver. }
  apply (H l []). by intros a Ha.
Qed.

End EmptyColumn.

(** X22. Sorting on a column that is missing or empty in every row shown,
    a column index out of range for instance, leaves the rows shown in the
    order they were in. *)
Theorem sortTable_empty_column (toLowerCase : list N -> list N) (this : State)
    (columnIndex : Z) :
  (forall row, row ∈ st_filteredData this -> cell_at row columnIndex = []) ->
  st_filteredData (sortTable toLowerCase this columnIndex).1
  = st_filteredData this.
Proof.
  intros Hempty. unfold sortTable.
  destruct (st_sortColumn this =? columnIndex)%Z; cbn [fst st_filteredData];
    apply array_sort_keeps_order; intros a b Ha Hb;
    apply compareRows_empty; by apply Hempty.
Qed.

Lemma sortTable_empty_column_witness :
  st_filteredData
    (sortTable ascii_toLowerCase (column_of [js "b"; js "a"]) 3).1
  = st_filteredData (column_of [js "b"; js "a"]).
Proof.
  apply (sortTable_empty_column ascii_toLowerCase (column_of [js "b"; js "a"]) 3).
  intros row Hrow. unfold column_of in Hrow. cbn [st_filteredData map] in Hrow.
  apply elem_of_cons in Hrow as [->|Hrow]; [reflexivity|].
  apply elem_of_cons in Hrow as [->|Hrow]; [reflexivity|].
  by apply elem_of_nil in Hrow.
Defined.
